(** * Microcline: the message box and the command box

    A shallow embedding of [microcline.py]: the word-wrapping [append] of the
    message box, its bounded scrollback and paging, the staleness rule of
    [draw], and the key-by-key input loop [get] of the command box.

    Python values are embedded as follows.
    - [str] is a list of Unicode code points ([N]); [len] counts code points,
      as Python's [len] does.
    - [int] is [Z].
    - A [collections.deque] with a [maxlen] is a list (front first) together
      with its bound.
    - A method that mutates [self] takes the object and returns an [outcome]
      that carries the object after the call, also when the call raises.
    - A [while True] loop takes a fuel argument, one unit per iteration;
      [OutOfFuel] is the outcome of a run that needs more iterations.
    - The curses window of a box is write-only. Its size and its cursor
      decide which calls fail, and nothing else of it is kept: a drawing
      method returns the list of curses calls it issues, or raises at the
      first call that fails, and a method that calls one keeps the
      exception and drops the list. Every drawing method begins by placing
      the cursor, so the cursor need not be kept between two of them.
    - The terminal is taken to be in a UTF-8 locale and to have the cursor
      modes that [curs_set] asks for. *)

From Stdlib Require Import ZArith List Lia Bool String Ascii DecimalString.
From stdpp Require Import base list list_numbers gmap.

Local Open Scope Z_scope.

(* ================================================================= *)
(** ** Python strings *)

Abbreviation char := N (only parsing).
Abbreviation str := (list N) (only parsing).

(** The [str] of an ASCII literal. *)
Definition py (s : string) : str := N_of_ascii <$> list_ascii_of_string s.
Arguments py s%_string.

Definition len {A} (l : list A) : Z := Z.of_nat (length l).

(** Code points of the glyphs the source names. *)
Definition space : char := 32%N.
Definition sigil_plain : char := 183%N.       (* "·" U+00B7 *)
Definition sigil_prompt : char := 10096%N.    (* "❰" U+2770 *)
Definition sigil_command : char := 10097%N.   (* "❱" U+2771 *)
Definition sigil_error : char := 10006%N.     (* "✖" U+2716 *)
Definition ellipsis : char := 8230%N.         (* "…" U+2026 *)

(** [str.isspace] for one code point: the characters Python strips with
    [lstrip()]. *)
Definition isspace (c : char) : bool :=
  ((9 <=? c) && (c <=? 13) || (28 <=? c) && (c <=? 32)
   || (c =? 133) || (c =? 160) || (c =? 5760)
   || (8192 <=? c) && (c <=? 8202)
   || (c =? 8232) || (c =? 8233) || (c =? 8239) || (c =? 8287)
   || (c =? 12288))%N.

(** [s.lstrip()] *)
Fixpoint lstrip (s : str) : str :=
  match s with
  | c :: t => if isspace c then lstrip t else s
  | [] => []
  end.

(** [s[:n]] and [s[n:]]; a negative [n] counts from the end. *)
Definition slice_to {A} (s : list A) (n : Z) : list A :=
  take (Z.to_nat (if n <? 0 then len s + n else n)) s.

Definition slice_from {A} (s : list A) (n : Z) : list A :=
  drop (Z.to_nat (if n <? 0 then len s + n else n)) s.

(** [s.rfind(c)] for a one-character [c]: the highest index of [c], or -1. *)
Fixpoint rfind (c : char) (s : str) : Z :=
  match s with
  | [] => -1
  | x :: t =>
      let r := rfind c t in
      if 0 <=? r then r + 1 else if (x =? c)%N then 0 else -1
  end.

(** [str(n)] for an [int]. *)
Definition str_of_int (n : Z) : str := py (NilZero.string_of_int (Z.to_int n)).

(* ================================================================= *)
(** ** Exceptions and outcomes *)

Inductive exn : Type :=
| IndexError
| ValueError
| OverflowError
| curses_error            (* [curses.error] *)
| Exception (msg : string).

(** What a call on an object of type [S] does: it returns [a], or raises
    [e], each time leaving the object as [s]; or it needs more loop
    iterations than its fuel; or it waits for a key that never comes. *)
Inductive outcome (S A : Type) : Type :=
| Return (a : A) (s : S)
| Raise (e : exn) (s : S)
| OutOfFuel
| Blocked.
Arguments Return {S A} a s.
Arguments Raise {S A} e s.
Arguments OutOfFuel {S A}.
Arguments Blocked {S A}.

(* ================================================================= *)
(** ** [collections.deque] with a [maxlen] *)

Record deque (A : Type) : Type := Deque { items : list A; maxlen : nat }.
Arguments Deque {A} items maxlen.
Arguments items {A} d.
Arguments maxlen {A} d.

(** [d.appendleft(x)]: once the deque is full the item at the right end is
    discarded; a deque of [maxlen] 0 stays empty. *)
Definition appendleft {A} (x : A) (d : deque A) : deque A :=
  Deque (take (maxlen d) (x :: items d)) (maxlen d).

(** [d[i]]; a negative [i] counts from the right end. *)
Definition deque_index {A} (d : deque A) (i : Z) : option A :=
  if i <? 0 then
    if len (items d) + i <? 0 then None
    else items d !! Z.to_nat (len (items d) + i)
  else items d !! Z.to_nat i.

(* ================================================================= *)
(** ** The part of curses the boxes use *)

Module curses.

Definition A_NORMAL : Z := 0.
Definition A_DIM : Z := 1048576.     (* 1 << 20 *)
Definition A_BOLD : Z := 2097152.    (* 1 << 21 *)

Definition KEY_DOWN : Z := 258.
Definition KEY_UP : Z := 259.
Definition KEY_BACKSPACE : Z := 263.
Definition KEY_NPAGE : Z := 338.
Definition KEY_PPAGE : Z := 339.

(** Calls on a curses window, in the order they are issued. *)
Inductive op : Type :=
| curs_set (visibility : Z)
| erase
| move (y x : Z)
| addstr (text : str) (attr : Z)
| addstr_at (y x : Z) (text : str)
| refresh.

(** The characters that take no column (combining marks and the like), as
    ranges of code points. *)
Definition zero_width : list (N * N) :=
  [ (768, 879); (1155, 1161); (1425, 1469); (1471, 1471); (1473, 1474); (1476,
    1477); (1479, 1479); (1552, 1562); (1564, 1564); (1611, 1631); (1648,
    1648); (1750, 1756); (1759, 1764); (1767, 1768); (1770, 1773); (1809,
    1809); (1840, 1866); (1958, 1968); (2027, 2035); (2045, 2045); (2070,
    2073); (2075, 2083); (2085, 2087); (2089, 2093); (2137, 2139); (2200,
    2207); (2250, 2273); (2275, 2306); (2362, 2362); (2364, 2364); (2369,
    2376); (2381, 2381); (2385, 2391); (2402, 2403); (2433, 2433); (2492,
    2492); (2497, 2500); (2509, 2509); (2530, 2531); (2558, 2558); (2561,
    2562); (2620, 2620); (2625, 2626); (2631, 2632); (2635, 2637); (2641,
    2641); (2672, 2673); (2677, 2677); (2689, 2690); (2748, 2748); (2753,
    2757); (2759, 2760); (2765, 2765); (2786, 2787); (2810, 2815); (2817,
    2817); (2876, 2876); (2879, 2879); (2881, 2884); (2893, 2893); (2901,
    2902); (2914, 2915); (2946, 2946); (3008, 3008); (3021, 3021); (3072,
    3072); (3076, 3076); (3132, 3132); (3134, 3136); (3142, 3144); (3146,
    3149); (3157, 3158); (3170, 3171); (3201, 3201); (3260, 3260); (3263,
    3263); (3270, 3270); (3276, 3277); (3298, 3299); (3328, 3329); (3387,
    3388); (3393, 3396); (3405, 3405); (3426, 3427); (3457, 3457); (3530,
    3530); (3538, 3540); (3542, 3542); (3633, 3633); (3636, 3642); (3655,
    3662); (3761, 3761); (3764, 3772); (3784, 3789); (3864, 3865); (3893,
    3893); (3895, 3895); (3897, 3897); (3953, 3966); (3968, 3972); (3974,
    3975); (3981, 3991); (3993, 4028); (4038, 4038); (4141, 4144); (4146,
    4151); (4153, 4154); (4157, 4158); (4184, 4185); (4190, 4192); (4209,
    4212); (4226, 4226); (4229, 4230); (4237, 4237); (4253, 4253); (4448,
    4607); (4957, 4959); (5906, 5908); (5938, 5939); (5970, 5971); (6002,
    6003); (6068, 6069); (6071, 6077); (6086, 6086); (6089, 6099); (6109,
    6109); (6155, 6159); (6277, 6278); (6313, 6313); (6432, 6434); (6439,
    6440); (6450, 6450); (6457, 6459); (6679, 6680); (6683, 6683); (6742,
    6742); (6744, 6750); (6752, 6752); (6754, 6754); (6757, 6764); (6771,
    6780); (6783, 6783); (6832, 6862); (6912, 6915); (6964, 6964); (6966,
    6970); (6972, 6972); (6978, 6978); (7019, 7027); (7040, 7041); (7074,
    7077); (7080, 7081); (7083, 7085); (7142, 7142); (7144, 7145); (7149,
    7149); (7151, 7153); (7212, 7219); (7222, 7223); (7376, 7378); (7380,
    7392); (7394, 7400); (7405, 7405); (7412, 7412); (7416, 7417); (7616,
    7679); (8203, 8207); (8234, 8238); (8288, 8292); (8294, 8303); (8400,
    8432); (11503, 11505); (11647, 11647); (11744, 11775); (12330, 12333);
    (12441, 12442); (42607, 42610); (42612, 42621); (42654, 42655); (42736,
    42737); (43010, 43010); (43014, 43014); (43019, 43019); (43045, 43046);
    (43052, 43052); (43204, 43205); (43232, 43249); (43263, 43263); (43302,
    43309); (43335, 43345); (43392, 43394); (43443, 43443); (43446, 43449);
    (43452, 43453); (43493, 43493); (43561, 43566); (43569, 43570); (43573,
    43574); (43587, 43587); (43596, 43596); (43644, 43644); (43696, 43696);
    (43698, 43700); (43703, 43704); (43710, 43711); (43713, 43713); (43756,
    43757); (43766, 43766); (44005, 44005); (44008, 44008); (44013, 44013);
    (55216, 55238); (55243, 55291); (64286, 64286); (65024, 65039); (65056,
    65071); (65279, 65279); (65529, 65531); (66045, 66045); (66272, 66272);
    (66422, 66426); (68097, 68099); (68101, 68102); (68108, 68111); (68152,
    68154); (68159, 68159); (68325, 68326); (68900, 68903); (69291, 69292);
    (69446, 69456); (69506, 69509); (69633, 69633); (69688, 69702); (69744,
    69744); (69747, 69748); (69759, 69761); (69811, 69814); (69817, 69818);
    (69826, 69826); (69888, 69890); (69927, 69931); (69933, 69940); (70003,
    70003); (70016, 70017); (70070, 70078); (70089, 70092); (70095, 70095);
    (70191, 70193); (70196, 70196); (70198, 70199); (70206, 70206); (70367,
    70367); (70371, 70378); (70400, 70401); (70459, 70460); (70464, 70464);
    (70502, 70508); (70512, 70516); (70712, 70719); (70722, 70724); (70726,
    70726); (70750, 70750); (70835, 70840); (70842, 70842); (70847, 70848);
    (70850, 70851); (71090, 71093); (71100, 71101); (71103, 71104); (71132,
    71133); (71219, 71226); (71229, 71229); (71231, 71232); (71339, 71339);
    (71341, 71341); (71344, 71349); (71351, 71351); (71453, 71455); (71458,
    71461); (71463, 71467); (71727, 71735); (71737, 71738); (71995, 71996);
    (71998, 71998); (72003, 72003); (72148, 72151); (72154, 72155); (72160,
    72160); (72193, 72202); (72243, 72248); (72251, 72254); (72263, 72263);
    (72273, 72278); (72281, 72283); (72330, 72342); (72344, 72345); (72752,
    72758); (72760, 72765); (72767, 72767); (72850, 72871); (72874, 72880);
    (72882, 72883); (72885, 72886); (73009, 73014); (73018, 73018); (73020,
    73021); (73023, 73029); (73031, 73031); (73104, 73105); (73109, 73109);
    (73111, 73111); (73459, 73460); (78896, 78904); (92912, 92916); (92976,
    92982); (94031, 94031); (94095, 94098); (94180, 94180); (113821, 113822);
    (113824, 113827); (118528, 118573); (118576, 118598); (119143, 119145);
    (119155, 119170); (119173, 119179); (119210, 119213); (119362, 119364);
    (121344, 121398); (121403, 121452); (121461, 121461); (121476, 121476);
    (121499, 121503); (121505, 121519); (122880, 122886); (122888, 122904);
    (122907, 122913); (122915, 122916); (122918, 122922); (123184, 123190);
    (123566, 123566); (123628, 123631); (125136, 125142); (125252, 125258);
    (917505, 917505); (917536, 917631); (917760, 917999) ]%N.

(** The characters that take two columns (East Asian wide and fullwidth
    characters, emoji). *)
Definition double_width : list (N * N) :=
  [ (4352, 4447); (8986, 8987); (9001, 9002); (9193, 9196); (9200, 9200);
    (9203, 9203); (9725, 9726); (9748, 9749); (9800, 9811); (9855, 9855);
    (9875, 9875); (9889, 9889); (9898, 9899); (9917, 9918); (9924, 9925);
    (9934, 9934); (9940, 9940); (9962, 9962); (9970, 9971); (9973, 9973);
    (9978, 9978); (9981, 9981); (9989, 9989); (9994, 9995); (10024, 10024);
    (10060, 10060); (10062, 10062); (10067, 10069); (10071, 10071); (10133,
    10135); (10160, 10160); (10175, 10175); (11035, 11036); (11088, 11088);
    (11093, 11093); (11904, 11929); (11931, 12019); (12032, 12245); (12272,
    12283); (12288, 12329); (12334, 12350); (12353, 12438); (12443, 12543);
    (12549, 12591); (12593, 12686); (12688, 12771); (12784, 12830); (12832,
    42124); (42128, 42182); (43360, 43388); (44032, 55203); (63744, 64109);
    (64112, 64217); (65040, 65049); (65072, 65106); (65108, 65126); (65128,
    65131); (65281, 65376); (65504, 65510); (94176, 94179); (94192, 94193);
    (94208, 100343); (100352, 101589); (101632, 101640); (110576, 110579);
    (110581, 110587); (110589, 110590); (110592, 110882); (110928, 110930);
    (110948, 110951); (110960, 111355); (126980, 126980); (127183, 127183);
    (127374, 127374); (127377, 127386); (127488, 127490); (127504, 127547);
    (127552, 127560); (127568, 127569); (127584, 127589); (127744, 127776);
    (127789, 127797); (127799, 127868); (127870, 127891); (127904, 127946);
    (127951, 127955); (127968, 127984); (127988, 127988); (127992, 128062);
    (128064, 128064); (128066, 128252); (128255, 128317); (128331, 128334);
    (128336, 128359); (128378, 128378); (128405, 128406); (128420, 128420);
    (128507, 128591); (128640, 128709); (128716, 128716); (128720, 128722);
    (128725, 128727); (128733, 128735); (128747, 128748); (128756, 128764);
    (128992, 129003); (129008, 129008); (129292, 129338); (129340, 129349);
    (129351, 129535); (129648, 129652); (129656, 129660); (129664, 129670);
    (129680, 129708); (129712, 129722); (129728, 129733); (129744, 129753);
    (129760, 129767); (129776, 129782); (131072, 173791); (173824, 177976);
    (177984, 178205); (178208, 183969); (183984, 191456); (194560, 195101);
    (196608, 201546) ]%N.

(** A window, as far as the boxes can tell: the number of its lines and
    columns, and its cursor. What is written to it is never read back. *)
Record window : Type := Win { nlines : Z; ncols : Z; cury : Z; curx : Z }.

Definition at_cursor (win : window) (y x : Z) : window :=
  Win (nlines win) (ncols win) y x.

(** [derwin(nlines, ncols, begin_y, begin_x)] for a size above zero, on a
    parent that has room for it: the cursor of the new window is at its
    origin. (A size of zero stands for the rest of the parent, and a
    size below zero or beyond the parent is refused.) *)
Definition derwin (nlines ncols : Z) : window := Win nlines ncols 0 0.

(** [win.erase()] blanks the window and homes the cursor. *)
Definition werase (win : window) : window := at_cursor win 0 0.

(** [win.move(y, x)] raises [curses.error] for a position outside the
    window. *)
Definition wmove (y x : Z) (win : window) : exn + window :=
  if (0 <=? y) && (y <? nlines win) && (0 <=? x) && (x <? ncols win)
  then inr (at_cursor win y x)
  else inl curses_error.

(** The cursor goes to the start of the next line. The windows of the
    boxes do not scroll, so on the last line the call that gets there
    fails. *)
Definition wrap_to_next_line (win : window) : exn + window :=
  if cury win + 1 <? nlines win then inr (at_cursor win (cury win + 1) 0)
  else inl curses_error.

Definition in_ranges (c : char) (ranges : list (N * N)) : bool :=
  existsb (λ r, (r.1 <=? c) && (c <=? r.2))%N ranges.

(** The columns that a character other than a control character takes,
    in a UTF-8 locale. *)
Definition columns (c : char) : Z :=
  if in_ranges c zero_width then 0
  else if in_ranges c double_width then 2
  else 1.

(** A character of [cells] columns is put at the cursor. One that does
    not fit on the rest of the line goes to the next line, and the cursor
    wraps to the next line once the last column is written: the write
    that fills the lower right corner fails. *)
Definition put (cells : Z) (win : window) : exn + window :=
  if ncols win <? cells then inl curses_error
  else
    match
      if ncols win <? curx win + cells then wrap_to_next_line win else inr win
    with
    | inl e => inl e
    | inr win =>
        if curx win + cells <? ncols win
        then inr (at_cursor win (cury win) (curx win + cells))
        else wrap_to_next_line win
    end.

(** One character of [addstr]: a tab goes to the next multiple of 8, a
    newline to the next line, a carriage return to the first column, a
    backspace one column back; another control character is written as a
    caret and a letter. *)
Definition waddch (c : char) (win : window) : exn + window :=
  if (c =? 9)%N then
    let x := curx win + (8 - curx win `mod` 8) in
    if x <? ncols win then inr (at_cursor win (cury win) x)
    else wrap_to_next_line win
  else if (c =? 10)%N then wrap_to_next_line win
  else if (c =? 13)%N then inr (at_cursor win (cury win) 0)
  else if (c =? 8)%N then inr (at_cursor win (cury win) (Z.max 0 (curx win - 1)))
  else if ((c <? 32) || (c =? 127))%N then
    match put 1 win with
    | inl e => inl e
    | inr win => put 1 win
    end
  else put (columns c) win.

Fixpoint waddchs (text : str) (win : window) : exn + window :=
  match text with
  | [] => inr win
  | c :: text =>
      match waddch c win with
      | inl e => inl e
      | inr win => waddchs text win
      end
  end.

(** An [int] that fits a C [long]: what [addstr] takes as attribute. *)
Definition fits_long (n : Z) : bool := (- 2 ^ 63 <=? n) && (n <? 2 ^ 63).

(** [win.addstr(text, attr)]: before curses sees the call, Python raises
    [OverflowError] for an attribute that does not fit a C [long] and
    [ValueError] for a text with a null character; curses raises
    [curses.error] at the first character it cannot write. *)
Definition waddstr (text : str) (attr : Z) (win : window) : exn + window :=
  if negb (fits_long attr) then inl OverflowError
  else if bool_decide (0%N ∈ text) then inl ValueError
  else waddchs text win.

(** [win.addstr(y, x, text)] *)
Definition mvwaddstr (y x : Z) (text : str) (win : window) : exn + window :=
  if bool_decide (0%N ∈ text) then inl ValueError
  else
    match wmove y x win with
    | inl e => inl e
    | inr win => waddchs text win
    end.

End curses.

(* ================================================================= *)
(** ** [class Msgbox] *)

(** An argument of [append]: a [str], a tuple of a [str] and a curses
    style attribute, or an object of another type, of which [append] only
    reads the type's name. *)
Inductive chunk : Type :=
| Str (phrase : str)
| Tuple (phrase : str) (style : Z)
| Other (type_name : string).

Module Msgbox.

(** A line of the history buffer: a list of [(phrase, style)] tuples. *)
Abbreviation line := (list (str * Z)) (only parsing).

Record t : Type := Make {
  h : Z;
  w : Z;
  page_size : Z;
  history_index : Z;
  history : deque (list (str * Z))
}.

Definition set_history (self : t) (d : deque (list (str * Z))) : t :=
  Make (h self) (w self) (page_size self) (history_index self) d.

Definition set_history_index (self : t) (i : Z) : t :=
  Make (h self) (w self) (page_size self) i (history self).

(** [__init__], on a parent window that has room for the box: [derwin]
    refuses a size below zero. *)
Definition init (h w : Z) : exn + t :=
  if (h <? 0) || (w + 1 <? 0) then inl curses_error
  else inr (Make h w (h / 3) 0 (Deque [] (Z.to_nat (h * 10)))).

(** [self.history.appendleft(line)] *)
Definition history_appendleft (l : line) (self : t) : t :=
  set_history self (appendleft l (history self)).

(** [self.history[0].append(c)]; [None] when [self.history[0]] raises
    [IndexError]. *)
Definition history0_append (c : str * Z) (self : t) : option t :=
  match items (history self) with
  | [] => None
  | l :: rest =>
      Some (set_history self (Deque ((l ++ [c]) :: rest) (maxlen (history self))))
  end.

(** One pass through the body of the [while True] loop of [append]. *)
Inductive iteration : Type :=
| Break (line_position : Z) (self : t)
| Continue (phrase : str) (self : t)   (* [line_position] is 2 again *)
| Fail (e : exn) (self : t).

Definition wrap_body (style : Z) (phrase : str) (line_position : Z) (self : t)
  : iteration :=
  let phrase := if line_position =? 2 then lstrip phrase else phrase in
  let remaining_space := w self - line_position in
  if len phrase <=? remaining_space then
    match history0_append (phrase, style) self with
    | Some self => Break (line_position + len phrase) self
    | None => Fail IndexError self
    end
  else
    let last_space := rfind space (slice_to phrase remaining_space) in
    if 0 <? last_space then
      let phrase_fragment := slice_to phrase last_space in
      match history0_append (phrase_fragment, style) self with
      | Some self' =>
          Continue (slice_from phrase last_space)
                   (history_appendleft [(py "  ", curses.A_NORMAL)] self')
      | None => Fail IndexError self
      end
    else if line_position =? 2 then
      let phrase_fragment := slice_to phrase remaining_space in
      match history0_append (phrase_fragment, style) self with
      | Some self' =>
          Continue (slice_from phrase remaining_space)
                   (history_appendleft [(py "  ", curses.A_NORMAL)] self')
      | None => Fail IndexError self
      end
    else
      Continue phrase (history_appendleft [(py "  ", curses.A_NORMAL)] self).

(** The [while True] loop; it returns the [line_position] it ends with. *)
Fixpoint wrap_loop (fuel : nat) (style : Z) (phrase : str) (line_position : Z)
  (self : t) : outcome t Z :=
  match fuel with
  | O => OutOfFuel
  | S fuel =>
      match wrap_body style phrase line_position self with
      | Break line_position self => Return line_position self
      | Continue phrase self => wrap_loop fuel style phrase 2 self
      | Fail e self => Raise e self
      end
  end.

Definition invalid_chunk_message : string :=
  "Can't append chunk of type f{type(chunk).__name__}".

(** [for chunk in chunks: ...] *)
Fixpoint append_chunks (fuel : nat) (chunks : list chunk) (line_position : Z)
  (self : t) : outcome t unit :=
  match chunks with
  | [] => Return tt self
  | chunk :: chunks =>
      match
        match chunk with
        | Str phrase => Some (phrase, curses.A_NORMAL)
        | Tuple phrase style => Some (phrase, style)
        | Other _ => None
        end
      with
      | None => Raise (Exception invalid_chunk_message) self
      | Some (phrase, style) =>
          match wrap_loop fuel style phrase line_position self with
          | Return line_position self =>
              append_chunks fuel chunks line_position self
          | Raise e self => Raise e self
          | OutOfFuel => OutOfFuel
          | Blocked => Blocked
          end
      end
  end.

(** [append(self, *chunks, sigil)] *)
Definition append (fuel : nat) (chunks : list chunk) (sigil : str) (self : t)
  : outcome t unit :=
  let self := history_appendleft [(sigil ++ py " ", curses.A_NORMAL)] self in
  append_chunks fuel chunks 2 self.

(** The window of the box: [derwin(self.h, self.w+1, y, x)]. *)
Definition box (self : t) : curses.window := curses.derwin (h self) (w self + 1).

(** The [for (phrase, chunk_style) in line] loop of [draw], with the
    cursor of [box] where the line begins: the curses calls issued, the
    value of [stale] afterwards and the window afterwards, or the
    exception of [phrase[0]] or of the [addstr] that fails. *)
Fixpoint draw_line (history_index : Z) (line_style : Z) (l : line)
  (stale : bool) (box : curses.window)
  : exn + (list curses.op * bool * curses.window) :=
  match l with
  | [] => inr ([], stale, box)
  | (phrase, chunk_style) :: rest =>
      match
        if history_index =? 0 then
          match phrase with
          | [] => inl IndexError                      (* [phrase[0]] *)
          | c :: _ => inr (if (c =? sigil_command)%N then true else stale)
          end
        else inr stale
      with
      | inl e => inl e
      | inr stale =>
          match curses.waddstr phrase (Z.lor chunk_style line_style) box with
          | inl e => inl e
          | inr box =>
              match draw_line history_index line_style rest stale box with
              | inl e => inl e
              | inr (ops, stale, box) =>
                  inr (curses.addstr phrase (Z.lor chunk_style line_style) :: ops,
                       stale, box)
              end
          end
      end
  end.

(** The [for i in range(0, lines_to_print)] loop of [draw]. *)
Fixpoint draw_rows (self : t) (compensate_paging : Z) (rows : list Z)
  (stale : bool) (line_style : Z) (box : curses.window)
  : exn + (list curses.op * curses.window) :=
  match rows with
  | [] => inr ([], box)
  | i :: rows =>
      let line_style := if stale then curses.A_DIM else line_style in
      match curses.wmove (h self - 1 - compensate_paging - i) 0 box with
      | inl e => inl e
      | inr box =>
          match deque_index (history self) (i + history_index self) with
          | None => inl IndexError
          | Some l =>
              match draw_line (history_index self) line_style l stale box with
              | inl e => inl e
              | inr (ops, stale, box) =>
                  match
                    draw_rows self compensate_paging rows stale line_style box
                  with
                  | inl e => inl e
                  | inr (ops', box) =>
                      inr (curses.move (h self - 1 - compensate_paging - i) 0
                             :: ops ++ ops', box)
                  end
              end
          end
      end
  end.

(** The curses calls of [draw], or the exception it raises. *)
Definition draw_ops (self : t) : exn + list curses.op :=
  let box := curses.werase (box self) in
  let paging := negb (history_index self =? 0) in
  let compensate_paging := if paging then 1 else 0 in
  match
    if paging
    then curses.mvwaddstr (h self - 1) (w self / 2) [ellipsis] box
    else inr box
  with
  | inl e => inl e
  | inr box =>
      let lines_to_print :=
        Z.min (h self - compensate_paging)
              (len (items (history self)) - history_index self) in
      match
        draw_rows self compensate_paging (seqZ 0 lines_to_print) false
          curses.A_NORMAL box
      with
      | inl e => inl e
      | inr (ops, _) =>
          inr ([curses.curs_set 0; curses.erase]
                 ++ (if paging
                     then [curses.addstr_at (h self - 1) (w self / 2) [ellipsis]]
                     else [])
                 ++ ops ++ [curses.refresh])
      end
  end.

(** [draw(self)] *)
Definition draw (self : t) : outcome t (list curses.op) :=
  match draw_ops self with
  | inl e => Raise e self
  | inr ops => Return ops self
  end.

(** [page_up(self)] *)
Definition page_up (self : t) : outcome t unit :=
  if page_size self <? len (items (history self)) - history_index self then
    let self := set_history_index self (history_index self + page_size self) in
    match draw self with
    | Return _ self => Return tt self
    | Raise e self => Raise e self
    | OutOfFuel => OutOfFuel
    | Blocked => Blocked
    end
  else Return tt self.

(** [page_down(self)] *)
Definition page_down (self : t) : outcome t unit :=
  if page_size self <=? history_index self then
    let self := set_history_index self (history_index self - page_size self) in
    match draw self with
    | Return _ self => Return tt self
    | Raise e self => Raise e self
    | OutOfFuel => OutOfFuel
    | Blocked => Blocked
    end
  else Return tt self.

End Msgbox.

(* ================================================================= *)
(** ** [class Cmdbox] *)

Module Cmdbox.

(** A function registered for a key. The source passes it the window;
    here it acts on the window's message box, as [w.say(...)] does. Its
    first argument is the fuel of the loops it runs. *)
Abbreviation callback := (nat → Msgbox.t → outcome Msgbox.t unit) (only parsing).

Record t : Type := Make {
  h : Z;
  w : Z;
  chars : list char;
  custom_commands : gmap Z (nat → Msgbox.t → outcome Msgbox.t unit);
  history : deque (list char)
}.

(** [__init__], on a parent window that has room for the box: [derwin]
    refuses a size below zero; the history is a [deque(maxlen=10)]. *)
Definition init (h w : Z) : exn + t :=
  if (h <? 0) || (w <? 0) then inl curses_error
  else inr (Make h w [] ∅ (Deque [] 10)).

Definition set_chars (self : t) (cs : list char) : t :=
  Make (h self) (w self) cs (custom_commands self) (history self).

Definition set_history (self : t) (d : deque (list char)) : t :=
  Make (h self) (w self) (chars self) (custom_commands self) d.


(** The window of the box: [derwin(self.h, self.w, y, x)]. *)
Definition box (self : t) : curses.window := curses.derwin (h self) (w self).

(** [draw(self)]: the curses calls it issues, or the exception of the
    [addstr] that fails. *)
Definition draw (self : t) : outcome t (list curses.op) :=
  if len (chars self) <? w self then
    match curses.mvwaddstr 0 0 (chars self) (curses.werase (box self)) with
    | inl e => Raise e self
    | inr _ => Return [curses.erase; curses.addstr_at 0 0 (chars self)] self
    end
  else
    let partial := slice_from (chars self) (- (w self - 2)) in
    match curses.mvwaddstr 0 0 (ellipsis :: partial) (box self) with
    | inl e => Raise e self
    | inr _ => Return [curses.addstr_at 0 0 (ellipsis :: partial)] self
    end.

(** [curses.has_key] and [curses.keyname(key).decode()]. *)
Record terminal : Type := Terminal {
  has_key : Z → bool;
  keyname : Z → str
}.

(** The window that owns the boxes ([self.parent]). *)
Record window : Type := Window {
  debug_mode : bool;
  term : terminal;
  msgbox : Msgbox.t;
  cmdbox : t
}.

Definition set_msgbox (win : window) (m : Msgbox.t) : window :=
  Window (debug_mode win) (term win) m (cmdbox win).

Definition set_cmdbox (win : window) (c : t) : window :=
  Window (debug_mode win) (term win) (msgbox win) c.

(** A call on [self.parent.msgbox], followed by [k]. *)
Definition with_msgbox {A B} (win : window) (r : outcome Msgbox.t A)
  (k : A → window → outcome window B) : outcome window B :=
  match r with
  | Return a m => k a (set_msgbox win m)
  | Raise e m => Raise e (set_msgbox win m)
  | OutOfFuel => OutOfFuel
  | Blocked => Blocked
  end.

(** [msgbox.append(chunk, sigil=...)] then [msgbox.draw()]. *)
Definition append_and_draw (fuel : nat) (c : chunk) (sigil : char)
  (win : window) : outcome window unit :=
  with_msgbox win (Msgbox.append fuel [c] [sigil] (msgbox win)) (λ _ win,
  with_msgbox win (Msgbox.draw (msgbox win)) (λ _ win, Return tt win)).

(** [self.draw()] in a method of the command box, followed by [k]. *)
Definition with_draw {B} (win : window) (k : window → outcome window B)
  : outcome window B :=
  match draw (cmdbox win) with
  | Return _ _ => k win
  | Raise e _ => Raise e win
  | OutOfFuel => OutOfFuel
  | Blocked => Blocked
  end.

(** The text of the notice for an unhandled key. *)
Definition unhandled_key_message (tm : terminal) (key : Z) : str :=
  let name :=
    if has_key tm key then py " (" ++ keyname tm key ++ py ")" else [] in
  py "unhandled key: " ++ str_of_int key ++ name.

(** The [while True] loop of [get]: [keys] are the values [getch] will
    return, in order; the loop returns the keys it has not read, and is
    [Blocked] when [getch] has no key left to return. The calls that place
    and show the cursor before each [getch] do not fail and do not show
    here. *)
Fixpoint key_loop (fuel : nat) (keys : list Z) (history_index : Z)
  (win : window) : outcome window (list Z) :=
  match keys with
  | [] => Blocked
  | key :: keys =>
      let self := cmdbox win in
      if (32 <=? key) && (key <=? 126) then
        let chars := chars self ++ [Z.to_N key] in
        with_draw (set_cmdbox win (set_chars self chars)) (λ win,
          key_loop fuel keys history_index win)
      else if (key =? 127) || (key =? curses.KEY_BACKSPACE) then
        if negb (len (chars self) =? 0) then
          with_draw (set_cmdbox win (set_chars self (removelast (chars self))))
            (λ win, key_loop fuel keys history_index win)
        else key_loop fuel keys history_index win
      else if key =? curses.KEY_UP then
        if history_index <? len (items (history self)) - 1 then
          let history_index := history_index + 1 in
          match deque_index (history self) history_index with
          | Some cs =>
              with_draw (set_cmdbox win (set_chars self cs)) (λ win,
                key_loop fuel keys history_index win)
          | None => Raise IndexError win
          end
        else key_loop fuel keys history_index win
      else if key =? curses.KEY_DOWN then
        if 0 <? history_index then
          let history_index := history_index - 1 in
          match deque_index (history self) history_index with
          | Some cs =>
              with_draw (set_cmdbox win (set_chars self cs)) (λ win,
                key_loop fuel keys history_index win)
          | None => Raise IndexError win
          end
        else key_loop fuel keys history_index win
      else if key =? curses.KEY_PPAGE then
        with_msgbox win (Msgbox.page_up (msgbox win)) (λ _ win,
          key_loop fuel keys history_index win)
      else if key =? curses.KEY_NPAGE then
        with_msgbox win (Msgbox.page_down (msgbox win)) (λ _ win,
          key_loop fuel keys history_index win)
      else if key =? 13 then
        Return keys win
      else if key =? 4 then
        (* the interactive console of the debug mode leaves the boxes alone *)
        key_loop fuel keys history_index win
      else
        match custom_commands self !! key with
        | Some func =>
            with_msgbox win (func fuel (msgbox win)) (λ _ win,
              key_loop fuel keys history_index win)
        | None =>
            if debug_mode win then
              match
                append_and_draw fuel
                  (Str (unhandled_key_message (term win) key)) sigil_error win
              with
              | Return _ win => key_loop fuel keys history_index win
              | Raise e win => Raise e win
              | OutOfFuel => OutOfFuel
              | Blocked => Blocked
              end
            else key_loop fuel keys history_index win
        end
  end.

(** The part of [get] after the loop: echo the command, remember it,
    clear the edit buffer and redraw the command box. ([self.box.erase()]
    does not fail.) *)
Definition submit (fuel : nat) (win : window) : outcome window str :=
  let self := cmdbox win in
  let command := lstrip (chars self) in
  match
    if bool_decide (command = []) then Return tt win
    else
      with_msgbox win
        (Msgbox.append fuel [Tuple command curses.A_BOLD] [sigil_command]
           (msgbox win))
        (λ _ win,
          match items (history self) with
          | [] =>
              Return tt
                (set_cmdbox win (set_history self (appendleft (chars self) (history self))))
          | front :: _ =>
              if bool_decide (chars self = front) then Return tt win
              else
                Return tt
                  (set_cmdbox win (set_history self (appendleft (chars self) (history self))))
          end)
  with
  | Return _ win =>
      with_draw (set_cmdbox win (set_chars (cmdbox win) [])) (λ win,
        Return command win)
  | Raise e win => Raise e win
  | OutOfFuel => OutOfFuel
  | Blocked => Blocked
  end.

(** [get(self, prompt=None)]; it returns the command and the keys left
    unread. *)
Definition get (fuel : nat) (prompt : option chunk) (keys : list Z)
  (win : window) : outcome window (str * list Z) :=
  match
    match prompt with
    | Some p => append_and_draw fuel p sigil_prompt win
    | None => Return tt win
    end
  with
  | Return _ win =>
      let win := set_cmdbox win (set_chars (cmdbox win) []) in
      match key_loop fuel keys (-1) win with
      | Return keys win =>
          match submit fuel win with
          | Return command win => Return (command, keys) win
          | Raise e win => Raise e win
          | OutOfFuel => OutOfFuel
          | Blocked => Blocked
          end
      | Raise e win => Raise e win
      | OutOfFuel => OutOfFuel
      | Blocked => Blocked
      end
  | Raise e win => Raise e win
  | OutOfFuel => OutOfFuel
  | Blocked => Blocked
  end.

End Cmdbox.

(* ================================================================= *)
(** ** [class Window]: the two convenience methods *)

Module Window.

(** [say(self, message)] *)
Definition say (fuel : nat) (message : chunk) (win : Cmdbox.window)
  : outcome Cmdbox.window unit :=
  Cmdbox.append_and_draw fuel message sigil_plain win.

(** [prompt(self, prompt)] *)
Definition prompt (fuel : nat) (prompt : chunk) (keys : list Z)
  (win : Cmdbox.window) : outcome Cmdbox.window (str * list Z) :=
  Cmdbox.get fuel (Some prompt) keys win.

End Window.

(* ================================================================= *)
(** ** Notions the statements use *)

(** The number of characters of a line, its sigil or indent included. *)
Definition line_width (l : list (list N * Z)) : Z := len (concat (fst <$> l)).

Definition fits (width : Z) (l : list (list N * Z)) : Prop := line_width l <= width.

(** The text of a chunk that [append] accepts. *)
Definition chunk_text (c : chunk) : str :=
  match c with
  | Str phrase | Tuple phrase _ => phrase
  | Other _ => []
  end.

(** A chunk is valid when it is a [str] or a [(str, style)] tuple. *)
Definition valid_chunk (c : chunk) : Prop :=
  match c with
  | Other _ => False
  | _ => True
  end.

(** Iterations that are enough for each wrap loop of one [append]. *)
Definition enough_fuel (chunks : list chunk) : nat :=
  2 + 2 * length (concat (chunk_text <$> chunks)).

(** What one iteration of the wrap loop achieves, in the words of the
    termination argument: it ends the loop, or it strictly shortens the
    phrase, or it leaves the phrase as it is and starts a fresh line, and
    the iteration that follows at [line_position] 2 ends the loop or
    strictly shortens the phrase. *)
Definition iteration_progress (style : Z) (phrase : str) (line_position : Z)
  (self : Msgbox.t) : Prop :=
  match Msgbox.wrap_body style phrase line_position self with
  | Msgbox.Break _ _ | Msgbox.Fail _ _ => True
  | Msgbox.Continue phrase' self' =>
      (length phrase' < length phrase)%nat
      ∨ (line_position ≠ 2 ∧ phrase' = phrase
         ∧ match Msgbox.wrap_body style phrase' 2 self' with
           | Msgbox.Break _ _ | Msgbox.Fail _ _ => True
           | Msgbox.Continue phrase'' _ => (length phrase'' < length phrase')%nat
           end)
  end.

(** The long word of the wrapping example, and the lines it is laid out
    on at width 10, most recent first. *)
Definition long_word : str := py "supercalifragilisticexpialidocious".

Definition long_word_lines : list (list (str * Z)) :=
  [ [(py "  ", curses.A_NORMAL); (py "us", curses.A_NORMAL)];
    [(py "  ", curses.A_NORMAL); (py "alidocio", curses.A_NORMAL)];
    [(py "  ", curses.A_NORMAL); (py "sticexpi", curses.A_NORMAL)];
    [(py "  ", curses.A_NORMAL); (py "ifragili", curses.A_NORMAL)];
    [([sigil_plain; space], curses.A_NORMAL); (py "supercal", curses.A_NORMAL)] ].

(** The text each line carries after its sigil or indent chunk, oldest
    line first. *)
Definition fragments (ls : list (list (str * Z))) : list str :=
  (λ l, concat (fst <$> tail l)) <$> reverse ls.

(** The lines one [append] lays out, most recent first: the call is run on
    an empty ring of the same width that has room for every line the call
    can push (one for the sigil, and at most one per loop iteration). *)
Definition layout (fuel : nat) (width : Z) (chunks : list chunk) (sigil : str)
  : outcome Msgbox.t unit :=
  Msgbox.append fuel chunks sigil
    (Msgbox.Make 0 width 0 0 (Deque [] (1 + fuel * length chunks))).

(** [self] with the lines [ls] pushed on its ring. *)
Definition pushed (ls : list (list (str * Z))) (self : Msgbox.t) : Msgbox.t :=
  Msgbox.set_history self
    (Deque (take (maxlen (Msgbox.history self)) (ls ++ items (Msgbox.history self)))
           (maxlen (Msgbox.history self))).

(** A run that no amount of fuel brings to an end. *)
Definition diverges {S A} (run : nat → outcome S A) : Prop :=
  ∀ fuel, run fuel = OutOfFuel.

(** What the wrap loop keeps true: every line of the ring fits, and the
    front line is no wider than [line_position] says. *)
Definition wrap_inv (line_position : Z) (self : Msgbox.t) : Prop :=
  2 <= line_position <= Msgbox.w self
  ∧ Forall (fits (Msgbox.w self)) (items (Msgbox.history self))
  ∧ match items (Msgbox.history self) with
    | [] => True
    | l :: _ => line_width l <= line_position
    end.

(** The loop's measure: twice the length of the phrase, and one more when
    the line is not fresh. *)
Definition wrap_measure (phrase : list N) (line_position : Z) : nat :=
  2 * length phrase + (if line_position =? 2 then 0 else 1).

(** With room for at least one line, the ring is never empty inside
    [append], so [self.history[0]] never raises. *)
Definition ready (self : Msgbox.t) : Prop :=
  (1 <= maxlen (Msgbox.history self))%nat ∧ items (Msgbox.history self) ≠ [].

(** [append] touches the ring only. *)
Definition same_box (a b : Msgbox.t) : Prop :=
  Msgbox.h b = Msgbox.h a ∧ Msgbox.w b = Msgbox.w a
  ∧ Msgbox.page_size b = Msgbox.page_size a
  ∧ Msgbox.history_index b = Msgbox.history_index a
  ∧ maxlen (Msgbox.history b) = maxlen (Msgbox.history a).

(** The ring [small] holds what fits of the lines of [big] followed by
    [older]; [big] is a ring that the same calls run on without ever
    discarding a line. *)
Definition ring_of (older : list (list (list N * Z))) (big small : Msgbox.t) : Prop :=
  Msgbox.w big = Msgbox.w small
  ∧ items (Msgbox.history big) ≠ []
  ∧ (1 <= maxlen (Msgbox.history small))%nat
  ∧ items (Msgbox.history small)
    = take (maxlen (Msgbox.history small)) (items (Msgbox.history big) ++ older).

(** The curses calls that draw the chunks of a line under [line_style]. *)
Definition render (line_style : Z) (l : list (str * Z)) : list curses.op :=
  (λ c, curses.addstr c.1 (Z.lor c.2 line_style)) <$> l.

(** [phrase[0] == "❱"], for a phrase that is not empty. *)
Definition begins_with_command (phrase : str) : bool :=
  match phrase with
  | c :: _ => (c =? sigil_command)%N
  | [] => false
  end.

(** Some chunk of the line begins with the command sigil: what [draw]
    tests to tell the most recent command. *)
Definition marks_command (l : list (str * Z)) : bool :=
  existsb (λ c, begins_with_command c.1) l.

(** The leading glyph of a line: the first character of its first chunk. *)
Definition leading_glyph (l : list (str * Z)) : option char :=
  match l with
  | (c :: _, _) :: _ => Some c
  | _ => None
  end.

(** No chunk of the line has an empty text. *)
Definition nonempty_chunks (l : list (str * Z)) : Prop :=
  Forall (λ c, c.1 ≠ []) l.

(** A scrollback of five lines, most recent first: two plain lines, a
    command line, two plain lines. The first plain line says "❱x". *)
Definition quoting_scrollback : list (list (str * Z)) :=
  [ [([sigil_plain; space], curses.A_NORMAL); ([sigil_command; 120%N], curses.A_NORMAL)];
    [([sigil_plain; space], curses.A_NORMAL); (py "b", curses.A_NORMAL)];
    [([sigil_command; space], curses.A_NORMAL); (py "go", curses.A_BOLD)];
    [([sigil_plain; space], curses.A_NORMAL); (py "c", curses.A_NORMAL)];
    [([sigil_plain; space], curses.A_NORMAL); (py "d", curses.A_NORMAL)] ].

(** The message box after a call, whether it returned or raised. *)
Definition after {S A} (r : outcome S A) : option S :=
  match r with
  | Return _ s | Raise _ s => Some s
  | OutOfFuel | Blocked => None
  end.

(** The calls a client makes on a message box. *)
Inductive call : Type :=
| call_page_up
| call_page_down
| call_append (chunks : list chunk) (sigil : str).

Definition run_call (fuel : nat) (c : call) (self : Msgbox.t) : outcome Msgbox.t unit :=
  match c with
  | call_page_up => Msgbox.page_up self
  | call_page_down => Msgbox.page_down self
  | call_append chunks sigil => Msgbox.append fuel chunks sigil self
  end.

(** The message boxes that a sequence of calls leads to from [start];
    a call that raises leaves a message box too. *)
Inductive reachable (start : Msgbox.t) : Msgbox.t → Prop :=
| reachable_start : reachable start start
| reachable_call fuel c self self' :
    reachable start self →
    after (run_call fuel c self) = Some self' →
    reachable start self'.

(** What holds of every message box that [__init__] and the calls lead
    to: the page size is not negative, the ring respects its bound, and
    the paging offset lies within the ring. *)
Definition paging_inv (self : Msgbox.t) : Prop :=
  0 <= Msgbox.page_size self
  ∧ (length (items (Msgbox.history self)) <= maxlen (Msgbox.history self))%nat
  ∧ 0 <= Msgbox.history_index self <= len (items (Msgbox.history self)).

(** A character the command box accepts as text: printable ASCII. *)
Definition printable (c : char) : Prop := (32 <= c <= 126)%N.

(** The keys that type [text], and the enter key. *)
Definition typed (text : str) : list Z := Z.of_N <$> text.

Definition enter : Z := 13.

(** The front line of the scrollback is a command-sigil line that holds
    the chunk [text] in bold. *)
Definition front_is_command_line (text : str) (m : Msgbox.t) : Prop :=
  ∃ rest,
    head (items (Msgbox.history m))
    = Some (([sigil_command; space], curses.A_NORMAL) :: rest)
    ∧ (text, curses.A_BOLD) ∈ rest.

(** The submission round trip of the keys g, o, enter on [win], with a
    prompt or without one. *)
Definition go_roundtrip (win : Cmdbox.window) : Prop :=
  ∃ fuel prompt win',
    Cmdbox.get fuel prompt [103; 111; enter] win = Return (py "go", []) win'
    ∧ front_is_command_line (py "go") (Cmdbox.msgbox win').

(** A terminal that knows no key names. *)
Definition plain_terminal : Cmdbox.terminal :=
  Cmdbox.Terminal (λ _, false) (λ _, []).

(** The boxes of [Window(height, width)] on a terminal that is large
    enough: [Msgbox(self, h-4, w-2, 1, 0)] and [Cmdbox(self, 1, w-4, h-2, 2)]. *)
Definition boxes (height width : Z) : exn + Cmdbox.window :=
  match Msgbox.init (height - 4) (width - 2) with
  | inl e => inl e
  | inr m =>
      match Cmdbox.init 1 (width - 4) with
      | inl e => inl e
      | inr c => inr (Cmdbox.Window false plain_terminal m c)
      end
  end.

(** The boxes of [Window(height=24, width=80)] and of
    [Window(height=5, width=5)]. *)
Definition usual_window : Cmdbox.window :=
  Cmdbox.Window false plain_terminal
    (Msgbox.Make 20 78 6 0 (Deque [] 200)) (Cmdbox.Make 1 76 [] ∅ (Deque [] 10)).

Definition narrow_window : Cmdbox.window :=
  Cmdbox.Window false plain_terminal
    (Msgbox.Make 1 3 0 0 (Deque [] 10)) (Cmdbox.Make 1 1 [] ∅ (Deque [] 10)).

(** The size of the ring never shrinks and never passes its bound. *)
Definition grows (a b : Msgbox.t) : Prop :=
  same_box a b
  ∧ (length (items (Msgbox.history a)) <= length (items (Msgbox.history b))
     <= maxlen (Msgbox.history a))%nat.

(** The command history after the submission of [buffer]. *)
Definition remembered (buffer : list N) (d : deque (list N)) : deque (list N) :=
  if decide (head (items d) = Some buffer) then d else appendleft buffer d.


(** A character that [addstr] writes in one column: not a control
    character, and of width one. *)
Definition one_column (c : char) : bool :=
  (32 <=? c)%N && negb (c =? 127)%N && (curses.columns c =? 1).

(** A text of one-column characters: written on a line that has room for
    it, it moves the cursor right by its length. It holds no newline, no
    tab, no wide character. *)
Definition flat (s : str) : Prop := Forall (λ c, one_column c = true) s.

(** A line that [draw] can write on a row of a box [width] wide: it
    fits the width, the texts of its chunks are flat and their styles fit
    a C [long]. *)
Definition writable (width : Z) (l : list (str * Z)) : Prop :=
  fits width l ∧ Forall (λ c, flat c.1 ∧ curses.fits_long c.2 = true) l.

(** The value of [stale] after a line is drawn. *)
Definition stale_after (history_index : Z) (l : list (str * Z)) (stale : bool)
  : bool :=
  if history_index =? 0 then stale || marks_command l else stale.

(** [win] with the edit buffer of its command box set to [cs]. *)
Definition editing (win : Cmdbox.window) (cs : list N) : Cmdbox.window :=
  Cmdbox.set_cmdbox win (Cmdbox.set_chars (Cmdbox.cmdbox win) cs).

(** A command box that has room for what [draw] writes: a line or more,
    and three columns or more (one for the mark of a long buffer, one for
    a character, one for the cursor). *)
Definition roomy (self : Cmdbox.t) : Prop := 1 <= Cmdbox.h self ∧ 3 <= Cmdbox.w self.

(** The box that [draw] writes to: the window of the message box, with
    the cursor anywhere. *)
Definition box_of (self : Msgbox.t) (box : curses.window) : Prop :=
  curses.nlines box = Msgbox.h self ∧ curses.ncols box = Msgbox.w self + 1.

(** The part of [get] before the key loop: the prompt, when there is one,
    is appended to the message box and the message box is drawn. *)
Definition show_prompt (fuel : nat) (prompt : option chunk)
  (win : Cmdbox.window) : outcome Cmdbox.window unit :=
  match prompt with
  | Some p => Cmdbox.append_and_draw fuel p sigil_prompt win
  | None => Return tt win
  end.

(** The text without its whitespace characters. *)
Fixpoint without_space (s : list N) : list N :=
  match s with
  | [] => []
  | c :: t => if isspace c then without_space t else c :: without_space t
  end.

(** The text a message box shows after the sigils and indents of its
    lines, oldest line first. *)
Definition laid_text (self : Msgbox.t) : list N :=
  concat (fragments (items (Msgbox.history self))).

(** Every line of the ring begins with the chunk [append] creates it
    with. *)
Definition headed (self : Msgbox.t) : Prop :=
  Forall (λ l, l ≠ []) (items (Msgbox.history self)).

(** [n] presses of [key]. *)
Definition presses (n : nat) (key : Z) : list Z := replicate n key.

(** The two values of the backspace key. *)
Definition backspace (key : Z) : Prop := key = 127 ∨ key = curses.KEY_BACKSPACE.

(** The keys that a case of the [match] of [get] takes before the case of
    the registered keys. *)
Definition built_in (key : Z) : bool :=
  (32 <=? key) && (key <=? 126)
  || (key =? 127) || (key =? curses.KEY_BACKSPACE)
  || (key =? curses.KEY_UP) || (key =? curses.KEY_DOWN)
  || (key =? curses.KEY_PPAGE) || (key =? curses.KEY_NPAGE)
  || (key =? 13) || (key =? 4).

(** A key that does nothing outside the debug mode: Ctrl+D, or a key that
    is neither built in nor registered. *)
Definition ignored (win : Cmdbox.window) (key : Z) : Prop :=
  key = 4
  ∨ (built_in key = false
     ∧ Cmdbox.custom_commands (Cmdbox.cmdbox win) !! key = None).

(** What the key loop leaves alone in the command box and the window:
    the command history, the registered functions, the dimensions, the
    debug mode and the terminal. *)
Definition same_setup (a b : Cmdbox.window) : Prop :=
  Cmdbox.history (Cmdbox.cmdbox b) = Cmdbox.history (Cmdbox.cmdbox a)
  ∧ Cmdbox.custom_commands (Cmdbox.cmdbox b) = Cmdbox.custom_commands (Cmdbox.cmdbox a)
  ∧ Cmdbox.h (Cmdbox.cmdbox b) = Cmdbox.h (Cmdbox.cmdbox a)
  ∧ Cmdbox.w (Cmdbox.cmdbox b) = Cmdbox.w (Cmdbox.cmdbox a)
  ∧ Cmdbox.debug_mode b = Cmdbox.debug_mode a
  ∧ Cmdbox.term b = Cmdbox.term a.

(** The entry that [ups] presses of the up key followed by [downs]
    presses of the down key recall from a command history of [size]
    entries: its index from the front. *)
Definition recalled_index (size : Z) (ups downs : nat) : Z :=
  Z.max 0 (Z.min (Z.of_nat ups) size - 1 - Z.of_nat downs).

(** A window whose command history holds three commands, most recent
    first. *)
Definition seasoned_window : Cmdbox.window :=
  Cmdbox.Window false plain_terminal
    (Msgbox.Make 20 78 6 0 (Deque [] 200))
    (Cmdbox.Make 1 76 [] ∅ (Deque [py "north"; py "look"; py "take lamp"] 10)).

(** The cursor moves among the curses calls, in order: [(y, x)] for each
    [move(y, x)]. *)
Definition moves (ops : list curses.op) : list (Z * Z) :=
  omap (λ op, match op with curses.move y x => Some (y, x) | _ => None end) ops.

(** The number of lines [draw] prints: one fewer than the height while
    the paging indicator is shown, and no more than the lines from the
    paging offset on. *)
Definition lines_to_print (self : Msgbox.t) : Z :=
  Z.min (Msgbox.h self - (if Msgbox.history_index self =? 0 then 0 else 1))
        (len (items (Msgbox.history self)) - Msgbox.history_index self).

(* ================================================================= *)
(** * Properties *)

(** ** Strings and slices *)

Lemma len_nonneg {A} (l : list A) : 0 <= len l.
Proof. unfold len. lia. Qed.

Lemma len_app {A} (l k : list A) : len (l ++ k) = len l + len k.
Proof. unfold len. rewrite length_app. lia. Qed.

Lemma len_nil_iff {A} (l : list A) : len l = 0 ↔ l = [].
Proof. unfold len. destruct l; simpl; split; intros; (congruence || lia). Qed.

Lemma lstrip_length (s : list N) : (length (lstrip s) <= length s)%nat.
Proof.
  induction s as [|c t IH]; simpl; [lia|].
  destruct (isspace c); simpl; lia.
Qed.

Lemma lstrip_len (s : list N) : len (lstrip s) <= len s.
Proof. unfold len. pose proof (lstrip_length s). lia. Qed.

Lemma lstrip_idemp (s : list N) : lstrip (lstrip s) = lstrip s.
Proof.
  induction s as [|c t IH]; simpl; [done|].
  destruct (isspace c) eqn:E; [done|]. simpl. by rewrite E.
Qed.

Lemma rfind_range c (s : list N) : -1 <= rfind c s < len s.
Proof.
  induction s as [|x t IH]; simpl; unfold len in *; simpl; [lia|].
  destruct (0 <=? rfind c t) eqn:E; [lia|].
  destruct (x =? c)%N; lia.
Qed.

Lemma slice_to_len {A} (s : list A) (n : Z) :
  0 <= n → len (slice_to s n) = Z.min n (len s).
Proof.
  intros Hn. unfold slice_to, len.
  destruct (n <? 0) eqn:E; [lia|]. rewrite length_take. lia.
Qed.

Lemma slice_to_len_le {A} (s : list A) (n : Z) : len (slice_to s n) <= len s.
Proof. unfold slice_to, len. rewrite length_take. lia. Qed.

Lemma slice_from_len {A} (s : list A) (n : Z) :
  0 <= n → len (slice_from s n) = Z.max 0 (len s - n).
Proof.
  intros Hn. unfold slice_from, len.
  destruct (n <? 0) eqn:E; [lia|]. rewrite length_drop. lia.
Qed.

(** ** The width of the lines that [append] lays out *)


Lemma line_width_snoc l c : line_width (l ++ [c]) = line_width l + len c.1.
Proof.
  unfold line_width. rewrite fmap_app, concat_app, len_app. simpl.
  by rewrite app_nil_r.
Qed.

Lemma history0_append_inv c line_position self self' :
  wrap_inv line_position self →
  line_position + len c.1 <= Msgbox.w self →
  Msgbox.history0_append c self = Some self' →
  wrap_inv (line_position + len c.1) self' ∧ Msgbox.w self' = Msgbox.w self.
Proof.
  intros (Hlp & Hall & Hfront) Hle. unfold Msgbox.history0_append.
  destruct (items (Msgbox.history self)) as [|l rest] eqn:E; [done|].
  intros [= <-]. split; [|done]. unfold wrap_inv; simpl.
  pose proof (len_nonneg c.1). apply Forall_cons in Hall as [Hl Hrest].
  repeat split; try lia.
  - apply Forall_cons. split; [|done]. unfold fits. rewrite line_width_snoc. lia.
  - rewrite line_width_snoc. lia.
Qed.

Lemma new_line_inv line_position self :
  wrap_inv line_position self →
  wrap_inv 2 (Msgbox.history_appendleft [(py "  ", curses.A_NORMAL)] self).
Proof.
  intros (Hlp & Hall & _). unfold wrap_inv; simpl. repeat split; try lia.
  - apply Forall_take. apply Forall_cons. split; [|done].
    unfold fits, line_width; simpl. unfold len; simpl. lia.
  - destruct (maxlen (Msgbox.history self)); simpl; [done|].
    unfold line_width, len; simpl. lia.
Qed.

Lemma wrap_body_inv style phrase line_position self :
  wrap_inv line_position self →
  match Msgbox.wrap_body style phrase line_position self with
  | Msgbox.Break line_position' self' =>
      wrap_inv line_position' self' ∧ Msgbox.w self' = Msgbox.w self
  | Msgbox.Continue _ self' => wrap_inv 2 self' ∧ Msgbox.w self' = Msgbox.w self
  | Msgbox.Fail _ self' => self' = self
  end.
Proof.
  intros Hinv. pose proof Hinv as (Hlp & _ & _). unfold Msgbox.wrap_body.
  set (p := if line_position =? 2 then lstrip phrase else phrase).
  destruct (len p <=? Msgbox.w self - line_position) eqn:Hfit.
  { destruct (Msgbox.history0_append (p, style) self) as [self'|] eqn:E; [|done].
    eapply (history0_append_inv (p, style)) in E; [done..|simpl; lia]. }
  set (last_space := rfind space (slice_to p (Msgbox.w self - line_position))).
  assert (last_space < Msgbox.w self - line_position) as Hls.
  { pose proof (rfind_range space (slice_to p (Msgbox.w self - line_position))) as Hr.
    rewrite slice_to_len in Hr by lia. fold last_space in Hr. lia. }
  destruct (0 <? last_space) eqn:Hsp.
  { destruct (Msgbox.history0_append _ self) as [self'|] eqn:E; [|done].
    eapply (history0_append_inv (_, style) line_position) in E as [E1 E2];
      [|done|simpl; rewrite slice_to_len by lia; lia].
    split; [by eapply new_line_inv|done]. }
  destruct (line_position =? 2) eqn:Hlp2.
  { destruct (Msgbox.history0_append _ self) as [self'|] eqn:E; [|done].
    eapply (history0_append_inv (_, style) line_position) in E as [E1 E2];
      [|done|simpl; rewrite slice_to_len by lia; lia].
    split; [by eapply new_line_inv|done]. }
  split; [by eapply new_line_inv|done].
Qed.

Lemma wrap_loop_inv fuel style phrase line_position self :
  wrap_inv line_position self →
  match Msgbox.wrap_loop fuel style phrase line_position self with
  | Return line_position' self' =>
      wrap_inv line_position' self' ∧ Msgbox.w self' = Msgbox.w self
  | Raise _ self' =>
      Forall (fits (Msgbox.w self)) (items (Msgbox.history self'))
  | _ => True
  end.
Proof.
  revert phrase line_position self.
  induction fuel as [|fuel IH]; intros phrase line_position self Hinv; simpl; [done|].
  pose proof (wrap_body_inv style phrase line_position self Hinv) as Hb.
  destruct (Msgbox.wrap_body style phrase line_position self)
    as [lp' self'|phrase' self'|e self'].
  - done.
  - destruct Hb as [Hinv' Hw]. specialize (IH phrase' 2 self' Hinv').
    rewrite Hw in IH. done.
  - subst self'. apply Hinv.
Qed.

Lemma append_chunks_inv fuel chunks line_position self :
  wrap_inv line_position self →
  match Msgbox.append_chunks fuel chunks line_position self with
  | Return _ self' | Raise _ self' =>
      Forall (fits (Msgbox.w self)) (items (Msgbox.history self'))
  | _ => True
  end.
Proof.
  revert line_position self.
  induction chunks as [|c chunks IH]; intros line_position self Hinv; simpl.
  { apply Hinv. }
  destruct c as [phrase|phrase style|name]; [| |apply Hinv].
  - pose proof (wrap_loop_inv fuel curses.A_NORMAL phrase line_position self Hinv) as Hl.
    destruct (Msgbox.wrap_loop _ _ _ _ _) as [lp' self'|e self'| |]; try done.
    destruct Hl as [Hinv' Hw]. specialize (IH lp' self' Hinv'). by rewrite Hw in IH.
  - pose proof (wrap_loop_inv fuel style phrase line_position self Hinv) as Hl.
    destruct (Msgbox.wrap_loop _ _ _ _ _) as [lp' self'|e self'| |]; try done.
    destruct Hl as [Hinv' Hw]. specialize (IH lp' self' Hinv'). by rewrite Hw in IH.
Qed.

Lemma sigil_line_inv (sigil : list N) self :
  2 <= Msgbox.w self → length sigil = 1%nat →
  Forall (fits (Msgbox.w self)) (items (Msgbox.history self)) →
  wrap_inv 2 (Msgbox.history_appendleft [(sigil ++ py " ", curses.A_NORMAL)] self).
Proof.
  intros Hw Hs Hall.
  assert (line_width [(sigil ++ py " ", curses.A_NORMAL)] = 2) as Hsw.
  { unfold line_width, len; simpl. rewrite app_nil_r, length_app, Hs. done. }
  unfold wrap_inv; simpl. repeat split; try lia.
  - apply Forall_take. apply Forall_cons. split; [|done]. unfold fits. lia.
  - destruct (maxlen (Msgbox.history self)); simpl; [done|lia].
Qed.

(** ** Termination of the wrap loop *)

Lemma slice_from_shorter {A} (s : list A) (n : Z) :
  0 < n → 0 < len s → (length (slice_from s n) < length s)%nat.
Proof.
  intros Hn Hs. pose proof (slice_from_len s n ltac:(lia)) as H.
  unfold len in *. lia.
Qed.

(** At [line_position] 2 and a width of at least 3, an iteration that does
    not end the loop strictly shortens the phrase. *)
Lemma wrap_body_fresh_line style phrase self :
  3 <= Msgbox.w self →
  match Msgbox.wrap_body style phrase 2 self with
  | Msgbox.Continue phrase' _ => (length phrase' < length phrase)%nat
  | _ => True
  end.
Proof.
  intros Hw. unfold Msgbox.wrap_body. simpl.
  pose proof (lstrip_length phrase) as Hstrip.
  destruct (len (lstrip phrase) <=? Msgbox.w self - 2) eqn:Hfit.
  { by destruct (Msgbox.history0_append _ self). }
  apply Z.leb_gt in Hfit.
  set (last_space := rfind space _).
  destruct (0 <? last_space) eqn:Hsp.
  - destruct (Msgbox.history0_append _ self); [|done].
    apply Z.ltb_lt in Hsp.
    pose proof (slice_from_shorter (lstrip phrase) last_space). lia.
  - destruct (Msgbox.history0_append _ self); [|done].
    pose proof (slice_from_shorter (lstrip phrase) (Msgbox.w self - 2)). lia.
Qed.

Lemma wrap_body_w style phrase line_position self :
  match Msgbox.wrap_body style phrase line_position self with
  | Msgbox.Break _ self' | Msgbox.Continue _ self' | Msgbox.Fail _ self' =>
      Msgbox.w self' = Msgbox.w self
  end.
Proof.
  unfold Msgbox.wrap_body, Msgbox.history0_append.
  repeat (case_match; simplify_eq; simpl; try done).
Qed.

Lemma wrap_body_stale_line style phrase line_position self :
  line_position ≠ 2 →
  match Msgbox.wrap_body style phrase line_position self with
  | Msgbox.Continue phrase' _ =>
      (length phrase' < length phrase)%nat ∨ phrase' = phrase
  | _ => True
  end.
Proof.
  intros Hlp. unfold Msgbox.wrap_body.
  apply Z.eqb_neq in Hlp. rewrite Hlp.
  destruct (len phrase <=? Msgbox.w self - line_position) eqn:Hfit.
  { by destruct (Msgbox.history0_append _ self). }
  set (last_space := rfind space _).
  destruct (0 <? last_space) eqn:Hsp; [|by right].
  destruct (Msgbox.history0_append _ self); [|done]. left.
  apply Z.ltb_lt in Hsp.
  pose proof (rfind_range space (slice_to phrase (Msgbox.w self - line_position))) as Hr.
  pose proof (slice_to_len_le phrase (Msgbox.w self - line_position)).
  fold last_space in Hr.
  apply slice_from_shorter; lia.
Qed.

Lemma wrap_body_progress style phrase line_position self :
  3 <= Msgbox.w self → iteration_progress style phrase line_position self.
Proof.
  intros Hw. unfold iteration_progress.
  destruct (decide (line_position = 2)) as [->|Hlp].
  { pose proof (wrap_body_fresh_line style phrase self Hw).
    destruct (Msgbox.wrap_body style phrase 2 self); auto. }
  pose proof (wrap_body_w style phrase line_position self) as Hw'.
  pose proof (wrap_body_stale_line style phrase line_position self Hlp) as Hs.
  destruct (Msgbox.wrap_body style phrase line_position self)
    as [|phrase' self'|]; [done| |done].
  destruct Hs as [Hs| ->]; [by left|right]. repeat split; [done|].
  apply wrap_body_fresh_line. lia.
Qed.

Lemma wrap_body_measure style phrase line_position self :
  3 <= Msgbox.w self →
  match Msgbox.wrap_body style phrase line_position self with
  | Msgbox.Continue phrase' _ =>
      (wrap_measure phrase' 2 < wrap_measure phrase line_position)%nat
  | _ => True
  end.
Proof.
  intros Hw. pose proof (wrap_body_progress style phrase line_position self Hw) as Hp.
  unfold iteration_progress in Hp.
  destruct (Msgbox.wrap_body style phrase line_position self); try done.
  unfold wrap_measure. simpl.
  destruct Hp as [Hp|(Hlp & -> & _)].
  - destruct (line_position =? 2); lia.
  - apply Z.eqb_neq in Hlp. rewrite Hlp. lia.
Qed.

Lemma wrap_body_fail style phrase line_position self :
  match Msgbox.wrap_body style phrase line_position self with
  | Msgbox.Fail e self' =>
      e = IndexError ∧ self' = self ∧ items (Msgbox.history self) = []
  | _ => True
  end.
Proof.
  unfold Msgbox.wrap_body, Msgbox.history0_append.
  repeat (case_match; simplify_eq; simpl; try done).
Qed.

Lemma wrap_loop_terminates fuel style phrase line_position self :
  3 <= Msgbox.w self →
  (wrap_measure phrase line_position < fuel)%nat →
  match Msgbox.wrap_loop fuel style phrase line_position self with
  | Return _ self' => Msgbox.w self' = Msgbox.w self
  | Raise e _ => e = IndexError
  | _ => False
  end.
Proof.
  revert phrase line_position self.
  induction fuel as [|fuel IH]; intros phrase line_position self Hw Hfuel; [lia|].
  simpl.
  pose proof (wrap_body_measure style phrase line_position self Hw) as Hm.
  pose proof (wrap_body_w style phrase line_position self) as Hw'.
  pose proof (wrap_body_fail style phrase line_position self) as Hf.
  destruct (Msgbox.wrap_body style phrase line_position self)
    as [lp' self'|phrase' self'|e self']; [done| |by destruct Hf].
  specialize (IH phrase' 2 self' ltac:(lia) ltac:(lia)).
  destruct (Msgbox.wrap_loop fuel style phrase' 2 self'); try done. lia.
Qed.

Lemma enough_fuel_cons c chunks :
  (enough_fuel chunks <= enough_fuel (c :: chunks))%nat
  ∧ (2 * length (chunk_text c) + 2 <= enough_fuel (c :: chunks))%nat.
Proof.
  assert (length (concat (chunk_text <$> c :: chunks))
          = length (chunk_text c) + length (concat (chunk_text <$> chunks)))%nat
    as H by (simpl; by rewrite length_app).
  unfold enough_fuel. lia.
Qed.

Lemma append_chunks_terminates fuel chunks line_position self :
  3 <= Msgbox.w self →
  (enough_fuel chunks <= fuel)%nat →
  match Msgbox.append_chunks fuel chunks line_position self with
  | Return _ _ => Forall valid_chunk chunks
  | Raise e _ => e = IndexError ∨ ¬ Forall valid_chunk chunks
  | _ => False
  end.
Proof.
  revert line_position self.
  induction chunks as [|c chunks IH]; intros line_position self Hw Hfuel; simpl; [done|].
  pose proof (enough_fuel_cons c chunks) as [Hf1 Hf2].
  assert (∀ style phrase, chunk_text c = phrase →
    valid_chunk c →
    match
      match Msgbox.wrap_loop fuel style phrase line_position self with
      | Return lp' self' => Msgbox.append_chunks fuel chunks lp' self'
      | Raise e self' => Raise e self'
      | OutOfFuel => OutOfFuel
      | Blocked => Blocked
      end
    with
    | Return _ _ => Forall valid_chunk (c :: chunks)
    | Raise e _ => e = IndexError ∨ ¬ Forall valid_chunk (c :: chunks)
    | _ => False
    end) as Hstep.
  { intros style phrase Hc Hv.
    pose proof (wrap_loop_terminates fuel style phrase line_position self Hw) as Hl.
    assert (wrap_measure phrase line_position < fuel)%nat as Hm.
    { unfold wrap_measure. rewrite <- Hc. destruct (line_position =? 2); lia. }
    specialize (Hl Hm).
    destruct (Msgbox.wrap_loop fuel style phrase line_position self)
      as [lp' self'|e self'| |]; try done; [|by left].
    specialize (IH lp' self' ltac:(lia) ltac:(lia)).
    destruct (Msgbox.append_chunks fuel chunks lp' self'); try done.
    - by apply Forall_cons.
    - destruct IH as [IH|IH]; [by left|right]. rewrite Forall_cons. tauto. }
  destruct c as [phrase|phrase style|name].
  - by apply Hstep.
  - by apply Hstep.
  - right. rewrite Forall_cons. simpl. tauto.
Qed.

Lemma history_appendleft_ready l self :
  (1 <= maxlen (Msgbox.history self))%nat → ready (Msgbox.history_appendleft l self).
Proof.
  intros Hm. split; simpl; [done|].
  destruct (maxlen (Msgbox.history self)); [lia|done].
Qed.

Lemma wrap_body_ready style phrase line_position self :
  ready self →
  match Msgbox.wrap_body style phrase line_position self with
  | Msgbox.Break _ self' | Msgbox.Continue _ self' => ready self'
  | Msgbox.Fail _ _ => False
  end.
Proof.
  intros [Hm Hne]. unfold Msgbox.wrap_body, Msgbox.history0_append.
  destruct (items (Msgbox.history self)) as [|l rest] eqn:E; [done|].
  repeat (case_match; simplify_eq; simpl; try done);
    try (by apply history_appendleft_ready); split; simpl; done.
Qed.

Lemma wrap_loop_ready fuel style phrase line_position self :
  ready self →
  match Msgbox.wrap_loop fuel style phrase line_position self with
  | Return _ self' => ready self'
  | Raise _ _ => False
  | _ => True
  end.
Proof.
  revert phrase line_position self.
  induction fuel as [|fuel IH]; intros phrase line_position self Hr; simpl; [done|].
  pose proof (wrap_body_ready style phrase line_position self Hr) as Hb.
  destruct (Msgbox.wrap_body style phrase line_position self); try done.
  by apply IH.
Qed.

Lemma append_chunks_ready fuel chunks line_position self :
  ready self → Forall valid_chunk chunks →
  match Msgbox.append_chunks fuel chunks line_position self with
  | Return _ self' => ready self'
  | Raise _ _ => False
  | _ => True
  end.
Proof.
  revert line_position self.
  induction chunks as [|c chunks IH]; intros line_position self Hr Hv; simpl; [done|].
  apply Forall_cons in Hv as [Hc Hv].
  destruct c as [phrase|phrase style|name]; [| |done].
  - pose proof (wrap_loop_ready fuel curses.A_NORMAL phrase line_position self Hr) as Hl.
    destruct (Msgbox.wrap_loop _ _ _ _ _); try done. by apply IH.
  - pose proof (wrap_loop_ready fuel style phrase line_position self Hr) as Hl.
    destruct (Msgbox.wrap_loop _ _ _ _ _); try done. by apply IH.
Qed.

(** ** [append] lays lines out and pushes them on the ring *)

(** More fuel does not change an outcome that was reached. *)
Lemma wrap_loop_mono fuel fuel' style phrase line_position self :
  (fuel <= fuel')%nat →
  Msgbox.wrap_loop fuel style phrase line_position self ≠ OutOfFuel →
  Msgbox.wrap_loop fuel' style phrase line_position self
  = Msgbox.wrap_loop fuel style phrase line_position self.
Proof.
  revert fuel' phrase line_position self.
  induction fuel as [|fuel IH]; intros fuel' phrase line_position self Hle Hne;
    [done|].
  destruct fuel' as [|fuel']; [lia|]. simpl in *.
  destruct (Msgbox.wrap_body style phrase line_position self); try done.
  apply IH; [lia|done].
Qed.

Lemma append_chunks_mono fuel fuel' chunks line_position self :
  (fuel <= fuel')%nat →
  Msgbox.append_chunks fuel chunks line_position self ≠ OutOfFuel →
  Msgbox.append_chunks fuel' chunks line_position self
  = Msgbox.append_chunks fuel chunks line_position self.
Proof.
  revert line_position self.
  induction chunks as [|c chunks IH]; intros line_position self Hle Hne; simpl in *;
    [done|].
  destruct c as [phrase|phrase style|name]; [| |done].
  - rewrite (wrap_loop_mono fuel fuel') by (done || by intros E; rewrite E in Hne).
    destruct (Msgbox.wrap_loop fuel _ _ _ _); try done. by apply IH.
  - rewrite (wrap_loop_mono fuel fuel') by (done || by intros E; rewrite E in Hne).
    destruct (Msgbox.wrap_loop fuel _ _ _ _); try done. by apply IH.
Qed.

Lemma append_mono fuel fuel' chunks sigil self :
  (fuel <= fuel')%nat →
  Msgbox.append fuel chunks sigil self ≠ OutOfFuel →
  Msgbox.append fuel' chunks sigil self = Msgbox.append fuel chunks sigil self.
Proof. apply append_chunks_mono. Qed.

Lemma same_box_refl a : same_box a a.
Proof. by repeat split. Qed.

Lemma same_box_trans a b c : same_box a b → same_box b c → same_box a c.
Proof. unfold same_box. intros (?&?&?&?&?) (?&?&?&?&?). repeat split; congruence. Qed.

Lemma wrap_body_frame style phrase line_position self :
  match Msgbox.wrap_body style phrase line_position self with
  | Msgbox.Break _ self' | Msgbox.Continue _ self' | Msgbox.Fail _ self' =>
      same_box self self'
  end.
Proof.
  unfold Msgbox.wrap_body, Msgbox.history0_append.
  repeat (case_match; simplify_eq; simpl; try done); by repeat split.
Qed.

Lemma wrap_loop_frame fuel style phrase line_position self :
  match Msgbox.wrap_loop fuel style phrase line_position self with
  | Return _ self' | Raise _ self' => same_box self self'
  | _ => True
  end.
Proof.
  revert phrase line_position self.
  induction fuel as [|fuel IH]; intros phrase line_position self; simpl; [done|].
  pose proof (wrap_body_frame style phrase line_position self) as Hb.
  destruct (Msgbox.wrap_body style phrase line_position self)
    as [|phrase' self'|]; try done.
  specialize (IH phrase' 2 self').
  destruct (Msgbox.wrap_loop fuel style phrase' 2 self'); try done;
    by eapply same_box_trans.
Qed.

Lemma append_chunks_frame fuel chunks line_position self :
  match Msgbox.append_chunks fuel chunks line_position self with
  | Return _ self' | Raise _ self' => same_box self self'
  | _ => True
  end.
Proof.
  revert line_position self.
  induction chunks as [|c chunks IH]; intros line_position self; simpl.
  { apply same_box_refl. }
  destruct c as [phrase|phrase style|name]; [| |apply same_box_refl].
  - pose proof (wrap_loop_frame fuel curses.A_NORMAL phrase line_position self) as Hl.
    destruct (Msgbox.wrap_loop _ _ _ _ _) as [lp' self'| | |]; try done.
    specialize (IH lp' self').
    destruct (Msgbox.append_chunks fuel chunks lp' self'); try done;
      by eapply same_box_trans.
  - pose proof (wrap_loop_frame fuel style phrase line_position self) as Hl.
    destruct (Msgbox.wrap_loop _ _ _ _ _) as [lp' self'| | |]; try done.
    specialize (IH lp' self').
    destruct (Msgbox.append_chunks fuel chunks lp' self'); try done;
      by eapply same_box_trans.
Qed.

Lemma append_frame fuel chunks sigil self :
  match Msgbox.append fuel chunks sigil self with
  | Return _ self' | Raise _ self' => same_box self self'
  | _ => True
  end.
Proof.
  unfold Msgbox.append.
  set (self1 := Msgbox.history_appendleft _ self).
  pose proof (append_chunks_frame fuel chunks 2 self1) as H.
  destruct (Msgbox.append_chunks fuel chunks 2 self1); try done;
    (eapply same_box_trans; [|exact H]); by repeat split.
Qed.

Lemma take_cons_take {A} n (x : A) l : take n (x :: take n l) = take n (x :: l).
Proof.
  destruct n as [|n]; simpl; [done|]. f_equal. rewrite take_take. f_equal. lia.
Qed.

Lemma history0_append_ring c older big small :
  ring_of older big small →
  ∃ big' small',
    Msgbox.history0_append c big = Some big'
    ∧ Msgbox.history0_append c small = Some small'
    ∧ ring_of older big' small'
    ∧ length (items (Msgbox.history big')) = length (items (Msgbox.history big))
    ∧ maxlen (Msgbox.history big') = maxlen (Msgbox.history big).
Proof.
  intros (Hw & Hne & Hn & Hitems). unfold Msgbox.history0_append.
  destruct (items (Msgbox.history big)) as [|l rest] eqn:Eb; [done|].
  rewrite Hitems. destruct (maxlen (Msgbox.history small)) as [|n] eqn:En; [lia|].
  simpl. eexists _, _. repeat split; simpl; try done; by rewrite ?En.
Qed.

Lemma history_appendleft_ring l older big small :
  ring_of older big small →
  (length (items (Msgbox.history big)) < maxlen (Msgbox.history big))%nat →
  ring_of older (Msgbox.history_appendleft l big) (Msgbox.history_appendleft l small)
  ∧ length (items (Msgbox.history (Msgbox.history_appendleft l big)))
    = S (length (items (Msgbox.history big))).
Proof.
  intros (Hw & Hne & Hn & Hitems) Hroom.
  assert (take (maxlen (Msgbox.history big)) (l :: items (Msgbox.history big))
          = l :: items (Msgbox.history big)) as Hbig.
  { apply take_ge. simpl. lia. }
  unfold ring_of. simpl. rewrite Hbig. repeat split; try done.
  rewrite Hitems. apply take_cons_take.
Qed.

Lemma wrap_body_ring style phrase line_position older big small :
  ring_of older big small →
  (length (items (Msgbox.history big)) < maxlen (Msgbox.history big))%nat →
  match Msgbox.wrap_body style phrase line_position big,
        Msgbox.wrap_body style phrase line_position small with
  | Msgbox.Break lp1 big', Msgbox.Break lp2 small' =>
      lp1 = lp2 ∧ ring_of older big' small'
      ∧ length (items (Msgbox.history big')) = length (items (Msgbox.history big))
  | Msgbox.Continue p1 big', Msgbox.Continue p2 small' =>
      p1 = p2 ∧ ring_of older big' small'
      ∧ length (items (Msgbox.history big')) = S (length (items (Msgbox.history big)))
  | _, _ => False
  end.
Proof.
  intros Hring Hroom. pose proof Hring as (Hw & _).
  unfold Msgbox.wrap_body. rewrite Hw.
  set (p := if line_position =? 2 then lstrip phrase else phrase).
  assert (∀ c, match Msgbox.history0_append c big, Msgbox.history0_append c small with
               | Some big', Some small' =>
                   ring_of older big' small'
                   ∧ length (items (Msgbox.history big'))
                     = length (items (Msgbox.history big))
                   ∧ maxlen (Msgbox.history big') = maxlen (Msgbox.history big)
               | _, _ => False
               end) as Happ.
  { intros c. destruct (history0_append_ring c older big small Hring)
      as (b' & s' & -> & -> & ?). done. }
  destruct (len p <=? Msgbox.w small - line_position).
  { specialize (Happ (p, style)).
    destruct (Msgbox.history0_append (p, style) big),
             (Msgbox.history0_append (p, style) small); try done.
    destruct Happ as (Hr & Hlen & _). done. }
  set (last_space := rfind space _).
  destruct (0 <? last_space).
  { specialize (Happ (slice_to p last_space, style)).
    destruct (Msgbox.history0_append (slice_to p last_space, style) big) as [b'|],
             (Msgbox.history0_append (slice_to p last_space, style) small) as [s'|];
      try done.
    destruct Happ as (Hr & Hlen & Hmax).
    destruct (history_appendleft_ring [(py "  ", curses.A_NORMAL)] older b' s' Hr)
      as [Hr' Hlen']; [lia|].
    split; [done|split; [done|]]. rewrite Hlen'. lia. }
  destruct (line_position =? 2).
  { set (c := (slice_to p (Msgbox.w small - line_position), style)).
    specialize (Happ c).
    destruct (Msgbox.history0_append c big) as [b'|],
             (Msgbox.history0_append c small) as [s'|]; try done.
    destruct Happ as (Hr & Hlen & Hmax).
    destruct (history_appendleft_ring [(py "  ", curses.A_NORMAL)] older b' s' Hr)
      as [Hr' Hlen']; [lia|].
    split; [done|split; [done|]]. rewrite Hlen'. lia. }
  destruct (history_appendleft_ring [(py "  ", curses.A_NORMAL)] older big small Hring)
    as [Hr' Hlen']; [lia|].
  done.
Qed.

Lemma wrap_loop_ring fuel style phrase line_position older big small :
  ring_of older big small →
  (length (items (Msgbox.history big)) + fuel <= maxlen (Msgbox.history big))%nat →
  match Msgbox.wrap_loop fuel style phrase line_position big,
        Msgbox.wrap_loop fuel style phrase line_position small with
  | Return lp1 big', Return lp2 small' =>
      lp1 = lp2 ∧ ring_of older big' small'
      ∧ (length (items (Msgbox.history big'))
         <= length (items (Msgbox.history big)) + fuel)%nat
  | OutOfFuel, OutOfFuel => True
  | _, _ => False
  end.
Proof.
  revert phrase line_position big small.
  induction fuel as [|fuel IH]; intros phrase line_position big small Hring Hroom;
    simpl; [done|].
  pose proof (wrap_body_ring style phrase line_position older big small Hring
                ltac:(lia)) as Hb.
  pose proof (wrap_body_frame style phrase line_position big) as Hf.
  destruct (Msgbox.wrap_body style phrase line_position big) as [lp1 b'|p1 b'|],
           (Msgbox.wrap_body style phrase line_position small) as [lp2 s'|p2 s'|];
    try done.
  - destruct Hb as (-> & Hr & Hlen). split; [done|split; [done|lia]].
  - destruct Hb as (-> & Hr & Hlen). destruct Hf as (_&_&_&_&Hmax).
    specialize (IH p2 2 b' s' Hr ltac:(lia)).
    destruct (Msgbox.wrap_loop fuel style p2 2 b'),
             (Msgbox.wrap_loop fuel style p2 2 s'); try done.
    destruct IH as (-> & Hr' & Hlen'). split; [done|split; [done|lia]].
Qed.

Lemma append_chunks_ring fuel chunks line_position older big small :
  ring_of older big small →
  (length (items (Msgbox.history big)) + fuel * length chunks
   <= maxlen (Msgbox.history big))%nat →
  match Msgbox.append_chunks fuel chunks line_position big,
        Msgbox.append_chunks fuel chunks line_position small with
  | Return _ big', Return _ small' => ring_of older big' small'
  | Raise e1 big', Raise e2 small' => e1 = e2 ∧ ring_of older big' small'
  | OutOfFuel, OutOfFuel => True
  | _, _ => False
  end.
Proof.
  revert line_position big small.
  induction chunks as [|c chunks IH]; intros line_position big small Hring Hroom;
    simpl in *; [done|].
  assert (∀ style phrase,
    match
      match Msgbox.wrap_loop fuel style phrase line_position big with
      | Return lp' self' => Msgbox.append_chunks fuel chunks lp' self'
      | Raise e self' => Raise e self'
      | OutOfFuel => OutOfFuel
      | Blocked => Blocked
      end,
      match Msgbox.wrap_loop fuel style phrase line_position small with
      | Return lp' self' => Msgbox.append_chunks fuel chunks lp' self'
      | Raise e self' => Raise e self'
      | OutOfFuel => OutOfFuel
      | Blocked => Blocked
      end
    with
    | Return _ big', Return _ small' => ring_of older big' small'
    | Raise e1 big', Raise e2 small' => e1 = e2 ∧ ring_of older big' small'
    | OutOfFuel, OutOfFuel => True
    | _, _ => False
    end) as Hstep.
  { intros style phrase.
    pose proof (wrap_loop_ring fuel style phrase line_position older big small Hring
                  ltac:(lia)) as Hl.
    pose proof (wrap_loop_frame fuel style phrase line_position big) as Hf.
    destruct (Msgbox.wrap_loop fuel style phrase line_position big) as [lp1 b'| | |],
             (Msgbox.wrap_loop fuel style phrase line_position small) as [lp2 s'| | |];
      try done.
    destruct Hl as (-> & Hr & Hlen). destruct Hf as (_&_&_&_&Hmax).
    apply IH; [done|]. lia. }
  destruct c as [phrase|phrase style|name]; [apply Hstep..|done].
Qed.

Lemma append_layout_push (self : Msgbox.t) (fuel : nat)
  (chunks : list chunk) (sigil : list N) :
  (1 <= maxlen (Msgbox.history self))%nat →
  Msgbox.append fuel chunks sigil self
  = match layout fuel (Msgbox.w self) chunks sigil with
    | Return _ laid => Return tt (pushed (items (Msgbox.history laid)) self)
    | Raise e laid => Raise e (pushed (items (Msgbox.history laid)) self)
    | OutOfFuel => OutOfFuel
    | Blocked => Blocked
    end.
Proof.
  intros Hn. unfold layout.
  pose proof (append_frame fuel chunks sigil self) as Hframe.
  unfold Msgbox.append in *.
  set (line := [(sigil ++ py " ", curses.A_NORMAL)]) in *.
  set (big0 := Msgbox.Make 0 (Msgbox.w self) 0 0 (Deque [] (1 + fuel * length chunks))).
  assert (ring_of (items (Msgbox.history self))
            (Msgbox.history_appendleft line big0)
            (Msgbox.history_appendleft line self)) as Hring.
  { repeat split; simpl; try done. by rewrite take_nil. }
  pose proof (append_chunks_ring fuel chunks 2 _ _ _ Hring
                ltac:(simpl; rewrite take_nil; simpl; lia)) as Hc.
  destruct (Msgbox.append_chunks fuel chunks 2 (Msgbox.history_appendleft line big0))
    as [[] b'|e1 b'| |],
    (Msgbox.append_chunks fuel chunks 2 (Msgbox.history_appendleft line self))
    as [[] s'|e2 s'| |]; try done.
  - destruct Hc as (_ & _ & _ & Hitems). destruct Hframe as (?&?&?&?&Hmax).
    f_equal. destruct s' as [? ? ? ? [its n]], self as [? ? ? ? [older m]].
    unfold pushed. simpl in *. subst. done.
  - destruct Hc as (-> & _ & _ & _ & Hitems). destruct Hframe as (?&?&?&?&Hmax).
    f_equal. destruct s' as [? ? ? ? [its n]], self as [? ? ? ? [older m]].
    unfold pushed. simpl in *. subst. done.
Qed.

(** X1. [append] on a ring with room for at least one line is [layout]
    followed by pushing the lines laid out on the ring: the lines that a
    call produces do not depend on what the ring holds. *)
Theorem append_is_layout_then_push (self : Msgbox.t) (fuel : nat)
  (chunks : list chunk) (sigil : list N) :
  (1 <= maxlen (Msgbox.history self))%nat →
  Msgbox.append fuel chunks sigil self
  = match layout fuel (Msgbox.w self) chunks sigil with
    | Return _ laid => Return tt (pushed (items (Msgbox.history laid)) self)
    | Raise e laid => Raise e (pushed (items (Msgbox.history laid)) self)
    | OutOfFuel => OutOfFuel
    | Blocked => Blocked
    end.
Proof. apply append_layout_push. Qed.

Lemma append_is_layout_then_push_witness :
  Msgbox.append 9 [Str (py "a b c d")] [sigil_plain]
    (Msgbox.Make 1 5 0 0 (Deque [[(py "  ", 0); (py "old", 0)]] 2))
  = match layout 9 5 [Str (py "a b c d")] [sigil_plain] with
    | Return _ laid =>
        Return tt (pushed (items (Msgbox.history laid))
                     (Msgbox.Make 1 5 0 0 (Deque [[(py "  ", 0); (py "old", 0)]] 2)))
    | Raise e laid =>
        Raise e (pushed (items (Msgbox.history laid))
                   (Msgbox.Make 1 5 0 0 (Deque [[(py "  ", 0); (py "old", 0)]] 2)))
    | OutOfFuel => OutOfFuel
    | Blocked => Blocked
    end.
Proof.
  apply (append_is_layout_then_push
           (Msgbox.Make 1 5 0 0 (Deque [[(py "  ", 0); (py "old", 0)]] 2))
           9 [Str (py "a b c d")] [sigil_plain]).
  simpl. lia.
Defined.

(** ** Claims on [append] *)

(** C1. For every sequence of chunks and every width above 2, with a
    one-glyph sigil, [append] ends (it returns, or it raises on a chunk of
    a wrong type or on a ring without room), and every line of the ring
    afterwards, sigil or indent chunk included, has at most [w]
    characters, given that the lines already in the ring did. *)
Theorem append_lines_fit (self : Msgbox.t) (chunks : list chunk)
  (sigil : list N) (fuel : nat) :
  2 < Msgbox.w self →
  length sigil = 1%nat →
  Forall (fits (Msgbox.w self)) (items (Msgbox.history self)) →
  (enough_fuel chunks <= fuel)%nat →
  ∃ self',
    (Msgbox.append fuel chunks sigil self = Return tt self'
     ∨ ∃ e, Msgbox.append fuel chunks sigil self = Raise e self')
    ∧ Forall (fits (Msgbox.w self)) (items (Msgbox.history self')).
Proof.
  intros Hw Hsigil Hall Hfuel. unfold Msgbox.append.
  pose proof (sigil_line_inv sigil self ltac:(lia) Hsigil Hall) as Hinv.
  set (self1 := Msgbox.history_appendleft _ self) in *.
  pose proof (append_chunks_inv fuel chunks 2 self1 Hinv) as Hfit.
  pose proof (append_chunks_terminates fuel chunks 2 self1 ltac:(simpl; lia) Hfuel) as Ht.
  destruct (Msgbox.append_chunks fuel chunks 2 self1) as [[] self'|e self'| |];
    try done; exists self'; (split; [|exact Hfit]); eauto.
Qed.

Lemma append_lines_fit_witness :
  ∃ self',
    (Msgbox.append 60 [Str (py "You see a "); Tuple (py "rude goblin") 256;
                       Str (py " nearby.")] [sigil_plain]
       (Msgbox.Make 8 20 2 0 (Deque [] 80)) = Return tt self'
     ∨ ∃ e, Msgbox.append 60 [Str (py "You see a "); Tuple (py "rude goblin") 256;
                              Str (py " nearby.")] [sigil_plain]
              (Msgbox.Make 8 20 2 0 (Deque [] 80)) = Raise e self')
    ∧ Forall (fits 20) (items (Msgbox.history self')).
Proof.
  apply (append_lines_fit (Msgbox.Make 8 20 2 0 (Deque [] 80))
           [Str (py "You see a "); Tuple (py "rude goblin") 256; Str (py " nearby.")]
           [sigil_plain] 60).
  - simpl. lia.
  - reflexivity.
  - simpl. constructor.
  - vm_compute. lia.
Defined.

Lemma append_returns (self : Msgbox.t) chunks sigil fuel :
  3 <= Msgbox.w self →
  Forall valid_chunk chunks → (enough_fuel chunks <= fuel)%nat →
  ∃ self',
    Msgbox.append fuel chunks sigil self = Return tt self'
    ∨ (maxlen (Msgbox.history self) = 0%nat
       ∧ Msgbox.append fuel chunks sigil self = Raise IndexError self').
Proof.
  intros Hw Hvalid Hfuel. unfold Msgbox.append.
  set (self1 := Msgbox.history_appendleft _ self).
  pose proof (append_chunks_terminates fuel chunks 2 self1 ltac:(simpl; lia) Hfuel) as Ht.
  destruct (decide (maxlen (Msgbox.history self) = 0%nat)) as [Hz|Hnz].
  - destruct (Msgbox.append_chunks fuel chunks 2 self1) as [[] self'|e self'| |];
      try done; exists self'; [by left|right].
    split; [done|]. by destruct Ht as [->|Ht].
  - pose proof (append_chunks_ready fuel chunks 2 self1
                  (history_appendleft_ready _ self ltac:(lia)) Hvalid) as Hr.
    destruct (Msgbox.append_chunks fuel chunks 2 self1) as [[] self'|e self'| |];
      try done. exists self'. by left.
Qed.

(** C9. For every width of at least 3, each iteration of the wrap loop
    ends the loop, or strictly shortens the phrase, or starts a fresh line
    from which the next iteration ends the loop or strictly shortens the
    phrase; and [append] on valid chunks ends within [enough_fuel]
    iterations per chunk: it returns, unless the ring has no room for a
    line, in which case [self.history[0]] raises [IndexError]. *)
Theorem append_terminates (self : Msgbox.t) :
  3 <= Msgbox.w self →
  (∀ style phrase line_position,
     iteration_progress style phrase line_position self)
  ∧ (∀ chunks sigil fuel,
       Forall valid_chunk chunks → (enough_fuel chunks <= fuel)%nat →
       ∃ self',
         Msgbox.append fuel chunks sigil self = Return tt self'
         ∨ (maxlen (Msgbox.history self) = 0%nat
            ∧ Msgbox.append fuel chunks sigil self = Raise IndexError self')).
Proof.
  intros Hw. split.
  - intros. by apply wrap_body_progress.
  - intros. by apply append_returns.
Qed.

Lemma append_terminates_witness :
  ∃ self',
    Msgbox.append 40 [Str (py "What do you do?")] [sigil_prompt]
      (Msgbox.Make 8 3 2 0 (Deque [] 80)) = Return tt self'
    ∨ (80%nat = 0%nat
       ∧ Msgbox.append 40 [Str (py "What do you do?")] [sigil_prompt]
           (Msgbox.Make 8 3 2 0 (Deque [] 80)) = Raise IndexError self').
Proof.
  apply (proj2 (append_terminates (Msgbox.Make 8 3 2 0 (Deque [] 80))
                  ltac:(simpl; lia))
           [Str (py "What do you do?")] [sigil_prompt] 40%nat).
  - repeat constructor.
  - vm_compute. lia.
Defined.

(** C8. On a message box of width 10 with room for at least one line,
    appending the single chunk "supercalifragilisticexpialidocious" pushes
    five lines on the ring; after the sigil or indent chunk they carry
    "supercal", "ifragili", "sticexpi", "alidocio" and "us": fragments of
    exactly 8 characters but for the last, which concatenate to the word. *)
Theorem long_single_word (self : Msgbox.t) (fuel : nat) :
  Msgbox.w self = 10 →
  (1 <= maxlen (Msgbox.history self))%nat →
  (5 <= fuel)%nat →
  Msgbox.append fuel [Str long_word] [sigil_plain] self
  = Return tt (pushed long_word_lines self)
  ∧ (1 < length long_word_lines)%nat
  ∧ fragments long_word_lines
    = [py "supercal"; py "ifragili"; py "sticexpi"; py "alidocio"; py "us"]
  ∧ Forall (λ f, len f = 10 - 2) (removelast (fragments long_word_lines))
  ∧ concat (fragments long_word_lines) = long_word.
Proof.
  intros Hw Hcap Hfuel. split; [|split; [simpl; lia|split; [reflexivity|split]]].
  - assert (Msgbox.append 5 [Str long_word] [sigil_plain] self
            = Return tt (pushed long_word_lines self)) as H5.
    { rewrite append_layout_push by done. rewrite Hw.
      replace (layout 5 10 [Str long_word] [sigil_plain])
        with (Return tt (Msgbox.Make 0 10 0 0 (Deque long_word_lines 6)))
        by (vm_compute; reflexivity).
      reflexivity. }
    rewrite (append_mono 5 fuel) by (done || by rewrite H5). exact H5.
  - vm_compute. repeat constructor.
  - reflexivity.
Qed.

Lemma long_single_word_witness :
  Msgbox.append 5 [Str long_word] [sigil_plain] (Msgbox.Make 3 10 1 0 (Deque [] 30))
  = Return tt (pushed long_word_lines (Msgbox.Make 3 10 1 0 (Deque [] 30)))
  ∧ (1 < length long_word_lines)%nat
  ∧ fragments long_word_lines
    = [py "supercal"; py "ifragili"; py "sticexpi"; py "alidocio"; py "us"]
  ∧ Forall (λ f, len f = 10 - 2) (removelast (fragments long_word_lines))
  ∧ concat (fragments long_word_lines) = long_word.
Proof.
  apply (long_single_word (Msgbox.Make 3 10 1 0 (Deque [] 30)) 5).
  - reflexivity.
  - simpl. lia.
  - lia.
Defined.

(** ** Widths of 2 and less *)

Lemma wrap_body_narrow style phrase self :
  Msgbox.w self <= 2 → ready self →
  (Msgbox.w self = 2 ∧ lstrip phrase = []
   ∧ ∃ self', Msgbox.wrap_body style phrase 2 self = Msgbox.Break 2 self'
              ∧ ready self' ∧ Msgbox.w self' = Msgbox.w self)
  ∨ ((Msgbox.w self < 2 ∨ lstrip phrase ≠ [])
     ∧ ∃ phrase' self', Msgbox.wrap_body style phrase 2 self
                        = Msgbox.Continue phrase' self'
                        ∧ ready self' ∧ Msgbox.w self' = Msgbox.w self
                        ∧ (Msgbox.w self = 2 → phrase' = lstrip phrase)).
Proof.
  intros Hw Hready.
  pose proof (wrap_body_ready style phrase 2 self Hready) as Hr.
  pose proof (wrap_body_w style phrase 2 self) as Hw'.
  unfold Msgbox.wrap_body in *. simpl in *.
  pose proof (len_nonneg (lstrip phrase)) as Hlen.
  destruct (len (lstrip phrase) <=? Msgbox.w self - 2) eqn:Hfit.
  { apply Z.leb_le in Hfit. left.
    assert (len (lstrip phrase) = 0) as H0 by lia.
    split; [lia|]. split; [by apply len_nil_iff|].
    destruct (Msgbox.history0_append _ self) as [self'|]; [|done].
    exists self'. rewrite H0. done. }
  apply Z.leb_gt in Hfit. right. split.
  { destruct (decide (Msgbox.w self < 2)); [by left|right].
    intros E. rewrite E in Hfit. unfold len in Hfit. simpl in Hfit. lia. }
  set (last_space := rfind space _) in *.
  destruct (0 <? last_space) eqn:Hsp.
  - destruct (Msgbox.history0_append _ self) as [self'|]; [|done].
    eexists _, _. split; [reflexivity|]. split; [exact Hr|]. split; [exact Hw'|].
    intros E. exfalso. subst last_space. rewrite E in Hsp.
    unfold slice_to in Hsp. simpl in Hsp. done.
  - destruct (Msgbox.history0_append _ self) as [self'|]; [|done].
    eexists _, _. split; [reflexivity|]. split; [exact Hr|]. split; [exact Hw'|].
    intros E. rewrite E. simpl. unfold slice_from. simpl. done.
Qed.

Lemma wrap_loop_narrow_diverges fuel style phrase self :
  Msgbox.w self <= 2 → ready self →
  Msgbox.w self < 2 ∨ lstrip phrase ≠ [] →
  Msgbox.wrap_loop fuel style phrase 2 self = OutOfFuel.
Proof.
  revert phrase self.
  induction fuel as [|fuel IH]; intros phrase self Hw Hready Hcase; simpl; [done|].
  destruct (wrap_body_narrow style phrase self Hw Hready)
    as [(Hw2 & Hnil & _)|(_ & phrase' & self' & -> & Hr & Hw' & Hp)].
  { destruct Hcase; [lia|done]. }
  apply IH; [lia|done|].
  destruct Hcase as [Hlt|Hne]; [left; lia|].
  destruct (decide (Msgbox.w self < 2)); [left; lia|right].
  rewrite Hp by lia. by rewrite lstrip_idemp.
Qed.

Lemma wrap_loop_narrow_returns fuel style phrase self :
  Msgbox.w self = 2 → ready self → lstrip phrase = [] →
  ∃ self', Msgbox.wrap_loop (S fuel) style phrase 2 self = Return 2 self'
           ∧ ready self' ∧ Msgbox.w self' = Msgbox.w self.
Proof.
  intros Hw Hready Hnil. simpl.
  destruct (wrap_body_narrow style phrase self ltac:(lia) Hready)
    as [(_ & _ & self' & -> & Hr & Hw')|([Hlt|Hne] & _)]; [|lia|done].
  by exists self'.
Qed.

Lemma append_chunks_narrow_diverges fuel chunks self :
  Msgbox.w self <= 2 → ready self → Forall valid_chunk chunks →
  Exists (λ c, lstrip (chunk_text c) ≠ []) chunks →
  Msgbox.append_chunks fuel chunks 2 self = OutOfFuel.
Proof.
  revert self.
  induction chunks as [|c chunks IH]; intros self Hw Hready Hvalid Hex.
  { by apply Exists_nil in Hex. }
  apply Forall_cons in Hvalid as [Hc Hvalid].
  assert (∀ style phrase, chunk_text c = phrase →
    match Msgbox.wrap_loop fuel style phrase 2 self with
    | Return lp' self' => Msgbox.append_chunks fuel chunks lp' self'
    | Raise e self' => Raise e self'
    | OutOfFuel => OutOfFuel
    | Blocked => Blocked
    end = OutOfFuel) as Hstep.
  { intros style phrase Htext.
    destruct (decide (Msgbox.w self < 2 ∨ lstrip phrase ≠ [])) as [Hd|Hd].
    { by rewrite wrap_loop_narrow_diverges. }
    destruct fuel as [|fuel]; [done|].
    destruct (wrap_loop_narrow_returns fuel style phrase self)
      as (self' & -> & Hr & Hw'); [lia|done| |].
    { destruct (decide (lstrip phrase = [])); [done|]. exfalso. apply Hd. by right. }
    apply IH; [lia|done..|].
    apply Exists_cons in Hex as [Hex|Hex]; [|done].
    exfalso. apply Hd. right. by rewrite <- Htext. }
  destruct c as [phrase|phrase style|name]; simpl; [by apply Hstep..|done].
Qed.

(** At a width of 2 or less a chunk that is not empty once its leading
    whitespace is stripped keeps the wrap loop running forever. *)
Lemma append_narrow_diverges (self : Msgbox.t) chunks sigil :
  Msgbox.w self <= 2 → (1 <= maxlen (Msgbox.history self))%nat →
  Forall valid_chunk chunks →
  Exists (λ c, lstrip (chunk_text c) ≠ []) chunks →
  diverges (λ fuel, Msgbox.append fuel chunks sigil self).
Proof.
  intros Hw Hroom Hvalid Hex fuel. unfold Msgbox.append.
  apply append_chunks_narrow_diverges; try done.
  by apply history_appendleft_ready.
Qed.

(** X7. [append] checks no width: on a message box of width 2 or less,
    with room in its ring and chunks of a valid type, it never raises; and
    when some chunk is not empty once its leading whitespace is stripped,
    the call does not return either. *)
Theorem append_signals_no_width_error (self : Msgbox.t) (chunks : list chunk)
  (sigil : list N) :
  Msgbox.w self <= 2 →
  (1 <= maxlen (Msgbox.history self))%nat →
  Forall valid_chunk chunks →
  (∀ fuel e self', Msgbox.append fuel chunks sigil self ≠ Raise e self')
  ∧ (Exists (λ c, lstrip (chunk_text c) ≠ []) chunks →
     diverges (λ fuel, Msgbox.append fuel chunks sigil self)).
Proof.
  intros Hw Hroom Hvalid. split; [|by apply append_narrow_diverges].
  intros fuel e self' Hraise. unfold Msgbox.append in Hraise.
  pose proof (append_chunks_ready fuel chunks 2 _
                (history_appendleft_ready [(sigil ++ py " ", curses.A_NORMAL)]
                   self Hroom) Hvalid) as Hr.
  by rewrite Hraise in Hr.
Qed.

Lemma append_signals_no_width_error_witness :
  (∀ fuel e self',
     Msgbox.append fuel [Str (py "a")] [sigil_plain]
       (Msgbox.Make 8 2 2 0 (Deque [] 80)) ≠ Raise e self')
  ∧ (Exists (λ c, lstrip (chunk_text c) ≠ []) [Str (py "a")] →
     diverges (λ fuel, Msgbox.append fuel [Str (py "a")] [sigil_plain]
                         (Msgbox.Make 8 2 2 0 (Deque [] 80)))).
Proof.
  apply (append_signals_no_width_error (Msgbox.Make 8 2 2 0 (Deque [] 80))
           [Str (py "a")] [sigil_plain]).
  - simpl. lia.
  - simpl. lia.
  - repeat constructor.
Defined.

(** C2, where the code departs from it. [append] has no check of the
    width, and at width 2 no column is left after the sigil: the split of
    a word that is too long takes no character off the phrase. On the
    message box of [Window(height=12, width=4)], 8 lines of 2 columns,
    appending the chunk "a" signals nothing to the caller: whatever the
    fuel, the call does not end. *)
Lemma append_width_2_diverges :
  diverges (λ fuel, Msgbox.append fuel [Str (py "a")] [sigil_plain]
                      (Msgbox.Make 8 2 2 0 (Deque [] 80))).
Proof.
  apply append_narrow_diverges; simpl; [lia|lia|repeat constructor|].
  apply Exists_cons_hd. simpl. done.
Qed.

(** ** A chunk of a wrong type *)

Lemma append_chunks_invalid fuel pre name post line_position self :
  Msgbox.append_chunks fuel (pre ++ Other name :: post) line_position self
  = match Msgbox.append_chunks fuel pre line_position self with
    | Return _ self' => Raise (Exception Msgbox.invalid_chunk_message) self'
    | r => r
    end.
Proof.
  revert line_position self.
  induction pre as [|c pre IH]; intros line_position self; simpl; [done|].
  destruct c as [phrase|phrase style|name']; [| |done].
  - destruct (Msgbox.wrap_loop _ _ _ _ _); try done.
  - destruct (Msgbox.wrap_loop _ _ _ _ _); try done.
Qed.

(** C3, as the code has it. On a message box of width at least 3 with
    room in its ring, a call of [append] whose first chunk of a wrong type
    comes after the valid chunks [pre] raises, and leaves the message box
    as [append] called on [pre] alone leaves it: the sigil line and the lines of
    [pre] stay on the ring. *)
Theorem append_invalid_chunk_keeps_lines (self : Msgbox.t) (pre : list chunk)
  (name : string) (post : list chunk) (sigil : list N) (fuel : nat) :
  3 <= Msgbox.w self →
  (1 <= maxlen (Msgbox.history self))%nat →
  Forall valid_chunk pre →
  (enough_fuel pre <= fuel)%nat →
  ∃ self',
    Msgbox.append fuel pre sigil self = Return tt self'
    ∧ Msgbox.append fuel (pre ++ Other name :: post) sigil self
      = Raise (Exception Msgbox.invalid_chunk_message) self'.
Proof.
  intros Hw Hroom Hvalid Hfuel.
  destruct (append_returns self pre sigil fuel Hw Hvalid Hfuel)
    as (self' & [Hret|[Hz _]]); [|lia].
  exists self'. split; [done|].
  unfold Msgbox.append in *. by rewrite append_chunks_invalid, Hret.
Qed.

Lemma append_invalid_chunk_keeps_lines_witness :
  ∃ self',
    Msgbox.append 10 [Str (py "hi")] [sigil_plain]
      (Msgbox.Make 8 20 2 0 (Deque [] 80)) = Return tt self'
    ∧ Msgbox.append 10 ([Str (py "hi")] ++ Other "int" :: []) [sigil_plain]
        (Msgbox.Make 8 20 2 0 (Deque [] 80))
      = Raise (Exception Msgbox.invalid_chunk_message) self'.
Proof.
  apply (append_invalid_chunk_keeps_lines (Msgbox.Make 8 20 2 0 (Deque [] 80))
           [Str (py "hi")] "int" [] [sigil_plain] 10).
  - simpl. lia.
  - simpl. lia.
  - repeat constructor.
  - vm_compute. lia.
Defined.

(** C3 as stated fails: [append("hi", 5)] on an empty ring raises, and the
    ring then holds the sigil line with the chunk "hi". *)
Lemma append_invalid_chunk_not_atomic :
  Msgbox.append 10 [Str (py "hi"); Other "int"] [sigil_plain]
    (Msgbox.Make 8 20 2 0 (Deque [] 80))
  = Raise (Exception Msgbox.invalid_chunk_message)
      (Msgbox.Make 8 20 2 0
         (Deque [[([sigil_plain; space], curses.A_NORMAL);
                  (py "hi", curses.A_NORMAL)]] 80))
  ∧ Deque [[([sigil_plain; space], curses.A_NORMAL); (py "hi", curses.A_NORMAL)]] 80
    ≠ Msgbox.history (Msgbox.Make 8 20 2 0 (Deque [] 80)).
Proof. split; [reflexivity|discriminate]. Qed.

(** ** Writing to a window *)

Lemma in_ranges_below c lo ranges :
  forallb (λ r, lo <=? r.1)%N ranges = true → (c < lo)%N →
  curses.in_ranges c ranges = false.
Proof.
  intros Hall Hc. unfold curses.in_ranges.
  induction ranges as [|r ranges IH]; simpl in *; [done|].
  apply andb_true_iff in Hall as [Hr Hall]. apply N.leb_le in Hr.
  rewrite IH by done. rewrite orb_false_r.
  apply andb_false_iff. left. apply N.leb_gt. lia.
Qed.

(** The characters of ASCII that are not control characters take one
    column. *)
Lemma columns_ascii c : (c < 128)%N → curses.columns c = 1.
Proof.
  intros Hc. unfold curses.columns.
  rewrite (in_ranges_below c 128 curses.zero_width) by (done || vm_compute; done).
  by rewrite (in_ranges_below c 128 curses.double_width) by (done || vm_compute; done).
Qed.

Lemma printable_one_column c : printable c → one_column c = true.
Proof.
  intros [Hlo Hhi]. unfold one_column. rewrite columns_ascii by lia.
  apply andb_true_iff. split; [|done].
  apply andb_true_iff. split; [by apply N.leb_le|].
  apply negb_true_iff. apply N.eqb_neq. lia.
Qed.

Lemma printable_flat text : Forall printable text → flat text.
Proof. intros H. eapply Forall_impl; [exact H|]. apply printable_one_column. Qed.

Lemma flat_app s t : flat s → flat t → flat (s ++ t).
Proof. apply Forall_app_2. Qed.

Lemma flat_drop n s : flat s → flat (drop n s).
Proof. apply Forall_drop. Qed.

Lemma flat_take n s : flat s → flat (take n s).
Proof. apply Forall_take. Qed.

Lemma at_cursor_same win : curses.at_cursor win (curses.cury win) (curses.curx win) = win.
Proof. by destruct win. Qed.

(** A one-column character written before the last column moves the
    cursor one column to the right. *)
Lemma waddch_one_column c win :
  one_column c = true →
  0 <= curses.curx win → curses.curx win + 1 < curses.ncols win →
  curses.waddch c win
  = inr (curses.at_cursor win (curses.cury win) (curses.curx win + 1)).
Proof.
  intros Hc Hx Hroom. unfold one_column in Hc.
  apply andb_true_iff in Hc as [Hc Hcols]. apply andb_true_iff in Hc as [Hlo Hdel].
  apply N.leb_le in Hlo. apply negb_true_iff in Hdel. apply Z.eqb_eq in Hcols.
  unfold curses.waddch.
  assert ((c =? 9)%N = false) as -> by (apply N.eqb_neq; lia).
  assert ((c =? 10)%N = false) as -> by (apply N.eqb_neq; lia).
  assert ((c =? 13)%N = false) as -> by (apply N.eqb_neq; lia).
  assert ((c =? 8)%N = false) as -> by (apply N.eqb_neq; lia).
  assert ((c <? 32)%N = false) as -> by (apply N.ltb_ge; lia).
  rewrite Hdel, Hcols. simpl. unfold curses.put.
  assert ((curses.ncols win <? 1) = false) as -> by (apply Z.ltb_ge; lia).
  assert ((curses.ncols win <? curses.curx win + 1) = false) as ->
    by (apply Z.ltb_ge; lia).
  by assert ((curses.curx win + 1 <? curses.ncols win) = true) as ->
    by (apply Z.ltb_lt; lia).
Qed.

(** A flat text written on a line that has a column to spare after it
    moves the cursor right by its length. *)
Lemma waddchs_flat text win :
  flat text →
  0 <= curses.curx win → curses.curx win + len text < curses.ncols win →
  curses.waddchs text win
  = inr (curses.at_cursor win (curses.cury win) (curses.curx win + len text)).
Proof.
  revert win. induction text as [|c text IH]; intros win Hflat Hx Hroom; simpl.
  { unfold len. simpl. by rewrite Z.add_0_r, at_cursor_same. }
  apply Forall_cons in Hflat as [Hc Hflat].
  unfold len in *. simpl length in *.
  rewrite waddch_one_column by (done || lia).
  rewrite IH by (done || simpl; lia).
  unfold curses.at_cursor. simpl. do 2 f_equal. lia.
Qed.

Lemma flat_no_null text : flat text → 0%N ∉ text.
Proof.
  intros Hflat Hin. unfold flat in Hflat. rewrite Forall_forall in Hflat.
  by specialize (Hflat _ Hin).
Qed.

Lemma waddstr_flat text attr win :
  flat text → curses.fits_long attr = true →
  0 <= curses.curx win → curses.curx win + len text < curses.ncols win →
  curses.waddstr text attr win
  = inr (curses.at_cursor win (curses.cury win) (curses.curx win + len text)).
Proof.
  intros Hflat Hattr Hx Hroom. unfold curses.waddstr. rewrite Hattr. simpl.
  rewrite bool_decide_eq_false_2 by by apply flat_no_null.
  by apply waddchs_flat.
Qed.

Lemma land_bounds s d : 0 <= d → 0 <= Z.land s d <= d.
Proof.
  intros Hd. split; [apply Z.land_nonneg; by right|].
  pose proof (Z.lor_ldiff_and d s) as Hsplit.
  pose proof (Z.add_lor_land (Z.ldiff d s) (Z.land d s)) as Hadd.
  assert (Z.land (Z.ldiff d s) (Z.land d s) = 0) as Hdisjoint.
  { rewrite (Z.land_comm d s), Z.land_assoc, Z.land_ldiff. apply Z.land_0_l. }
  assert (0 <= Z.ldiff d s) by (apply Z.ldiff_nonneg; by left).
  rewrite (Z.land_comm s d). lia.
Qed.

(** The attribute of a dimmed chunk fits a C [long] when the style of the
    chunk does. *)
Lemma lor_fits_long s d :
  curses.fits_long s = true → 0 <= d < 2 ^ 63 →
  curses.fits_long (Z.lor s d) = true.
Proof.
  unfold curses.fits_long. intros Hs Hd.
  apply andb_true_iff in Hs as [Hlo Hhi].
  apply Z.leb_le in Hlo. apply Z.ltb_lt in Hhi.
  pose proof (land_bounds s d ltac:(lia)) as Hland.
  pose proof (Z.add_lor_land s d) as Hadd.
  apply andb_true_iff. split; [apply Z.leb_le; lia|]. apply Z.ltb_lt.
  destruct (decide (s < 0)) as [Hneg|Hpos].
  { assert (Z.lor s d < 0) by (apply Z.lor_neg; by left). lia. }
  destruct (decide (Z.lor s d = 0)) as [->|Hnz]; [done|].
  assert (0 <= Z.lor s d) by (apply Z.lor_nonneg; lia).
  apply Z.log2_lt_pow2; [lia|].
  rewrite Z.log2_lor by lia.
  destruct (decide (s = 0)) as [->|Hs0]; destruct (decide (d = 0)) as [->|Hd0];
    simpl; try lia.
  - apply Z.max_lub_lt; [done|]. apply Z.log2_lt_pow2; lia.
  - apply Z.max_lub_lt; [|done]. apply Z.log2_lt_pow2; lia.
  - apply Z.max_lub_lt; apply Z.log2_lt_pow2; lia.
Qed.

Lemma wmove_inside y x win :
  0 <= y < curses.nlines win → 0 <= x < curses.ncols win →
  curses.wmove y x win = inr (curses.at_cursor win y x).
Proof.
  intros Hy Hx. unfold curses.wmove.
  assert ((0 <=? y) && (y <? curses.nlines win) && (0 <=? x)
          && (x <? curses.ncols win) = true) as ->; [|done].
  repeat (apply andb_true_iff; split);
    first [apply Z.leb_le; lia | apply Z.ltb_lt; lia].
Qed.

Lemma mvwaddstr_flat y x text win :
  flat text →
  0 <= y < curses.nlines win → 0 <= x → x + len text < curses.ncols win →
  curses.mvwaddstr y x text win = inr (curses.at_cursor win y (x + len text)).
Proof.
  intros Hflat Hy Hx Hroom. unfold curses.mvwaddstr.
  rewrite bool_decide_eq_false_2 by by apply flat_no_null.
  pose proof (len_nonneg text).
  rewrite wmove_inside by lia.
  by rewrite waddchs_flat by (done || simpl; lia).
Qed.

(** The calls on a window keep its size. *)
Lemma wrap_to_next_line_size win win' :
  curses.wrap_to_next_line win = inr win' →
  curses.nlines win' = curses.nlines win ∧ curses.ncols win' = curses.ncols win.
Proof. unfold curses.wrap_to_next_line. case_match; [|done]. by intros [= <-]. Qed.

Lemma put_size cells win win' :
  curses.put cells win = inr win' →
  curses.nlines win' = curses.nlines win ∧ curses.ncols win' = curses.ncols win.
Proof.
  unfold curses.put. intros H.
  repeat (case_match; simplify_eq);
    repeat match goal with
      | E : curses.wrap_to_next_line _ = inr _ |- _ =>
          apply wrap_to_next_line_size in E as [? ?]
      end; simpl in *; split; congruence.
Qed.

Lemma waddch_size c win win' :
  curses.waddch c win = inr win' →
  curses.nlines win' = curses.nlines win ∧ curses.ncols win' = curses.ncols win.
Proof.
  unfold curses.waddch. intros H.
  repeat (case_match; simplify_eq);
    repeat match goal with
      | E : curses.wrap_to_next_line _ = inr _ |- _ =>
          apply wrap_to_next_line_size in E as [? ?]
      | E : curses.put _ _ = inr _ |- _ => apply put_size in E as [? ?]
      end; simpl in *; split; congruence.
Qed.

Lemma waddchs_size text win win' :
  curses.waddchs text win = inr win' →
  curses.nlines win' = curses.nlines win ∧ curses.ncols win' = curses.ncols win.
Proof.
  revert win. induction text as [|c text IH]; intros win; simpl.
  { by intros [= <-]. }
  destruct (curses.waddch c win) as [|win1] eqn:E; [done|].
  intros H. apply IH in H as [? ?]. apply waddch_size in E as [? ?].
  split; congruence.
Qed.

Lemma waddstr_size text attr win win' :
  curses.waddstr text attr win = inr win' →
  curses.nlines win' = curses.nlines win ∧ curses.ncols win' = curses.ncols win.
Proof.
  unfold curses.waddstr. do 2 (case_match; [done|]). apply waddchs_size.
Qed.

Lemma wmove_size y x win win' :
  curses.wmove y x win = inr win' →
  curses.nlines win' = curses.nlines win ∧ curses.ncols win' = curses.ncols win.
Proof. unfold curses.wmove. case_match; [|done]. by intros [= <-]. Qed.

(** A newline cannot be written on the last line of a window. *)
Lemma waddchs_newline_on_last_line before after win :
  flat before →
  0 <= curses.curx win → curses.curx win + len before < curses.ncols win →
  curses.nlines win <= curses.cury win + 1 →
  curses.waddchs (before ++ 10%N :: after) win = inl curses_error.
Proof.
  revert win. induction before as [|c before IH]; intros win Hflat Hx Hroom Hlast.
  { simpl. unfold curses.waddch, curses.wrap_to_next_line. simpl.
    by assert ((curses.cury win + 1 <? curses.nlines win) = false) as ->
      by (apply Z.ltb_ge; lia). }
  apply Forall_cons in Hflat as [Hc Hflat]. unfold len in Hroom. simpl in *.
  rewrite waddch_one_column by (done || lia).
  apply IH; simpl; try done; unfold len; lia.
Qed.

(** ** Drawing *)

Lemma line_width_cons phrase style l :
  line_width ((phrase, style) :: l) = len phrase + line_width l.
Proof. unfold line_width. simpl. by rewrite len_app. Qed.

Lemma line_width_nonneg l : 0 <= line_width l.
Proof. apply len_nonneg. Qed.

Lemma stale_after_cons history_index phrase style l stale c :
  stale_after history_index ((c :: phrase, style) :: l) stale
  = stale_after history_index l
      (if history_index =? 0
       then if (c =? sigil_command)%N then true else stale
       else stale).
Proof.
  unfold stale_after, marks_command. simpl.
  destruct (history_index =? 0); [|done].
  destruct (c =? sigil_command)%N; simpl; [by rewrite orb_true_r|done].
Qed.

(** What [draw] does with a line it can write: every chunk is written
    with its own style and the style of the line, and the cursor ends
    after the line. *)
Lemma draw_line_writes history_index line_style l stale box :
  Forall (λ c, flat c.1 ∧ curses.fits_long c.2 = true) l →
  0 <= line_style < 2 ^ 63 →
  0 <= curses.curx box →
  curses.curx box + line_width l < curses.ncols box →
  (history_index = 0 → nonempty_chunks l) →
  Msgbox.draw_line history_index line_style l stale box
  = inr (render line_style l, stale_after history_index l stale,
         curses.at_cursor box (curses.cury box) (curses.curx box + line_width l)).
Proof.
  intros Hflat Hstyle. revert stale box Hflat.
  induction l as [|[phrase chunk_style] l IH]; intros stale box Hflat Hx Hroom Hne.
  { simpl. unfold stale_after, line_width, len. simpl.
    rewrite Z.add_0_r, at_cursor_same.
    by destruct (history_index =? 0); [rewrite orb_false_r|]. }
  apply Forall_cons in Hflat as [[Hp Hattr] Hflat]. simpl in Hp, Hattr.
  rewrite line_width_cons in Hroom.
  pose proof (len_nonneg phrase). pose proof (line_width_nonneg l).
  cbn [Msgbox.draw_line].
  assert (∀ stale',
    match curses.waddstr phrase (Z.lor chunk_style line_style) box with
    | inl e => inl e
    | inr box' =>
        match Msgbox.draw_line history_index line_style l stale' box' with
        | inl e => inl e
        | inr (ops, stale'', box'') =>
            inr (curses.addstr phrase (Z.lor chunk_style line_style) :: ops,
                 stale'', box'')
        end
    end
    = inr (render line_style ((phrase, chunk_style) :: l),
           stale_after history_index l stale',
           curses.at_cursor box (curses.cury box)
             (curses.curx box + line_width ((phrase, chunk_style) :: l))))
    as Hrest.
  { intros stale'.
    rewrite waddstr_flat by (done || lia || by apply lor_fits_long).
    rewrite IH; simpl; try done; try lia.
    - rewrite line_width_cons. unfold curses.at_cursor. simpl.
      do 3 f_equal. lia.
    - intros Hidx. specialize (Hne Hidx). by apply Forall_cons in Hne as [_ ?]. }
  destruct (history_index =? 0) eqn:Hidx.
  - apply Z.eqb_eq in Hidx. specialize (Hne Hidx).
    apply Forall_cons in Hne as [Hphrase _]. simpl in Hphrase.
    destruct phrase as [|c phrase]; [done|].
    rewrite Hrest. rewrite stale_after_cons.
    apply Z.eqb_eq in Hidx. by rewrite Hidx.
  - rewrite Hrest. do 2 f_equal. unfold stale_after. by rewrite Hidx.
Qed.

(** A chunk with an empty text stops [draw] while the box is not paged:
    [phrase[0]] raises, unless a write before it fails. *)
Lemma draw_line_empty_chunk line_style l stale box :
  ¬ nonempty_chunks l →
  ∃ e, Msgbox.draw_line 0 line_style l stale box = inl e
       ∧ (Forall (λ c, flat c.1 ∧ curses.fits_long c.2 = true) l →
          0 <= line_style < 2 ^ 63 → 0 <= curses.curx box →
          curses.curx box + line_width l < curses.ncols box → e = IndexError).
Proof.
  revert stale box.
  induction l as [|[phrase chunk_style] l IH]; intros stale box Hne.
  { exfalso. apply Hne. constructor. }
  cbn [Msgbox.draw_line]. change (0 =? 0) with true. cbv iota.
  destruct phrase as [|c phrase]; [by eexists|].
  assert (¬ nonempty_chunks l) as Hl.
  { intros Hl. apply Hne. by constructor. }
  destruct (curses.waddstr (c :: phrase) _ box) as [e|box'] eqn:Hwrite.
  { exists e. split; [done|]. intros Hflat Hstyle Hx Hroom.
    apply Forall_cons in Hflat as [[Hp Hattr] _]. simpl in Hp, Hattr.
    rewrite line_width_cons in Hroom. pose proof (line_width_nonneg l).
    rewrite waddstr_flat in Hwrite by (done || lia || by apply lor_fits_long).
    done. }
  destruct (IH (if (c =? sigil_command)%N then true else stale) box' Hl)
    as (e & -> & He).
  exists e. split; [done|]. intros Hflat Hstyle Hx Hroom.
  apply Forall_cons in Hflat as [[Hp Hattr] Hflat]. simpl in Hp, Hattr.
  rewrite line_width_cons in Hroom.
  pose proof (line_width_nonneg l). pose proof (len_nonneg (c :: phrase)).
  rewrite waddstr_flat in Hwrite by (done || lia || by apply lor_fits_long).
  injection Hwrite as <-.
  apply He; simpl; try done; lia.
Qed.

(** What [draw] has done when it gets through a line. *)
Lemma draw_line_inr history_index line_style l stale box ops stale' box' :
  Msgbox.draw_line history_index line_style l stale box = inr (ops, stale', box') →
  ops = render line_style l
  ∧ stale' = stale_after history_index l stale
  ∧ (history_index = 0 → nonempty_chunks l)
  ∧ curses.nlines box' = curses.nlines box
  ∧ curses.ncols box' = curses.ncols box.
Proof.
  revert stale box ops stale' box'.
  induction l as [|[phrase chunk_style] l IH]; intros stale box ops stale' box'.
  { simpl. intros [= <- <- <-]. unfold stale_after, marks_command. simpl.
    repeat split; try done; [|constructor].
    by destruct (history_index =? 0); [rewrite orb_false_r|]. }
  cbn [Msgbox.draw_line]. intros H.
  destruct (history_index =? 0) eqn:Hidx.
  - destruct phrase as [|c phrase]; [done|].
    destruct (curses.waddstr (c :: phrase) _ box) as [|box1] eqn:Hwrite; [done|].
    destruct (Msgbox.draw_line _ _ l _ box1) as [|[[ops1 stale1] box2]] eqn:Hl;
      [done|].
    injection H as <- <- <-.
    apply IH in Hl as (-> & -> & Hne & Hn & Hc).
    apply waddstr_size in Hwrite as [? ?].
    rewrite stale_after_cons, Hidx.
    repeat split; try done; try congruence.
    intros Hz. constructor; [done|]. by apply Hne.
  - destruct (curses.waddstr phrase _ box) as [|box1] eqn:Hwrite; [done|].
    destruct (Msgbox.draw_line _ _ l _ box1) as [|[[ops1 stale1] box2]] eqn:Hl;
      [done|].
    injection H as <- <- <-.
    apply IH in Hl as (-> & -> & Hne & Hn & Hc).
    apply waddstr_size in Hwrite as [? ?].
    apply Z.eqb_neq in Hidx as Hidx'.
    repeat split; try done; try congruence.
    unfold stale_after. by rewrite Hidx.
Qed.

Lemma deque_index_lookup {A} (d : deque A) (i : Z) :
  0 <= i < len (items d) → ∃ x, deque_index d i = Some x ∧ x ∈ items d.
Proof.
  intros Hi. unfold deque_index, len in *.
  destruct (i <? 0) eqn:E; [lia|].
  destruct (lookup_lt_is_Some_2 (items d) (Z.to_nat i) ltac:(lia)) as [x Hx].
  exists x. split; [done|]. by eapply list_elem_of_lookup_2.
Qed.

Lemma dim_or_same_style (stale : bool) line_style :
  0 <= line_style < 2 ^ 63 →
  0 <= (if stale then curses.A_DIM else line_style) < 2 ^ 63.
Proof. intros H. destruct stale; [by vm_compute|done]. Qed.

(** One turn of the loop over the rows, on a line that can be written. *)
Lemma draw_rows_step self compensate_paging i rows stale line_style box l :
  box_of self box →
  0 <= Msgbox.h self - 1 - compensate_paging - i < Msgbox.h self →
  deque_index (Msgbox.history self) (i + Msgbox.history_index self) = Some l →
  writable (Msgbox.w self) l →
  0 <= line_style < 2 ^ 63 →
  (Msgbox.history_index self = 0 → nonempty_chunks l) →
  Msgbox.draw_rows self compensate_paging (i :: rows) stale line_style box
  = match
      Msgbox.draw_rows self compensate_paging rows
        (stale_after (Msgbox.history_index self) l stale)
        (if stale then curses.A_DIM else line_style)
        (curses.at_cursor box (Msgbox.h self - 1 - compensate_paging - i)
           (line_width l))
    with
    | inl e => inl e
    | inr (ops', box') =>
        inr (curses.move (Msgbox.h self - 1 - compensate_paging - i) 0
               :: render (if stale then curses.A_DIM else line_style) l ++ ops',
             box')
    end.
Proof.
  intros [Hn Hc] Hy Hl [Hfit Hflat] Hstyle Hne. cbn [Msgbox.draw_rows].
  pose proof (line_width_nonneg l). unfold fits in Hfit.
  rewrite wmove_inside by lia. rewrite Hl.
  rewrite draw_line_writes; [|done| |simpl; lia|simpl; lia|done].
  - simpl. by rewrite Z.add_0_l.
  - by apply dim_or_same_style.
Qed.

Lemma draw_rows_total self compensate_paging rows stale line_style box :
  box_of self box →
  0 <= line_style < 2 ^ 63 →
  Forall (λ i, 0 <= i + Msgbox.history_index self
               < len (items (Msgbox.history self))
               ∧ 0 <= Msgbox.h self - 1 - compensate_paging - i
                 < Msgbox.h self) rows →
  Forall (writable (Msgbox.w self)) (items (Msgbox.history self)) →
  (Msgbox.history_index self = 0 →
   Forall nonempty_chunks (items (Msgbox.history self))) →
  ∃ ops box',
    Msgbox.draw_rows self compensate_paging rows stale line_style box
    = inr (ops, box').
Proof.
  revert stale line_style box.
  induction rows as [|i rows IH];
    intros stale line_style box Hbox Hstyle Hrows Hw Hne.
  { simpl. eauto. }
  apply Forall_cons in Hrows as [[Hi Hy] Hrows].
  destruct (deque_index_lookup (Msgbox.history self) _ Hi) as (l & Hl & Hin).
  assert (writable (Msgbox.w self) l) as Hwl.
  { rewrite Forall_forall in Hw. by apply Hw. }
  assert (Msgbox.history_index self = 0 → nonempty_chunks l) as Hnl.
  { intros Hz. specialize (Hne Hz). rewrite Forall_forall in Hne. by apply Hne. }
  rewrite (draw_rows_step _ _ _ _ _ _ _ l) by done.
  edestruct (IH (stale_after (Msgbox.history_index self) l stale)
                (if stale then curses.A_DIM else line_style)) as (ops & box' & ->);
    [| by apply dim_or_same_style | exact Hrows | exact Hw | exact Hne | eauto].
  destruct Hbox. by split.
Qed.

Lemma seqZ_rows self compensate_paging :
  0 <= Msgbox.history_index self → 0 <= compensate_paging →
  Forall (λ i, 0 <= i + Msgbox.history_index self
               < len (items (Msgbox.history self))
               ∧ 0 <= Msgbox.h self - 1 - compensate_paging - i
                 < Msgbox.h self)
    (seqZ 0 (Z.min (Msgbox.h self - compensate_paging)
                   (len (items (Msgbox.history self))
                    - Msgbox.history_index self))).
Proof.
  intros Hidx Hc. apply Forall_forall. intros i Hi. apply elem_of_seqZ in Hi. lia.
Qed.

Lemma ellipsis_flat : flat [ellipsis].
Proof. repeat constructor. Qed.

Lemma draw_ops_total self :
  1 <= Msgbox.h self → 1 <= Msgbox.w self →
  0 <= Msgbox.history_index self →
  Forall (writable (Msgbox.w self)) (items (Msgbox.history self)) →
  (Msgbox.history_index self = 0 →
   Forall nonempty_chunks (items (Msgbox.history self))) →
  ∃ ops, Msgbox.draw_ops self = inr ops.
Proof.
  intros Hh Hw Hidx Hwr Hne. unfold Msgbox.draw_ops.
  destruct (Msgbox.history_index self =? 0) eqn:E; simpl.
  - destruct (draw_rows_total self 0
                (seqZ 0 (Z.min (Msgbox.h self - 0)
                           (len (items (Msgbox.history self))
                            - Msgbox.history_index self)))
                false curses.A_NORMAL (curses.werase (Msgbox.box self)))
      as (ops & box' & ->);
      [by split|by vm_compute|by apply seqZ_rows|done|done|eauto].
  - rewrite mvwaddstr_flat; cycle 1.
    { apply ellipsis_flat. }
    { simpl. lia. }
    { apply Z.div_pos; lia. }
    { simpl. unfold len. simpl.
      assert (Msgbox.w self / 2 < Msgbox.w self); [|lia].
      apply Z.div_lt; lia. }
    edestruct (draw_rows_total self 1
                (seqZ 0 (Z.min (Msgbox.h self - 1)
                           (len (items (Msgbox.history self))
                            - Msgbox.history_index self)))
                false curses.A_NORMAL) as (ops & box' & ->);
      [|by vm_compute|by apply seqZ_rows|done|done|eauto].
    by split.
Qed.

Lemma draw_returns (self : Msgbox.t) :
  1 <= Msgbox.h self → 1 <= Msgbox.w self →
  0 <= Msgbox.history_index self →
  Forall (writable (Msgbox.w self)) (items (Msgbox.history self)) →
  (∀ l c, l ∈ items (Msgbox.history self) → c ∈ l → c.1 ≠ []) →
  ∃ ops, Msgbox.draw self = Return ops self.
Proof.
  intros Hh Hw Hidx Hwr Hne. unfold Msgbox.draw.
  destruct (draw_ops_total self Hh Hw Hidx Hwr) as [ops ->]; [|eauto].
  intros _. apply Forall_forall. intros l Hl.
  apply Forall_forall. intros c Hc. by eapply Hne.
Qed.

(** While the box is not paged, [draw] does not get past a line on screen
    that has a chunk with an empty text. *)
Lemma draw_rows_empty_chunk self compensate_paging rows stale line_style box
  (i : nat) (l : list (list N * Z)) :
  Msgbox.history_index self = 0 →
  Z.of_nat i ∈ rows →
  items (Msgbox.history self) !! i = Some l →
  ¬ nonempty_chunks l →
  ∃ e, Msgbox.draw_rows self compensate_paging rows stale line_style box = inl e
       ∧ (box_of self box →
          0 <= line_style < 2 ^ 63 →
          Forall (λ j, 0 <= j < len (items (Msgbox.history self))
                       ∧ 0 <= Msgbox.h self - 1 - compensate_paging - j
                         < Msgbox.h self) rows →
          Forall (writable (Msgbox.w self)) (items (Msgbox.history self)) →
          e = IndexError).
Proof.
  intros Hidx Hin Hl Hempty. revert stale line_style box.
  induction rows as [|j rows IH]; intros stale line_style box.
  { by apply elem_of_nil in Hin. }
  cbn [Msgbox.draw_rows]. rewrite Hidx.
  destruct (curses.wmove (Msgbox.h self - 1 - compensate_paging - j) 0 box)
    as [e|box1] eqn:Hmove.
  { exists e. split; [done|]. intros [Hn Hc] Hstyle Hrows Hwr.
    apply Forall_cons in Hrows as [[Hj Hy] _].
    assert (0 <= Msgbox.w self).
    { rewrite Forall_forall in Hwr. apply list_elem_of_lookup_2 in Hl.
      destruct (Hwr l Hl) as [Hfit _]. unfold fits in Hfit.
      pose proof (line_width_nonneg l). lia. }
    rewrite wmove_inside in Hmove by lia. done. }
  destruct (deque_index (Msgbox.history self) (j + 0)) as [lj|] eqn:Hj.
  2:{ exists IndexError. done. }
  assert (curses.curx box1 = 0 ∧ (box_of self box → box_of self box1))
    as [Hx1 Hbox1].
  { unfold curses.wmove in Hmove. case_match; [|done]. injection Hmove as <-.
    split; [done|]. intros [? ?]. by split. }
  destruct (Msgbox.draw_line 0 (if stale then curses.A_DIM else line_style) lj
              stale box1) as [e|[[ops stale'] box2]] eqn:Hline.
  { exists e. split; [done|]. intros Hbox Hstyle Hrows Hwr.
    apply Forall_cons in Hrows as [[Hjr Hy] _].
    pose proof (dim_or_same_style stale line_style Hstyle) as Hstyle'.
    destruct (deque_index_lookup (Msgbox.history self) (j + 0) ltac:(lia))
      as (lj' & Hj' & Hjin).
    rewrite Hj in Hj'. injection Hj' as <-.
    rewrite Forall_forall in Hwr. destruct (Hwr lj Hjin) as [Hfit Hflat].
    destruct (Hbox1 Hbox) as [_ Hc1]. unfold fits in Hfit.
    destruct (decide (Forall (λ c : list N * Z, c.1 ≠ []) lj)) as [Hne|Hne].
    - rewrite draw_line_writes in Hline; try done; lia.
    - destruct (draw_line_empty_chunk (if stale then curses.A_DIM else line_style)
                  lj stale box1 Hne) as (e' & He' & Hidxerr).
      rewrite Hline in He'. injection He' as <-.
      apply Hidxerr; try done; lia. }
  apply elem_of_cons in Hin as [<-|Hin].
  - exfalso. unfold deque_index in Hj.
    destruct (Z.of_nat i + 0 <? 0) eqn:E; [apply Z.ltb_lt in E; lia|].
    replace (Z.to_nat (Z.of_nat i + 0)) with i in Hj by lia.
    rewrite Hl in Hj. injection Hj as <-.
    destruct (draw_line_empty_chunk (if stale then curses.A_DIM else line_style)
                l stale box1 Hempty) as (e' & He' & _).
    by rewrite Hline in He'.
  - destruct (IH Hin stale' (if stale then curses.A_DIM else line_style) box2)
      as (e & -> & He).
    exists e. split; [done|]. intros Hbox Hstyle Hrows Hwr.
    apply Forall_cons in Hrows as [_ Hrows].
    apply He; try done; [|by apply dim_or_same_style].
    apply draw_line_inr in Hline as (_ & _ & _ & Hn2 & Hc2).
    destruct (Hbox1 Hbox) as [Hn1 Hc1]. split; congruence.
Qed.

Lemma draw_raises (self : Msgbox.t) (i : nat) (l : list (list N * Z)) :
  Msgbox.history_index self = 0 →
  Z.of_nat i < Msgbox.h self →
  items (Msgbox.history self) !! i = Some l →
  ¬ nonempty_chunks l →
  ∃ e, Msgbox.draw self = Raise e self
       ∧ (Forall (writable (Msgbox.w self)) (items (Msgbox.history self)) →
          e = IndexError).
Proof.
  intros Hidx Hi Hl Hempty. unfold Msgbox.draw, Msgbox.draw_ops.
  rewrite Hidx. change (negb (0 =? 0)) with false. cbv iota.
  edestruct (draw_rows_empty_chunk self 0
               (seqZ 0 (Z.min (Msgbox.h self - 0)
                          (len (items (Msgbox.history self)) - 0)))
               false curses.A_NORMAL (curses.werase (Msgbox.box self)) i l)
    as (e & -> & He); try done.
  { apply elem_of_seqZ. apply lookup_lt_Some in Hl. unfold len. lia. }
  exists e. split; [done|]. intros Hwr. apply He; [by split|by vm_compute| |done].
  apply Forall_forall. intros j Hj. apply elem_of_seqZ in Hj. lia.
Qed.

(** C10, as the code has it. [draw] reads the first character of each
    chunk it draws while the box is not paged. On a box of one line and
    one column or more whose lines can be written (they fit the width and
    hold one-column characters only), it returns when every chunk has a
    text that is not empty; and while the box is not paged it returns only
    if the chunks of the lines on screen have a text that is not empty.
    [append] accepts the empty string, and the [draw] that follows raises
    [IndexError]. *)
Theorem draw_returns_on_writable_lines (self : Msgbox.t) :
  1 <= Msgbox.h self → 1 <= Msgbox.w self →
  0 <= Msgbox.history_index self →
  Forall (writable (Msgbox.w self)) (items (Msgbox.history self)) →
  ((∀ l c, l ∈ items (Msgbox.history self) → c ∈ l → c.1 ≠ []) →
   ∃ ops, Msgbox.draw self = Return ops self)
  ∧ (Msgbox.history_index self = 0 →
     (∃ ops, Msgbox.draw self = Return ops self) →
     ∀ (i : nat) l c,
       Z.of_nat i < Msgbox.h self →
       items (Msgbox.history self) !! i = Some l → c ∈ l → c.1 ≠ [])
  ∧ (∃ blank,
       Msgbox.append 1 [Str []] [sigil_plain] (Msgbox.Make 3 10 1 0 (Deque [] 30))
       = Return tt blank
       ∧ Msgbox.draw blank = Raise IndexError blank).
Proof.
  intros Hh Hw Hidx Hwr. split; [|split].
  - by apply draw_returns.
  - intros Hz [ops Hops] i l c Hi Hl Hc Hempty.
    destruct (draw_raises self i l Hz Hi Hl) as (e & He & _).
    + intros Hne. unfold nonempty_chunks in Hne. rewrite Forall_forall in Hne.
      by apply (Hne c Hc).
    + by rewrite Hops in He.
  - eexists. split; reflexivity.
Qed.

Lemma draw_returns_on_writable_lines_witness :
  ∃ ops, Msgbox.draw (Msgbox.Make 3 10 1 0
                        (Deque [[([sigil_plain; space], 0); (py "hello", 0)]] 30))
         = Return ops (Msgbox.Make 3 10 1 0
                         (Deque [[([sigil_plain; space], 0); (py "hello", 0)]] 30)).
Proof.
  apply (draw_returns_on_writable_lines
           (Msgbox.Make 3 10 1 0
              (Deque [[([sigil_plain; space], 0); (py "hello", 0)]] 30))).
  - simpl. lia.
  - simpl. lia.
  - simpl. lia.
  - simpl. repeat constructor; by vm_compute.
  - simpl. intros l c Hl Hc.
    apply list_elem_of_singleton in Hl. subst l.
    apply elem_of_cons in Hc as [->|Hc]; [done|].
    apply list_elem_of_singleton in Hc. by subst c.
Defined.

(** C10 as stated fails: a text that is not empty is not enough for
    [draw] to return. [append("a\nb")] stores the chunk with its newline;
    the line is drawn on the last row of the window, where curses cannot
    go to a next line, and [draw] raises [curses.error]. *)
Lemma draw_raises_on_newline :
  ∃ box,
    Msgbox.append 1 [Str [97; 10; 98]%N] [sigil_plain]
      (Msgbox.Make 3 10 1 0 (Deque [] 30)) = Return tt box
    ∧ (∀ l c, l ∈ items (Msgbox.history box) → c ∈ l → c.1 ≠ [])
    ∧ Msgbox.draw box = Raise curses_error box.
Proof.
  eexists. split; [reflexivity|]. split; [|reflexivity].
  simpl. intros l c Hl Hc.
  apply list_elem_of_singleton in Hl. subst l.
  apply elem_of_cons in Hc as [->|Hc]; [done|].
  apply list_elem_of_singleton in Hc. by subst c.
Qed.

(** X6. The condition of C10 is needed exactly for the lines that are
    drawn: while the box is not paged, a chunk with an empty text in one
    of the lines on screen makes [draw] raise. The exception is
    [IndexError] when the lines of the ring can be written; otherwise it
    may be that of a write that fails before the chunk is reached. *)
Theorem draw_raises_on_empty_chunk (self : Msgbox.t) (i : nat)
  (l : list (list N * Z)) :
  Msgbox.history_index self = 0 →
  Z.of_nat i < Msgbox.h self →
  items (Msgbox.history self) !! i = Some l →
  ¬ nonempty_chunks l →
  ∃ e, Msgbox.draw self = Raise e self
       ∧ (Forall (writable (Msgbox.w self)) (items (Msgbox.history self)) →
          e = IndexError).
Proof. apply draw_raises. Qed.

Lemma draw_raises_on_empty_chunk_witness :
  Msgbox.draw (Msgbox.Make 3 10 1 0
                 (Deque [ [([sigil_plain; space], 0); (py "b", 0)];
                          [([sigil_plain; space], 0); ([], 0)] ] 30))
  = Raise IndexError
      (Msgbox.Make 3 10 1 0
         (Deque [ [([sigil_plain; space], 0); (py "b", 0)];
                  [([sigil_plain; space], 0); ([], 0)] ] 30)).
Proof.
  destruct (draw_raises_on_empty_chunk
              (Msgbox.Make 3 10 1 0
                 (Deque [ [([sigil_plain; space], 0); (py "b", 0)];
                          [([sigil_plain; space], 0); ([], 0)] ] 30))
              1 [([sigil_plain; space], 0); ([], 0)]) as (e & -> & He).
  - reflexivity.
  - simpl. lia.
  - reflexivity.
  - intros H. apply Forall_cons in H as [_ H]. apply Forall_cons in H as [H _].
    by apply H.
  - rewrite He; [reflexivity|]. simpl. repeat constructor; by vm_compute.
Defined.

(** While the box is paged nothing is dimmed: every chunk is drawn with
    its own style. *)
Lemma draw_rows_paged self compensate_paging rows box ops box' :
  Msgbox.history_index self ≠ 0 →
  Msgbox.draw_rows self compensate_paging rows false curses.A_NORMAL box
  = inr (ops, box') →
  ∀ text attr, curses.addstr text attr ∈ ops →
    ∃ l, l ∈ items (Msgbox.history self) ∧ (text, attr) ∈ l.
Proof.
  intros Hidx. apply Z.eqb_neq in Hidx as Hidx'.
  revert box ops. induction rows as [|i rows IH]; intros box ops Hops text attr Hin.
  { simpl in Hops. injection Hops as <- <-. by apply elem_of_nil in Hin. }
  cbn [Msgbox.draw_rows] in Hops.
  destruct (curses.wmove _ _ box) as [|box1]; [done|].
  unfold deque_index in Hops.
  destruct (_ : option (list (list N * Z))) as [l|] eqn:Hl in Hops; [|done].
  assert (l ∈ items (Msgbox.history self)) as Hmem.
  { repeat case_match; simplify_eq; by eapply list_elem_of_lookup_2. }
  destruct (Msgbox.draw_line _ _ l false box1) as [|[[ops1 stale1] box2]] eqn:Hline;
    [done|].
  apply draw_line_inr in Hline as (-> & -> & _).
  unfold stale_after in Hops. rewrite Hidx' in Hops.
  destruct (Msgbox.draw_rows self compensate_paging rows false curses.A_NORMAL box2)
    as [|[ops' box3]] eqn:Hrows; [done|].
  injection Hops as <- <-.
  apply elem_of_cons in Hin as [Hin|Hin]; [done|].
  apply elem_of_app in Hin as [Hin|Hin]; [|by eapply IH].
  exists l. split; [done|]. unfold render in Hin.
  apply list_elem_of_fmap in Hin as ([p s] & Heq & Hc). simpl in Heq.
  injection Heq as -> ->. by rewrite Z.lor_0_r.
Qed.

(** X5. While the box is paged, every chunk drawn is a chunk of the ring
    drawn with its own style: no line is dimmed. *)
Theorem draw_paged_dims_nothing (self : Msgbox.t) (ops : list curses.op) :
  Msgbox.history_index self ≠ 0 →
  Msgbox.draw self = Return ops self →
  ∀ text attr, curses.addstr text attr ∈ ops →
    ∃ l, l ∈ items (Msgbox.history self) ∧ (text, attr) ∈ l.
Proof.
  intros Hidx Hdraw text attr Hin. unfold Msgbox.draw, Msgbox.draw_ops in Hdraw.
  apply Z.eqb_neq in Hidx as Hidx'. rewrite Hidx' in Hdraw. simpl in Hdraw.
  destruct (curses.mvwaddstr _ _ _ _) as [|box1]; [done|].
  destruct (Msgbox.draw_rows _ _ _ _ _ _) as [|[rows_ops box2]] eqn:Hrows; [done|].
  injection Hdraw as <-.
  apply elem_of_cons in Hin as [Hin|Hin]; [done|].
  apply elem_of_cons in Hin as [Hin|Hin]; [done|].
  apply elem_of_cons in Hin as [Hin|Hin]; [done|].
  apply elem_of_app in Hin as [Hin|Hin].
  - by eapply draw_rows_paged.
  - apply list_elem_of_singleton in Hin. done.
Qed.

Lemma draw_paged_dims_nothing_witness :
  ∃ l, l ∈ items (Msgbox.history (Msgbox.Make 6 20 2 2 (Deque quoting_scrollback 60)))
       ∧ (py "d", curses.A_NORMAL) ∈ l.
Proof.
  apply (draw_paged_dims_nothing
           (Msgbox.Make 6 20 2 2 (Deque quoting_scrollback 60))
           [ curses.curs_set 0; curses.erase;
             curses.addstr_at 5 10 [ellipsis];
             curses.move 4 0;
             curses.addstr [sigil_command; space] curses.A_NORMAL;
             curses.addstr (py "go") curses.A_BOLD;
             curses.move 3 0;
             curses.addstr [sigil_plain; space] curses.A_NORMAL;
             curses.addstr (py "c") curses.A_NORMAL;
             curses.move 2 0;
             curses.addstr [sigil_plain; space] curses.A_NORMAL;
             curses.addstr (py "d") curses.A_NORMAL;
             curses.refresh ]).
  - simpl. lia.
  - by vm_compute.
  - vm_compute. repeat (apply list_elem_of_here || apply list_elem_of_further).
Defined.

Lemma box_of_at_cursor self box y x :
  box_of self box → box_of self (curses.at_cursor box y x).
Proof. intros [? ?]. by split. Qed.

(** X4. The staleness boundary for ordinary text: with the five lines of the
    scrollback all visible, none of them too wide or with a character of
    another width than one, and the box not paged, when the command line is
    the first line that has a chunk beginning with "❱", the two newer
    lines and the command line are drawn with their own styles and the two
    older lines with the dim attribute added. *)
Theorem draw_dims_older_than_command (self : Msgbox.t)
  (p1 p2 c p3 p4 : list (list N * Z)) :
  Msgbox.history_index self = 0 →
  5 <= Msgbox.h self →
  items (Msgbox.history self) = [p1; p2; c; p3; p4] →
  Forall (writable (Msgbox.w self)) [p1; p2; c; p3; p4] →
  Forall nonempty_chunks [p1; p2; c; p3; p4] →
  marks_command p1 = false → marks_command p2 = false →
  marks_command c = true →
  Msgbox.draw self
  = Return ([curses.curs_set 0; curses.erase]
            ++ curses.move (Msgbox.h self - 1) 0 :: render curses.A_NORMAL p1
            ++ curses.move (Msgbox.h self - 2) 0 :: render curses.A_NORMAL p2
            ++ curses.move (Msgbox.h self - 3) 0 :: render curses.A_NORMAL c
            ++ curses.move (Msgbox.h self - 4) 0 :: render curses.A_DIM p3
            ++ curses.move (Msgbox.h self - 5) 0 :: render curses.A_DIM p4
            ++ [curses.refresh]) self.
Proof.
  intros Hidx Hh Hitems Hwr Hne H1 H2 Hc.
  unfold Msgbox.draw, Msgbox.draw_ops. rewrite Hidx, Hitems.
  change (negb (0 =? 0)) with false. cbv iota.
  replace (Z.min (Msgbox.h self - 0) (len [p1; p2; c; p3; p4] - 0)) with 5
    by (unfold len; simpl; lia).
  change (seqZ 0 5) with [0; 1; 2; 3; 4].
  apply Forall_cons in Hne as [N1 Hne]. apply Forall_cons in Hne as [N2 Hne].
  apply Forall_cons in Hne as [N3 Hne]. apply Forall_cons in Hne as [N4 Hne].
  apply Forall_cons in Hne as [N5 _].
  apply Forall_cons in Hwr as [W1 Hwr]. apply Forall_cons in Hwr as [W2 Hwr].
  apply Forall_cons in Hwr as [W3 Hwr]. apply Forall_cons in Hwr as [W4 Hwr].
  apply Forall_cons in Hwr as [W5 _].
  assert (box_of self (curses.werase (Msgbox.box self))) as Hbox by by split.
  assert (∀ (i : nat) l, [p1; p2; c; p3; p4] !! i = Some l →
            deque_index (Msgbox.history self)
              (Z.of_nat i + Msgbox.history_index self) = Some l) as Hget.
  { intros i l Hl. unfold deque_index. rewrite Hidx, Hitems.
    destruct (Z.of_nat i + 0 <? 0) eqn:E; [apply Z.ltb_lt in E; lia|].
    by replace (Z.to_nat (Z.of_nat i + 0)) with i by lia. }
  rewrite (draw_rows_step self 0 0 _ _ _ _ p1);
    [|done|lia|exact (Hget 0%nat p1 eq_refl)|done|by vm_compute|done].
  rewrite (draw_rows_step self 0 1 _ _ _ _ p2);
    [|by apply box_of_at_cursor|lia|exact (Hget 1%nat p2 eq_refl)|done
     |repeat case_match; by vm_compute|done].
  rewrite (draw_rows_step self 0 2 _ _ _ _ c);
    [|by apply box_of_at_cursor|lia|exact (Hget 2%nat c eq_refl)|done
     |repeat case_match; by vm_compute|done].
  rewrite (draw_rows_step self 0 3 _ _ _ _ p3);
    [|by apply box_of_at_cursor|lia|exact (Hget 3%nat p3 eq_refl)|done
     |repeat case_match; by vm_compute|done].
  rewrite (draw_rows_step self 0 4 _ _ _ _ p4);
    [|by apply box_of_at_cursor|lia|exact (Hget 4%nat p4 eq_refl)|done
     |repeat case_match; by vm_compute|done].
  unfold stale_after. rewrite Hidx. simpl. rewrite H1, H2, Hc. simpl.
  repeat first [rewrite <- app_assoc | rewrite <- app_comm_cons | rewrite app_nil_r].
  simpl.
  replace (Msgbox.h self - 1 - 0 - 0) with (Msgbox.h self - 1) by lia.
  replace (Msgbox.h self - 1 - 0 - 1) with (Msgbox.h self - 2) by lia.
  replace (Msgbox.h self - 1 - 0 - 2) with (Msgbox.h self - 3) by lia.
  replace (Msgbox.h self - 1 - 0 - 3) with (Msgbox.h self - 4) by lia.
  replace (Msgbox.h self - 1 - 0 - 4) with (Msgbox.h self - 5) by lia.
  reflexivity.
Qed.

Lemma draw_dims_older_than_command_witness :
  Msgbox.draw (Msgbox.Make 5 20 1 0
                 (Deque [ [([sigil_plain; space], 0); (py "b", 0)];
                          [([sigil_plain; space], 0); (py "a", 0)];
                          [([sigil_command; space], 0); (py "go", curses.A_BOLD)];
                          [([sigil_plain; space], 0); (py "c", 0)];
                          [([sigil_plain; space], 0); (py "d", 0)] ] 50))
  = Return ([curses.curs_set 0; curses.erase]
            ++ curses.move (5 - 1) 0
               :: render curses.A_NORMAL [([sigil_plain; space], 0); (py "b", 0)]
            ++ curses.move (5 - 2) 0
               :: render curses.A_NORMAL [([sigil_plain; space], 0); (py "a", 0)]
            ++ curses.move (5 - 3) 0
               :: render curses.A_NORMAL
                    [([sigil_command; space], 0); (py "go", curses.A_BOLD)]
            ++ curses.move (5 - 4) 0
               :: render curses.A_DIM [([sigil_plain; space], 0); (py "c", 0)]
            ++ curses.move (5 - 5) 0
               :: render curses.A_DIM [([sigil_plain; space], 0); (py "d", 0)]
            ++ [curses.refresh])
      (Msgbox.Make 5 20 1 0
         (Deque [ [([sigil_plain; space], 0); (py "b", 0)];
                  [([sigil_plain; space], 0); (py "a", 0)];
                  [([sigil_command; space], 0); (py "go", curses.A_BOLD)];
                  [([sigil_plain; space], 0); (py "c", 0)];
                  [([sigil_plain; space], 0); (py "d", 0)] ] 50)).
Proof.
  apply (draw_dims_older_than_command
           (Msgbox.Make 5 20 1 0
              (Deque [ [([sigil_plain; space], 0); (py "b", 0)];
                       [([sigil_plain; space], 0); (py "a", 0)];
                       [([sigil_command; space], 0); (py "go", curses.A_BOLD)];
                       [([sigil_plain; space], 0); (py "c", 0)];
                       [([sigil_plain; space], 0); (py "d", 0)] ] 50))).
  - reflexivity.
  - simpl. lia.
  - reflexivity.
  - simpl. repeat constructor; by vm_compute.
  - repeat constructor; discriminate.
  - reflexivity.
  - reflexivity.
  - reflexivity.
Defined.

(** C4, where the code departs from it: the staleness test looks at every
    chunk, not at the sigil chunk only. With the five lines of
    [quoting_scrollback] on screen (plain, plain, command, plain, plain by
    their leading glyphs, as five appends lay them out), the plain line
    that says "❱x" is taken for the most recent command, and the plain
    line and the command line above it are drawn dim. *)
Lemma draw_dims_after_quoted_sigil :
  Msgbox.draw (Msgbox.Make 5 20 1 0 (Deque quoting_scrollback 50))
  = Return
      [ curses.curs_set 0; curses.erase;
        curses.move 4 0;
        curses.addstr [sigil_plain; space] curses.A_NORMAL;
        curses.addstr [sigil_command; 120%N] curses.A_NORMAL;
        curses.move 3 0;
        curses.addstr [sigil_plain; space] curses.A_DIM;
        curses.addstr (py "b") curses.A_DIM;
        curses.move 2 0;
        curses.addstr [sigil_command; space] curses.A_DIM;
        curses.addstr (py "go") (Z.lor curses.A_BOLD curses.A_DIM);
        curses.move 1 0;
        curses.addstr [sigil_plain; space] curses.A_DIM;
        curses.addstr (py "c") curses.A_DIM;
        curses.move 0 0;
        curses.addstr [sigil_plain; space] curses.A_DIM;
        curses.addstr (py "d") curses.A_DIM;
        curses.refresh ]
      (Msgbox.Make 5 20 1 0 (Deque quoting_scrollback 50))
  ∧ leading_glyph <$> quoting_scrollback
    = [Some sigil_plain; Some sigil_plain; Some sigil_command;
       Some sigil_plain; Some sigil_plain]
  ∧ (∃ b1 b2 b3 b4,
       Msgbox.append 5 [Str (py "d")] [sigil_plain]
         (Msgbox.Make 5 20 1 0 (Deque [] 50)) = Return tt b1
       ∧ Msgbox.append 5 [Str (py "c")] [sigil_plain] b1 = Return tt b2
       ∧ Msgbox.append 5 [Tuple (py "go") curses.A_BOLD] [sigil_command] b2
         = Return tt b3
       ∧ Msgbox.append 5 [Str (py "b")] [sigil_plain] b3 = Return tt b4
       ∧ Msgbox.append 5 [Str [sigil_command; 120%N]] [sigil_plain] b4
         = Return tt (Msgbox.Make 5 20 1 0 (Deque quoting_scrollback 50))).
Proof.
  split; [reflexivity|]. split; [reflexivity|].
  do 4 eexists. repeat split; reflexivity.
Qed.

(** ** Paging *)

Lemma draw_after self : after (Msgbox.draw self) = Some self.
Proof. unfold Msgbox.draw. by destruct (Msgbox.draw_ops self). Qed.

(** [page_up] moves the offset by one page when more than a page of lines
    lies beyond it, and changes nothing otherwise; it leaves a message box
    whether or not its redraw raises. *)
Lemma page_up_moves_one_page (self : Msgbox.t) :
  after (Msgbox.page_up self)
  = Some (if decide (len (items (Msgbox.history self)) - Msgbox.history_index self
                     > Msgbox.page_size self)
          then Msgbox.set_history_index self
                 (Msgbox.history_index self + Msgbox.page_size self)
          else self).
Proof.
  unfold Msgbox.page_up.
  destruct (Msgbox.page_size self <? _) eqn:E.
  - apply Z.ltb_lt in E. rewrite decide_True by lia.
    pose proof (draw_after (Msgbox.set_history_index self
      (Msgbox.history_index self + Msgbox.page_size self))) as Hd.
    by destruct (Msgbox.draw _).
  - apply Z.ltb_ge in E. by rewrite decide_False by lia.
Qed.

(** [page_down] moves the offset back by one page when the offset is at
    least a page, and changes nothing otherwise. *)
Lemma page_down_moves_one_page (self : Msgbox.t) :
  after (Msgbox.page_down self)
  = Some (if decide (Msgbox.history_index self >= Msgbox.page_size self)
          then Msgbox.set_history_index self
                 (Msgbox.history_index self - Msgbox.page_size self)
          else self).
Proof.
  unfold Msgbox.page_down.
  destruct (Msgbox.page_size self <=? _) eqn:E.
  - apply Z.leb_le in E. rewrite decide_True by lia.
    pose proof (draw_after (Msgbox.set_history_index self
      (Msgbox.history_index self - Msgbox.page_size self))) as Hd.
    by destruct (Msgbox.draw _).
  - apply Z.leb_gt in E. by rewrite decide_False by lia.
Qed.

Lemma history0_append_size c self self' :
  Msgbox.history0_append c self = Some self' →
  length (items (Msgbox.history self')) = length (items (Msgbox.history self)).
Proof.
  unfold Msgbox.history0_append.
  destruct (items (Msgbox.history self)); [done|]. by intros [= <-].
Qed.

Lemma history_appendleft_size l self :
  (length (items (Msgbox.history self)) <= maxlen (Msgbox.history self))%nat →
  (length (items (Msgbox.history self))
   <= length (items (Msgbox.history (Msgbox.history_appendleft l self)))
   <= maxlen (Msgbox.history self))%nat.
Proof. intros H. simpl. rewrite length_take. simpl. lia. Qed.

Lemma grows_refl a :
  (length (items (Msgbox.history a)) <= maxlen (Msgbox.history a))%nat → grows a a.
Proof. intros H. split; [apply same_box_refl|lia]. Qed.

Lemma grows_trans a b c : grows a b → grows b c → grows a c.
Proof.
  intros [Hab Hlab] [Hbc Hlbc]. split; [by eapply same_box_trans|].
  destruct Hab as (_&_&_&_&Hm). lia.
Qed.

Lemma history0_append_grows c self self' :
  (length (items (Msgbox.history self)) <= maxlen (Msgbox.history self))%nat →
  Msgbox.history0_append c self = Some self' → grows self self'.
Proof.
  intros Hsize Happ. pose proof (history0_append_size c self self' Happ) as Hlen.
  assert (same_box self self') as Hsame.
  { unfold Msgbox.history0_append in Happ.
    destruct (items (Msgbox.history self)); [done|]. injection Happ as <-.
    by repeat split. }
  split; [done|]. lia.
Qed.

Lemma history_appendleft_grows l self :
  (length (items (Msgbox.history self)) <= maxlen (Msgbox.history self))%nat →
  grows self (Msgbox.history_appendleft l self).
Proof.
  intros Hsize. split; [by repeat split|]. by apply history_appendleft_size.
Qed.

Lemma grows_size a b : grows a b →
  (length (items (Msgbox.history b)) <= maxlen (Msgbox.history b))%nat.
Proof. intros [(_&_&_&_&Hm) Hl]. lia. Qed.

Lemma wrap_body_grows style phrase line_position self :
  (length (items (Msgbox.history self)) <= maxlen (Msgbox.history self))%nat →
  match Msgbox.wrap_body style phrase line_position self with
  | Msgbox.Break _ self' | Msgbox.Continue _ self' | Msgbox.Fail _ self' =>
      grows self self'
  end.
Proof.
  intros Hsize. unfold Msgbox.wrap_body.
  repeat (case_match; simplify_eq; try by apply grows_refl);
    try (by eapply history0_append_grows);
    try (by apply history_appendleft_grows).
  all: eapply grows_trans; [by eapply history0_append_grows|];
    apply history_appendleft_grows; eapply grows_size;
    by eapply history0_append_grows.
Qed.

Lemma wrap_loop_grows fuel style phrase line_position self :
  (length (items (Msgbox.history self)) <= maxlen (Msgbox.history self))%nat →
  match Msgbox.wrap_loop fuel style phrase line_position self with
  | Return _ self' | Raise _ self' => grows self self'
  | _ => True
  end.
Proof.
  revert phrase line_position self.
  induction fuel as [|fuel IH]; intros phrase line_position self Hsize; simpl; [done|].
  pose proof (wrap_body_grows style phrase line_position self Hsize) as Hb.
  destruct (Msgbox.wrap_body style phrase line_position self)
    as [|phrase' self'|]; try done.
  specialize (IH phrase' 2 self' (grows_size _ _ Hb)).
  destruct (Msgbox.wrap_loop fuel style phrase' 2 self'); try done;
    by eapply grows_trans.
Qed.

Lemma append_chunks_grows fuel chunks line_position self :
  (length (items (Msgbox.history self)) <= maxlen (Msgbox.history self))%nat →
  match Msgbox.append_chunks fuel chunks line_position self with
  | Return _ self' | Raise _ self' => grows self self'
  | _ => True
  end.
Proof.
  revert line_position self.
  induction chunks as [|c chunks IH]; intros line_position self Hsize; simpl.
  { by apply grows_refl. }
  destruct c as [phrase|phrase style|name]; [| |by apply grows_refl].
  - pose proof (wrap_loop_grows fuel curses.A_NORMAL phrase line_position self Hsize) as Hl.
    destruct (Msgbox.wrap_loop _ _ _ _ _) as [lp' self'| | |]; try done.
    specialize (IH lp' self' (grows_size _ _ Hl)).
    destruct (Msgbox.append_chunks fuel chunks lp' self'); try done;
      by eapply grows_trans.
  - pose proof (wrap_loop_grows fuel style phrase line_position self Hsize) as Hl.
    destruct (Msgbox.wrap_loop _ _ _ _ _) as [lp' self'| | |]; try done.
    specialize (IH lp' self' (grows_size _ _ Hl)).
    destruct (Msgbox.append_chunks fuel chunks lp' self'); try done;
      by eapply grows_trans.
Qed.

Lemma append_grows fuel chunks sigil self :
  (length (items (Msgbox.history self)) <= maxlen (Msgbox.history self))%nat →
  match Msgbox.append fuel chunks sigil self with
  | Return _ self' | Raise _ self' => grows self self'
  | _ => True
  end.
Proof.
  intros Hsize. unfold Msgbox.append.
  set (self1 := Msgbox.history_appendleft _ self).
  assert (grows self self1) as H1 by by apply history_appendleft_grows.
  pose proof (append_chunks_grows fuel chunks 2 self1 (grows_size _ _ H1)) as Hc.
  destruct (Msgbox.append_chunks fuel chunks 2 self1); try done;
    by eapply grows_trans.
Qed.

Lemma init_paging_inv h w box : Msgbox.init h w = inr box → paging_inv box.
Proof.
  unfold Msgbox.init. destruct ((h <? 0) || (w + 1 <? 0)) eqn:E; [done|].
  intros [= <-]. apply orb_false_iff in E as [E _].
  apply Z.ltb_ge in E. unfold paging_inv, len. simpl.
  repeat split; try lia. apply Z.div_pos; lia.
Qed.

Lemma run_call_paging_inv fuel c self self' :
  paging_inv self → after (run_call fuel c self) = Some self' → paging_inv self'.
Proof.
  intros (Hps & Hsize & Hidx) Hafter. destruct c as [| |chunks sigil]; simpl in Hafter.
  - rewrite page_up_moves_one_page in Hafter. injection Hafter as <-.
    case_decide; unfold paging_inv; simpl; repeat split; try done; lia.
  - rewrite page_down_moves_one_page in Hafter. injection Hafter as <-.
    case_decide; unfold paging_inv; simpl; repeat split; try done; lia.
  - pose proof (append_grows fuel chunks sigil self Hsize) as Hg.
    assert (grows self self') as [(_&_&Hp&Hi&Hm) Hl].
    { destruct (Msgbox.append fuel chunks sigil self); simpl in Hafter;
        simplify_eq; done. }
    unfold paging_inv, len in *. rewrite Hp, Hi, Hm. repeat split; lia.
Qed.

(** X2. The paging clamp: whatever calls of [page_up], [page_down] and
    [append] follow [__init__], the paging offset stays between 0 and the
    number of lines of the ring; [page_up] adds a page to the offset when
    more than a page of lines lies beyond it and [page_down] takes a page
    off when the offset is at least a page, and otherwise they change
    nothing. *)
Theorem paging_clamp (h w : Z) (box self : Msgbox.t) :
  Msgbox.init h w = inr box →
  reachable box self →
  0 <= Msgbox.history_index self <= len (items (Msgbox.history self))
  ∧ after (Msgbox.page_up self)
    = Some (if decide (len (items (Msgbox.history self)) - Msgbox.history_index self
                       > Msgbox.page_size self)
            then Msgbox.set_history_index self
                   (Msgbox.history_index self + Msgbox.page_size self)
            else self)
  ∧ after (Msgbox.page_down self)
    = Some (if decide (Msgbox.history_index self >= Msgbox.page_size self)
            then Msgbox.set_history_index self
                   (Msgbox.history_index self - Msgbox.page_size self)
            else self).
Proof.
  intros Hinit Hreach.
  split; [|split; [apply page_up_moves_one_page|apply page_down_moves_one_page]].
  assert (paging_inv self) as (_ & _ & H); [|done].
  induction Hreach as [|fuel c self self' _ IH Hafter].
  - by eapply init_paging_inv.
  - by eapply run_call_paging_inv.
Qed.

Lemma paging_clamp_witness :
  0 <= Msgbox.history_index (Msgbox.Make 6 10 2 2 (Deque long_word_lines 60))
    <= len (items (Msgbox.history (Msgbox.Make 6 10 2 2 (Deque long_word_lines 60))))
  ∧ after (Msgbox.page_up (Msgbox.Make 6 10 2 2 (Deque long_word_lines 60)))
    = Some (if decide (len (items (Msgbox.history
                         (Msgbox.Make 6 10 2 2 (Deque long_word_lines 60))))
                       - Msgbox.history_index
                           (Msgbox.Make 6 10 2 2 (Deque long_word_lines 60))
                       > Msgbox.page_size
                           (Msgbox.Make 6 10 2 2 (Deque long_word_lines 60)))
            then Msgbox.set_history_index
                   (Msgbox.Make 6 10 2 2 (Deque long_word_lines 60))
                   (Msgbox.history_index
                      (Msgbox.Make 6 10 2 2 (Deque long_word_lines 60))
                    + Msgbox.page_size
                        (Msgbox.Make 6 10 2 2 (Deque long_word_lines 60)))
            else Msgbox.Make 6 10 2 2 (Deque long_word_lines 60))
  ∧ after (Msgbox.page_down (Msgbox.Make 6 10 2 2 (Deque long_word_lines 60)))
    = Some (if decide (Msgbox.history_index
                         (Msgbox.Make 6 10 2 2 (Deque long_word_lines 60))
                       >= Msgbox.page_size
                            (Msgbox.Make 6 10 2 2 (Deque long_word_lines 60)))
            then Msgbox.set_history_index
                   (Msgbox.Make 6 10 2 2 (Deque long_word_lines 60))
                   (Msgbox.history_index
                      (Msgbox.Make 6 10 2 2 (Deque long_word_lines 60))
                    - Msgbox.page_size
                        (Msgbox.Make 6 10 2 2 (Deque long_word_lines 60)))
            else Msgbox.Make 6 10 2 2 (Deque long_word_lines 60)).
Proof.
  apply (paging_clamp 6 10 (Msgbox.Make 6 10 2 0 (Deque [] 60))
           (Msgbox.Make 6 10 2 2 (Deque long_word_lines 60))).
  - reflexivity.
  - apply (reachable_call _ 1 call_page_up
             (Msgbox.Make 6 10 2 0 (Deque long_word_lines 60))); [|reflexivity].
    apply (reachable_call _ 9
             (call_append [Str long_word] [sigil_plain])
             (Msgbox.Make 6 10 2 0 (Deque [] 60))); [|reflexivity].
    apply reachable_start.
Defined.

(** X3. Paging raises nothing on a box of one line and one column or
    more, as long as the lines of the ring can be written and no chunk has
    an empty text. *)
Theorem paging_returns_on_nonempty_chunks (self : Msgbox.t) :
  1 <= Msgbox.h self → 1 <= Msgbox.w self →
  0 <= Msgbox.page_size self →
  0 <= Msgbox.history_index self →
  Forall (writable (Msgbox.w self)) (items (Msgbox.history self)) →
  (∀ l c, l ∈ items (Msgbox.history self) → c ∈ l → c.1 ≠ []) →
  (∃ self', Msgbox.page_up self = Return tt self')
  ∧ (∃ self', Msgbox.page_down self = Return tt self').
Proof.
  intros Hh Hw Hps Hidx Hwr Hne. split.
  - unfold Msgbox.page_up. case_match; [|eauto].
    destruct (draw_returns
                (Msgbox.set_history_index self
                   (Msgbox.history_index self + Msgbox.page_size self)))
      as [ops ->]; simpl; [done|done|lia|done|done|eauto].
  - unfold Msgbox.page_down. case_match eqn:E; [|eauto]. apply Z.leb_le in E.
    destruct (draw_returns
                (Msgbox.set_history_index self
                   (Msgbox.history_index self - Msgbox.page_size self)))
      as [ops ->]; simpl; [done|done|lia|done|done|eauto].
Qed.

Lemma paging_returns_on_nonempty_chunks_witness :
  (∃ self', Msgbox.page_up (Msgbox.Make 6 20 2 2 (Deque long_word_lines 60))
            = Return tt self')
  ∧ (∃ self', Msgbox.page_down (Msgbox.Make 6 20 2 2 (Deque long_word_lines 60))
              = Return tt self').
Proof.
  apply (paging_returns_on_nonempty_chunks
           (Msgbox.Make 6 20 2 2 (Deque long_word_lines 60))).
  - simpl. lia.
  - simpl. lia.
  - simpl. lia.
  - simpl. lia.
  - simpl. repeat constructor; by vm_compute.
  - intros l c Hl Hc Hempty. simpl in Hl.
    assert (Forall nonempty_chunks long_word_lines) as Hall
      by (repeat constructor; discriminate).
    rewrite Forall_forall in Hall. specialize (Hall l Hl).
    unfold nonempty_chunks in Hall. rewrite Forall_forall in Hall.
    by apply (Hall c Hc).
Defined.

(** C5, where the code departs from it: [page_down] ends with a redraw,
    and the redraw at offset 0 raises on a chunk with an empty text. On a
    message box of height 6, after the appends of "", "a" and "b",
    [page_up] pages to offset 2 and [page_down], back at offset 0, raises
    [IndexError]. *)
Lemma page_down_raises_on_empty_chunk :
  ∃ box b1 b2 b3 paged,
    Msgbox.init 6 20 = inr box
    ∧ Msgbox.append 1 [Str []] [sigil_plain] box = Return tt b1
    ∧ Msgbox.append 1 [Str (py "a")] [sigil_plain] b1 = Return tt b2
    ∧ Msgbox.append 1 [Str (py "b")] [sigil_plain] b2 = Return tt b3
    ∧ Msgbox.page_up b3 = Return tt paged
    ∧ Msgbox.history_index paged = 2
    ∧ Msgbox.page_down paged = Raise IndexError b3.
Proof. do 5 eexists. repeat split; reflexivity. Qed.

(** ** The command box *)

Lemma editing_chars win cs : Cmdbox.chars (Cmdbox.cmdbox (editing win cs)) = cs.
Proof. reflexivity. Qed.

Lemma editing_editing win cs cs' : editing (editing win cs) cs' = editing win cs'.
Proof. reflexivity. Qed.

Lemma editing_roomy win cs :
  roomy (Cmdbox.cmdbox win) → roomy (Cmdbox.cmdbox (editing win cs)).
Proof. done. Qed.

(** In a command box with room, [draw] writes a flat edit buffer without
    reaching the last column: the whole buffer while it is shorter than
    the box, and otherwise the mark of a long buffer and the last [w - 2]
    characters. *)
Lemma cmdbox_draw_returns (self : Cmdbox.t) :
  roomy self → flat (Cmdbox.chars self) →
  ∃ ops, Cmdbox.draw self = Return ops self.
Proof.
  intros [Hh Hw] Hflat. unfold Cmdbox.draw.
  destruct (len (Cmdbox.chars self) <? Cmdbox.w self) eqn:Hlen.
  - apply Z.ltb_lt in Hlen.
    rewrite mvwaddstr_flat by (done || simpl; lia). eauto.
  - apply Z.ltb_ge in Hlen.
    rewrite mvwaddstr_flat; [eauto| |simpl; lia|lia|].
    + apply Forall_cons. split; [by vm_compute|]. by apply flat_drop.
    + unfold slice_from.
      assert ((- (Cmdbox.w self - 2) <? 0) = true) as -> by (apply Z.ltb_lt; lia).
      unfold len in *. simpl. rewrite length_drop. lia.
Qed.

(** A flat edit buffer shorter than the box is wide is written whole. *)
Lemma cmdbox_draw_returns_short (self : Cmdbox.t) :
  1 <= Cmdbox.h self → len (Cmdbox.chars self) < Cmdbox.w self →
  flat (Cmdbox.chars self) →
  ∃ ops, Cmdbox.draw self = Return ops self.
Proof.
  intros Hh Hlen Hflat. unfold Cmdbox.draw.
  pose proof (len_nonneg (Cmdbox.chars self)).
  assert ((len (Cmdbox.chars self) <? Cmdbox.w self) = true) as ->
    by (apply Z.ltb_lt; lia).
  rewrite mvwaddstr_flat by (done || simpl; lia). eauto.
Qed.

Lemma with_draw_roomy {B} (win : Cmdbox.window)
  (k : Cmdbox.window → outcome Cmdbox.window B) :
  roomy (Cmdbox.cmdbox win) → flat (Cmdbox.chars (Cmdbox.cmdbox win)) →
  Cmdbox.with_draw win k = k win.
Proof.
  intros Hroom Hflat. unfold Cmdbox.with_draw.
  by destruct (cmdbox_draw_returns _ Hroom Hflat) as [ops ->].
Qed.

Lemma flat_snoc s c : flat s → printable c → flat (s ++ [c]).
Proof.
  intros Hs Hc. apply flat_app; [done|].
  apply Forall_cons. split; [by apply printable_one_column|constructor].
Qed.

Lemma key_loop_printable fuel c keys history_index win :
  printable c →
  roomy (Cmdbox.cmdbox win) → flat (Cmdbox.chars (Cmdbox.cmdbox win)) →
  Cmdbox.key_loop fuel (Z.of_N c :: keys) history_index win
  = Cmdbox.key_loop fuel keys history_index
      (editing win (Cmdbox.chars (Cmdbox.cmdbox win) ++ [c])).
Proof.
  intros Hc Hroom Hflat. pose proof Hc as [Hlo Hhi].
  cbn [Cmdbox.key_loop].
  assert ((32 <=? Z.of_N c) && (Z.of_N c <=? 126) = true) as ->.
  { apply andb_true_intro. split; apply Z.leb_le; lia. }
  rewrite N2Z.id. rewrite with_draw_roomy; [done|done|].
  by apply flat_snoc.
Qed.

Lemma key_loop_enter fuel keys history_index win :
  Cmdbox.key_loop fuel (enter :: keys) history_index win = Return keys win.
Proof. reflexivity. Qed.

Lemma editing_same win : editing win (Cmdbox.chars (Cmdbox.cmdbox win)) = win.
Proof. by destruct win as [? ? ? []]. Qed.

Lemma key_loop_typed fuel text keys history_index win :
  Forall printable text →
  roomy (Cmdbox.cmdbox win) → flat (Cmdbox.chars (Cmdbox.cmdbox win)) →
  Cmdbox.key_loop fuel (typed text ++ enter :: keys) history_index win
  = Return keys (editing win (Cmdbox.chars (Cmdbox.cmdbox win) ++ text)).
Proof.
  revert win. induction text as [|c text IH]; intros win Hp Hroom Hflat.
  { simpl typed. by rewrite app_nil_l, key_loop_enter, app_nil_r, editing_same. }
  apply Forall_cons in Hp as [Hc Hp].
  change (typed (c :: text) ++ enter :: keys)
    with (Z.of_N c :: (typed text ++ enter :: keys)).
  rewrite key_loop_printable by done. rewrite IH; try done.
  - rewrite editing_chars, editing_editing. by rewrite <- app_assoc.
  - rewrite editing_chars. by apply flat_snoc.
Qed.

(** [get] without a prompt, on keys that type [text] and press enter, is
    the submission of the edit buffer [text]. *)
Lemma get_typed fuel text keys win :
  Forall printable text → roomy (Cmdbox.cmdbox win) →
  Cmdbox.get fuel None (typed text ++ enter :: keys) win
  = match Cmdbox.submit fuel (editing win text) with
    | Return command win' => Return (command, keys) win'
    | Raise e win' => Raise e win'
    | OutOfFuel => OutOfFuel
    | Blocked => Blocked
    end.
Proof.
  intros Hp Hroom. unfold Cmdbox.get.
  change (Cmdbox.set_cmdbox win (Cmdbox.set_chars (Cmdbox.cmdbox win) []))
    with (editing win []).
  rewrite key_loop_typed; [|done|done|constructor].
  by rewrite editing_chars, editing_editing.
Qed.

Lemma submit_spec fuel win m' :
  roomy (Cmdbox.cmdbox win) →
  lstrip (Cmdbox.chars (Cmdbox.cmdbox win)) ≠ [] →
  Msgbox.append fuel
    [Tuple (lstrip (Cmdbox.chars (Cmdbox.cmdbox win))) curses.A_BOLD]
    [sigil_command] (Cmdbox.msgbox win) = Return tt m' →
  Cmdbox.submit fuel win
  = Return (lstrip (Cmdbox.chars (Cmdbox.cmdbox win)))
      (Cmdbox.Window (Cmdbox.debug_mode win) (Cmdbox.term win) m'
         (Cmdbox.Make (Cmdbox.h (Cmdbox.cmdbox win)) (Cmdbox.w (Cmdbox.cmdbox win)) []
            (Cmdbox.custom_commands (Cmdbox.cmdbox win))
            (remembered (Cmdbox.chars (Cmdbox.cmdbox win))
               (Cmdbox.history (Cmdbox.cmdbox win))))).
Proof.
  intros Hroom Hne Happ. unfold Cmdbox.submit.
  rewrite bool_decide_eq_false_2 by done.
  rewrite Happ. unfold remembered, Cmdbox.with_msgbox.
  destruct (decide (head (items (Cmdbox.history (Cmdbox.cmdbox win)))
                    = Some (Cmdbox.chars (Cmdbox.cmdbox win)))) as [Hd|Hd];
    destruct (items (Cmdbox.history (Cmdbox.cmdbox win))) as [|front rest] eqn:E;
    simpl in Hd; cbn [Cmdbox.cmdbox Cmdbox.set_msgbox].
  - done.
  - injection Hd as ->. rewrite bool_decide_eq_true_2 by done.
    rewrite with_draw_roomy; [|done|constructor].
    by destruct win as [? ? ? [? ? ? ? []]].
  - by rewrite with_draw_roomy; [|done|constructor].
  - rewrite bool_decide_eq_false_2 by congruence.
    by rewrite with_draw_roomy; [|done|constructor].
Qed.

Lemma remembered_twice buffer d : remembered buffer (remembered buffer d) = remembered buffer d.
Proof.
  unfold remembered.
  destruct (decide (head (items d) = Some buffer)) as [Hfront|Hfront].
  { by rewrite decide_True. }
  destruct (decide (head (items (appendleft buffer d)) = Some buffer)) as [H2|H2];
    [done|].
  unfold appendleft in *. simpl in *.
  destruct (maxlen d) as [|n]; simpl in *; [done|]. by destruct H2.
Qed.

Lemma remembered_front buffer d rest :
  (∀ rest', items d ≠ buffer :: buffer :: rest') →
  items (remembered buffer d) ≠ buffer :: buffer :: rest.
Proof.
  intros Hd. unfold remembered. case_decide as Hfront; [apply Hd|].
  unfold appendleft. simpl. destruct (maxlen d) as [|n]; simpl; [done|].
  intros [= Hitems]. apply Hfront.
  destruct (items d) as [|x its]; destruct n; simpl in *; simplify_eq; done.
Qed.

Lemma append_command_returns fuel command (m : Msgbox.t) :
  2 < Msgbox.w m → (1 <= maxlen (Msgbox.history m))%nat →
  (enough_fuel [Tuple command curses.A_BOLD] <= fuel)%nat →
  ∃ m', Msgbox.append fuel [Tuple command curses.A_BOLD] [sigil_command] m
        = Return tt m'
        ∧ same_box m m'.
Proof.
  intros Hw Hroom Hfuel.
  destruct (append_returns m [Tuple command curses.A_BOLD] [sigil_command] fuel
              ltac:(lia) ltac:(repeat constructor) Hfuel)
    as (m' & [Hret|[Hz _]]); [|lia].
  exists m'. split; [done|].
  pose proof (append_frame fuel [Tuple command curses.A_BOLD] [sigil_command] m) as Hf.
  by rewrite Hret in Hf.
Qed.

(** C6. On a message box that can lay the echo out (width above 2, room
    in its ring) and a command box with room for what it draws (a line,
    three columns), the submission of an edit buffer that is not blank
    pushes the raw buffer on the front of the command history unless the
    front entry is that very buffer, and clears the edit buffer; so typing
    the same text and pressing enter twice in a row adds no second entry:
    the history after the second submission is the history after the
    first, and it does not begin with the text twice unless it did
    before. *)
Theorem command_history_dedup (win : Cmdbox.window) :
  2 < Msgbox.w (Cmdbox.msgbox win) →
  (1 <= maxlen (Msgbox.history (Cmdbox.msgbox win)))%nat →
  roomy (Cmdbox.cmdbox win) →
  (∀ fuel,
     lstrip (Cmdbox.chars (Cmdbox.cmdbox win)) ≠ [] →
     (enough_fuel [Tuple (lstrip (Cmdbox.chars (Cmdbox.cmdbox win))) curses.A_BOLD]
      <= fuel)%nat →
     ∃ win',
       Cmdbox.submit fuel win
       = Return (lstrip (Cmdbox.chars (Cmdbox.cmdbox win))) win'
       ∧ Cmdbox.history (Cmdbox.cmdbox win')
         = (if decide (head (items (Cmdbox.history (Cmdbox.cmdbox win)))
                       = Some (Cmdbox.chars (Cmdbox.cmdbox win)))
            then Cmdbox.history (Cmdbox.cmdbox win)
            else appendleft (Cmdbox.chars (Cmdbox.cmdbox win))
                   (Cmdbox.history (Cmdbox.cmdbox win)))
       ∧ Cmdbox.chars (Cmdbox.cmdbox win') = [])
  ∧ (∀ fuel text,
       Forall printable text → lstrip text ≠ [] →
       (enough_fuel [Tuple (lstrip text) curses.A_BOLD] <= fuel)%nat →
       ∃ win1 win2,
         Cmdbox.get fuel None (typed text ++ enter :: typed text ++ [enter]) win
         = Return (lstrip text, typed text ++ [enter]) win1
         ∧ Cmdbox.get fuel None (typed text ++ [enter]) win1
           = Return (lstrip text, []) win2
         ∧ Cmdbox.history (Cmdbox.cmdbox win2) = Cmdbox.history (Cmdbox.cmdbox win1)
         ∧ ((1 <= maxlen (Cmdbox.history (Cmdbox.cmdbox win)))%nat →
            head (items (Cmdbox.history (Cmdbox.cmdbox win2))) = Some text)
         ∧ ((∀ rest, items (Cmdbox.history (Cmdbox.cmdbox win)) ≠ text :: text :: rest) →
            ∀ rest, items (Cmdbox.history (Cmdbox.cmdbox win2)) ≠ text :: text :: rest)).
Proof.
  intros Hw Hroom Hcmd. split.
  - intros fuel Hne Hfuel.
    destruct (append_command_returns fuel _ (Cmdbox.msgbox win) Hw Hroom Hfuel)
      as (m' & Happ & _).
    eexists. split; [by apply submit_spec|]. split; reflexivity.
  - intros fuel text Hp Hne Hfuel.
    destruct (append_command_returns fuel (lstrip text) (Cmdbox.msgbox win)
                Hw Hroom Hfuel) as (m1 & Happ1 & (_&Hw1&_&_&Hm1)).
    destruct (append_command_returns fuel (lstrip text) m1
                ltac:(lia) ltac:(lia) Hfuel) as (m2 & Happ2 & _).
    eexists _, _.
    rewrite get_typed by done. rewrite (submit_spec fuel _ m1) by done.
    split; [reflexivity|].
    rewrite get_typed by done. rewrite (submit_spec fuel _ m2) by done.
    split; [reflexivity|]. simpl.
    split; [apply remembered_twice|]. split.
    + intros Hcap. rewrite remembered_twice. unfold remembered.
      case_decide as Hfront; [done|]. simpl.
      by destruct (maxlen (Cmdbox.history (Cmdbox.cmdbox win))); [lia|].
    + intros Hno rest. rewrite remembered_twice. by apply remembered_front.
Qed.

Lemma command_history_dedup_witness :
  ∃ win1 win2,
    Cmdbox.get 10 None (typed (py "look") ++ enter :: typed (py "look") ++ [enter])
      usual_window
    = Return (py "look", typed (py "look") ++ [enter]) win1
    ∧ Cmdbox.get 10 None (typed (py "look") ++ [enter]) win1
      = Return (py "look", []) win2
    ∧ Cmdbox.history (Cmdbox.cmdbox win2) = Cmdbox.history (Cmdbox.cmdbox win1)
    ∧ head (items (Cmdbox.history (Cmdbox.cmdbox win2))) = Some (py "look").
Proof.
  destruct (proj2 (command_history_dedup usual_window
                     ltac:(simpl; lia) ltac:(simpl; lia)
                     ltac:(split; simpl; lia))
              10%nat (py "look")
              ltac:(repeat constructor; vm_compute; discriminate)
              ltac:(vm_compute; discriminate)
              ltac:(vm_compute; lia))
    as (win1 & win2 & H1 & H2 & H3 & H4 & _).
  exists win1, win2. repeat split; try done. apply H4. simpl. lia.
Defined.

Lemma boxes_usual : boxes 24 80 = inr usual_window.
Proof. reflexivity. Qed.

Lemma boxes_narrow : boxes 5 5 = inr narrow_window.
Proof. reflexivity. Qed.

(** A chunk that fits on the sigil line is laid out on that line. *)
Lemma append_fitting_chunk fuel phrase style sigil (m : Msgbox.t) :
  len (lstrip phrase) <= Msgbox.w m - 2 →
  (1 <= maxlen (Msgbox.history m))%nat →
  (1 <= fuel)%nat →
  Msgbox.append fuel [Tuple phrase style] sigil m
  = Return tt
      (pushed [[(sigil ++ py " ", curses.A_NORMAL); (lstrip phrase, style)]] m).
Proof.
  intros Hfit Hroom Hfuel. destruct fuel as [|fuel]; [lia|].
  apply Z.leb_le in Hfit. destruct m as [h w ps idx [older n]]. simpl in *.
  destruct n as [|n]; [lia|].
  unfold Msgbox.append, pushed. simpl.
  unfold Msgbox.wrap_body. simpl. rewrite Hfit. reflexivity.
Qed.

(** The prompt and the notices touch the ring of the message box and
    nothing else of the window. *)
Lemma append_and_draw_frame fuel c sigil win :
  match Cmdbox.append_and_draw fuel c sigil win with
  | Return _ win' | Raise _ win' =>
      Cmdbox.cmdbox win' = Cmdbox.cmdbox win
      ∧ Cmdbox.debug_mode win' = Cmdbox.debug_mode win
      ∧ Cmdbox.term win' = Cmdbox.term win
      ∧ same_box (Cmdbox.msgbox win) (Cmdbox.msgbox win')
  | _ => True
  end.
Proof.
  unfold Cmdbox.append_and_draw, Cmdbox.with_msgbox.
  pose proof (append_frame fuel [c] [sigil] (Cmdbox.msgbox win)) as Hf.
  destruct (Msgbox.append fuel [c] [sigil] (Cmdbox.msgbox win))
    as [[] m|e m| |]; try done.
  cbn [Cmdbox.msgbox Cmdbox.set_msgbox]. unfold Msgbox.draw.
  by destruct (Msgbox.draw_ops m).
Qed.

Lemma show_prompt_frame fuel prompt win win1 :
  show_prompt fuel prompt win = Return tt win1 →
  Cmdbox.cmdbox win1 = Cmdbox.cmdbox win
  ∧ same_box (Cmdbox.msgbox win) (Cmdbox.msgbox win1).
Proof.
  destruct prompt as [p|]; simpl.
  - pose proof (append_and_draw_frame fuel p sigil_prompt win) as Hf.
    intros E. rewrite E in Hf. by destruct Hf as (? & _ & _ & ?).
  - intros [= <-]. split; [done|apply same_box_refl].
Qed.

(** [get] is the prompt, the key loop on an empty edit buffer, and the
    submission. *)
Lemma get_show_prompt fuel prompt keys win win1 :
  show_prompt fuel prompt win = Return tt win1 →
  Cmdbox.get fuel prompt keys win
  = match Cmdbox.key_loop fuel keys (-1) (editing win1 []) with
    | Return keys win =>
        match Cmdbox.submit fuel win with
        | Return command win => Return (command, keys) win
        | Raise e win => Raise e win
        | OutOfFuel => OutOfFuel
        | Blocked => Blocked
        end
    | Raise e win => Raise e win
    | OutOfFuel => OutOfFuel
    | Blocked => Blocked
    end.
Proof. unfold Cmdbox.get, show_prompt. by intros ->. Qed.

(** In a command box of one line and one or two columns, [draw] fails
    once the edit buffer is as long as the box is wide: the mark of a long
    buffer and the characters after it reach the last column of the
    window. *)
Lemma cmdbox_draw_narrow (self : Cmdbox.t) :
  Cmdbox.h self = 1 → 1 <= Cmdbox.w self <= 2 →
  flat (Cmdbox.chars self) → len (Cmdbox.chars self) = Cmdbox.w self →
  Cmdbox.draw self = Raise curses_error self.
Proof.
  intros Hh Hw Hflat Hlen.
  destruct self as [h w chars custom history]. simpl in *. subst h.
  unfold Cmdbox.draw. simpl.
  assert ((len chars <? w) = false) as -> by (apply Z.ltb_ge; lia).
  assert (w = 1 ∨ w = 2) as [-> | ->] by lia.
  - destruct chars as [|c [|c' chars]]; unfold len in Hlen; simpl in Hlen; try lia.
    by vm_compute.
  - destruct chars as [|c [|c' [|c'' chars]]]; unfold len in Hlen; simpl in Hlen;
      try lia.
    apply Forall_cons in Hflat as [Hc Hflat]. apply Forall_cons in Hflat as [Hc' _].
    unfold slice_from. simpl.
    unfold curses.mvwaddstr.
    rewrite bool_decide_eq_false_2; cycle 1.
    { intros Hin. apply elem_of_cons in Hin as [Hin|Hin]; [done|].
      apply (flat_no_null [c; c']); [by repeat constructor|done]. }
    rewrite wmove_inside by (simpl; lia).
    cbn [curses.waddchs].
    rewrite (waddch_one_column ellipsis) by (simpl; (by vm_compute) || lia).
    unfold curses.waddch.
    unfold one_column in Hc.
    apply andb_true_iff in Hc as [Hc Hcols]. apply andb_true_iff in Hc as [Hlo Hdel].
    apply N.leb_le in Hlo. apply negb_true_iff in Hdel. apply Z.eqb_eq in Hcols.
    assert ((c =? 9)%N = false) as -> by (apply N.eqb_neq; lia).
    assert ((c =? 10)%N = false) as -> by (apply N.eqb_neq; lia).
    assert ((c =? 13)%N = false) as -> by (apply N.eqb_neq; lia).
    assert ((c =? 8)%N = false) as -> by (apply N.eqb_neq; lia).
    assert ((c <? 32)%N = false) as -> by (apply N.ltb_ge; lia).
    rewrite Hdel, Hcols. reflexivity.
Qed.

(** The first key of a text as long as a narrow command box is wide that
    fills the edit buffer makes the key loop raise. *)
Lemma key_loop_narrow fuel text keys history_index win :
  Cmdbox.h (Cmdbox.cmdbox win) = 1 → 1 <= Cmdbox.w (Cmdbox.cmdbox win) <= 2 →
  Forall printable text →
  len (Cmdbox.chars (Cmdbox.cmdbox win) ++ text) = Cmdbox.w (Cmdbox.cmdbox win) →
  flat (Cmdbox.chars (Cmdbox.cmdbox win)) →
  text ≠ [] →
  Cmdbox.key_loop fuel (typed text ++ keys) history_index win
  = Raise curses_error
      (editing win (Cmdbox.chars (Cmdbox.cmdbox win) ++ text)).
Proof.
  revert win. induction text as [|c text IH]; intros win Hh Hw Hp Hlen Hflat Hne;
    [done|].
  apply Forall_cons in Hp as [Hc Hp].
  change (typed (c :: text) ++ keys) with (Z.of_N c :: (typed text ++ keys)).
  pose proof Hc as [Hlo Hhi].
  cbn [Cmdbox.key_loop].
  assert ((32 <=? Z.of_N c) && (Z.of_N c <=? 126) = true) as ->.
  { apply andb_true_intro. split; apply Z.leb_le; lia. }
  rewrite N2Z.id.
  change (Cmdbox.set_cmdbox win
            (Cmdbox.set_chars (Cmdbox.cmdbox win)
               (Cmdbox.chars (Cmdbox.cmdbox win) ++ [c])))
    with (editing win (Cmdbox.chars (Cmdbox.cmdbox win) ++ [c])).
  destruct text as [|c' text].
  - unfold Cmdbox.with_draw. rewrite cmdbox_draw_narrow; try done.
    by apply flat_snoc.
  - unfold Cmdbox.with_draw.
    rewrite !len_app in Hlen. unfold len in Hlen. simpl in Hlen.
    pose proof (len_nonneg (Cmdbox.chars (Cmdbox.cmdbox win))) as Hchars.
    unfold len in Hchars.
    assert (Cmdbox.w (Cmdbox.cmdbox win) = 2
            ∧ Cmdbox.chars (Cmdbox.cmdbox win) = [] ∧ text = []) as (Hw2 & Hnil & ->).
    { destruct (Cmdbox.chars (Cmdbox.cmdbox win)); destruct text; simpl in *;
        repeat split; try done; lia. }
    destruct (cmdbox_draw_returns_short
                (Cmdbox.cmdbox (editing win (Cmdbox.chars (Cmdbox.cmdbox win) ++ [c]))))
      as [ops ->].
    + simpl. lia.
    + simpl. rewrite Hnil. unfold len. simpl. lia.
    + simpl. by apply flat_snoc.
    + rewrite IH; try done.
      * by rewrite editing_chars, editing_editing, <- app_assoc.
      * rewrite editing_chars, Hnil. unfold len. simpl. done.
      * rewrite editing_chars. by apply flat_snoc.
Qed.

Lemma get_unfold fuel prompt keys win :
  Cmdbox.get fuel prompt keys win
  = match show_prompt fuel prompt win with
    | Return _ win1 =>
        match Cmdbox.key_loop fuel keys (-1) (editing win1 []) with
        | Return keys win =>
            match Cmdbox.submit fuel win with
            | Return command win => Return (command, keys) win
            | Raise e win => Raise e win
            | OutOfFuel => OutOfFuel
            | Blocked => Blocked
            end
        | Raise e win => Raise e win
        | OutOfFuel => OutOfFuel
        | Blocked => Blocked
        end
    | Raise e win => Raise e win
    | OutOfFuel => OutOfFuel
    | Blocked => Blocked
    end.
Proof. reflexivity. Qed.

(** X8. The round trip of C7 where the code makes it: on a message box of
    width at least 4 with room in its ring and a command box with room
    for what it draws, once the prompt (if there is one) is shown, [get]
    fed the keys g, o, enter returns "go", and the front line of the
    scrollback is then the command-sigil line with the chunk "go" in
    bold. *)
Theorem go_roundtrip_returns (win win1 : Cmdbox.window) (prompt : option chunk)
  (fuel : nat) :
  show_prompt fuel prompt win = Return tt win1 →
  4 <= Msgbox.w (Cmdbox.msgbox win) →
  (1 <= maxlen (Msgbox.history (Cmdbox.msgbox win)))%nat →
  roomy (Cmdbox.cmdbox win) →
  (1 <= fuel)%nat →
  ∃ win',
    Cmdbox.get fuel prompt [103; 111; enter] win = Return (py "go", []) win'
    ∧ head (items (Msgbox.history (Cmdbox.msgbox win')))
      = Some [([sigil_command; space], curses.A_NORMAL); (py "go", curses.A_BOLD)]
    ∧ front_is_command_line (py "go") (Cmdbox.msgbox win').
Proof.
  intros Hshow Hw Hroom Hcmd Hfuel.
  destruct (show_prompt_frame _ _ _ _ Hshow) as (Hc1 & (_ & Hw1 & _ & _ & Hm1)).
  rewrite get_unfold, Hshow.
  change [103; 111; enter] with (typed (py "go") ++ enter :: []).
  rewrite key_loop_typed; cycle 1.
  { repeat constructor; vm_compute; discriminate. }
  { simpl. by rewrite Hc1. }
  { constructor. }
  rewrite editing_chars, editing_editing, app_nil_l.
  erewrite submit_spec; cycle 1.
  { simpl. by rewrite Hc1. }
  { vm_compute. discriminate. }
  { apply append_fitting_chunk; simpl; [unfold len; simpl; lia|lia|done]. }
  eexists. split; [reflexivity|].
  assert (head (items (Msgbox.history
            (pushed [[([sigil_command] ++ py " ", curses.A_NORMAL);
                      (lstrip (py "go"), curses.A_BOLD)]] (Cmdbox.msgbox win1))))
          = Some [([sigil_command; space], curses.A_NORMAL);
                  (py "go", curses.A_BOLD)]) as Hhead.
  { unfold pushed. simpl.
    by destruct (maxlen (Msgbox.history (Cmdbox.msgbox win1))); [lia|]. }
  split; [exact Hhead|].
  eexists. split; [exact Hhead|]. apply list_elem_of_singleton. reflexivity.
Qed.

Lemma go_roundtrip_returns_witness :
  ∃ win',
    Window.prompt 1 (Str (py "What now?")) [103; 111; enter] usual_window
    = Return (py "go", []) win'
    ∧ head (items (Msgbox.history (Cmdbox.msgbox win')))
      = Some [([sigil_command; space], curses.A_NORMAL); (py "go", curses.A_BOLD)]
    ∧ front_is_command_line (py "go") (Cmdbox.msgbox win').
Proof.
  eapply (go_roundtrip_returns usual_window _ (Some (Str (py "What now?"))) 1).
  - by vm_compute.
  - simpl. lia.
  - simpl. lia.
  - split; simpl; lia.
  - lia.
Defined.

(** X9. A narrow command box cannot take a text as long as it is wide: in
    a command box of one line and one or two columns, the key that makes
    the edit buffer as long as the box is wide makes the key loop raise
    [curses.error], with the text in the edit buffer. *)
Theorem typing_raises_in_narrow_command_box (fuel : nat) (text : list N)
  (keys : list Z) (history_index : Z) (win : Cmdbox.window) :
  Cmdbox.h (Cmdbox.cmdbox win) = 1 →
  1 <= Cmdbox.w (Cmdbox.cmdbox win) <= 2 →
  Cmdbox.chars (Cmdbox.cmdbox win) = [] →
  Forall printable text →
  len text = Cmdbox.w (Cmdbox.cmdbox win) →
  Cmdbox.key_loop fuel (typed text ++ keys) history_index win
  = Raise curses_error (editing win text).
Proof.
  intros Hh Hw Hnil Hp Hlen.
  rewrite key_loop_narrow; try done.
  - by rewrite Hnil.
  - by rewrite Hnil.
  - rewrite Hnil. constructor.
  - intros ->. unfold len in Hlen. simpl in Hlen. lia.
Qed.

Lemma typing_raises_in_narrow_command_box_witness :
  Cmdbox.key_loop 1 (typed (py "go") ++ [enter]) (-1)
    (Cmdbox.Window false plain_terminal
       (Msgbox.Make 2 4 0 0 (Deque [] 20)) (Cmdbox.Make 1 2 [] ∅ (Deque [] 10)))
  = Raise curses_error
      (editing (Cmdbox.Window false plain_terminal
                  (Msgbox.Make 2 4 0 0 (Deque [] 20)) (Cmdbox.Make 1 2 [] ∅ (Deque [] 10)))
         (py "go")).
Proof.
  apply (typing_raises_in_narrow_command_box 1 (py "go") [enter] (-1)
           (Cmdbox.Window false plain_terminal
              (Msgbox.Make 2 4 0 0 (Deque [] 20)) (Cmdbox.Make 1 2 [] ∅ (Deque [] 10)))).
  - reflexivity.
  - simpl. lia.
  - reflexivity.
  - repeat constructor; vm_compute; discriminate.
  - reflexivity.
Defined.

(** C7, where the code departs from it. The command box of
    [Window(height=5, width=5)] has one line and one column. The key g
    puts a character in the edit buffer, [draw] then writes the mark of a
    long buffer into the only cell of the box, curses cannot move the
    cursor on and raises: [get] raises [curses.error] instead of
    returning "go", with a prompt or without one. *)
Lemma get_go_raises_on_narrow_window :
  boxes 5 5 = inr narrow_window
  ∧ (∀ fuel, Cmdbox.get fuel None [103; 111; enter] narrow_window
             = Raise curses_error (editing narrow_window (py "g")))
  ∧ ¬ go_roundtrip narrow_window.
Proof.
  split; [reflexivity|]. split; [reflexivity|].
  intros (fuel & prompt & win' & Hget & _).
  rewrite get_unfold in Hget.
  destruct (show_prompt fuel prompt narrow_window) as [[] win1| | |] eqn:Hshow;
    try done.
  destruct (show_prompt_frame _ _ _ _ Hshow) as [Hc _].
  change [103; 111; enter] with (typed (py "g") ++ [111; enter]) in Hget.
  rewrite key_loop_narrow in Hget; try done; simpl; rewrite ?Hc; simpl;
    try done; try lia.
  - repeat constructor; vm_compute; discriminate.
  - constructor.
Qed.
(* ================================================================= *)
(** ** Editing keys *)

Lemma key_loop_typed_then fuel text keys history_index win :
  Forall printable text →
  roomy (Cmdbox.cmdbox win) → flat (Cmdbox.chars (Cmdbox.cmdbox win)) →
  Cmdbox.key_loop fuel (typed text ++ keys) history_index win
  = Cmdbox.key_loop fuel keys history_index
      (editing win (Cmdbox.chars (Cmdbox.cmdbox win) ++ text)).
Proof.
  revert win. induction text as [|c text IH]; intros win Hp Hroom Hflat.
  { simpl typed. by rewrite app_nil_l, app_nil_r, editing_same. }
  apply Forall_cons in Hp as [Hc Hp].
  change (typed (c :: text) ++ keys) with (Z.of_N c :: (typed text ++ keys)).
  rewrite key_loop_printable by done. rewrite IH; try done.
  - rewrite editing_chars, editing_editing. by rewrite <- app_assoc.
  - rewrite editing_chars. by apply flat_snoc.
Qed.

Lemma flat_removelast s : flat s → flat (removelast s).
Proof.
  intros Hs. induction s as [|c s IH] using rev_ind; [done|].
  rewrite removelast_last. by apply Forall_app in Hs as [? _].
Qed.

Lemma key_loop_backspace fuel key keys history_index win :
  backspace key →
  roomy (Cmdbox.cmdbox win) → flat (Cmdbox.chars (Cmdbox.cmdbox win)) →
  Cmdbox.key_loop fuel (key :: keys) history_index win
  = Cmdbox.key_loop fuel keys history_index
      (editing win (removelast (Cmdbox.chars (Cmdbox.cmdbox win)))).
Proof.
  intros Hkey Hroom Hflat.
  assert (Cmdbox.key_loop fuel (key :: keys) history_index win
          = if negb (len (Cmdbox.chars (Cmdbox.cmdbox win)) =? 0) then
              Cmdbox.with_draw
                (editing win (removelast (Cmdbox.chars (Cmdbox.cmdbox win))))
                (λ win, Cmdbox.key_loop fuel keys history_index win)
            else Cmdbox.key_loop fuel keys history_index win) as ->.
  { by destruct Hkey as [-> | ->]. }
  destruct (len (Cmdbox.chars (Cmdbox.cmdbox win)) =? 0) eqn:E; simpl.
  - apply Z.eqb_eq, len_nil_iff in E. rewrite E. simpl.
    by rewrite <- E, editing_same.
  - rewrite with_draw_roomy; [done|done|].
    rewrite editing_chars. by apply flat_removelast.
Qed.

Lemma removelast_take {A} (l : list A) : removelast l = take (length l - 1) l.
Proof.
  induction l as [|x l IH] using rev_ind; [done|].
  rewrite removelast_last, length_app. simpl.
  replace (length l + 1 - 1)%nat with (length l) by lia.
  by rewrite take_app_length.
Qed.

Lemma key_loop_backspaces fuel key n keys history_index win :
  backspace key →
  roomy (Cmdbox.cmdbox win) → flat (Cmdbox.chars (Cmdbox.cmdbox win)) →
  Cmdbox.key_loop fuel (presses n key ++ keys) history_index win
  = Cmdbox.key_loop fuel keys history_index
      (editing win (take (length (Cmdbox.chars (Cmdbox.cmdbox win)) - n)
                      (Cmdbox.chars (Cmdbox.cmdbox win)))).
Proof.
  intros Hkey. revert win. induction n as [|n IH]; intros win Hroom Hflat.
  { simpl. rewrite Nat.sub_0_r, firstn_all. by rewrite editing_same. }
  change (presses (S n) key ++ keys) with (key :: (presses n key ++ keys)).
  rewrite key_loop_backspace by done.
  rewrite IH; [|done|rewrite editing_chars; by apply flat_removelast].
  rewrite editing_editing, editing_chars.
  f_equal. f_equal. rewrite removelast_take, length_take, take_take.
  f_equal. lia.
Qed.

(** X10. Backspace, under either of its key values, erases the last
    character of the edit buffer. In a command box with room, after a
    printable text is typed on a flat buffer, [n] presses leave the
    buffer without its last [n] characters, and the presses beyond the
    first character leave it empty; no key raises. *)
Theorem backspace_erases_last_chars fuel key text n keys history_index win :
  backspace key → Forall printable text →
  roomy (Cmdbox.cmdbox win) → flat (Cmdbox.chars (Cmdbox.cmdbox win)) →
  Cmdbox.key_loop fuel (typed text ++ presses n key ++ keys) history_index win
  = Cmdbox.key_loop fuel keys history_index
      (editing win
         (take (length (Cmdbox.chars (Cmdbox.cmdbox win) ++ text) - n)
            (Cmdbox.chars (Cmdbox.cmdbox win) ++ text))).
Proof.
  intros Hkey Hp Hroom Hflat. rewrite key_loop_typed_then by done.
  rewrite key_loop_backspaces; [done|done|done|].
  rewrite editing_chars. apply flat_app; [done|by apply printable_flat].
Qed.

Lemma backspace_erases_last_chars_witness :
  Cmdbox.key_loop 0 (typed (py "look") ++ presses 6 127 ++ [enter]) (-1)
    usual_window
  = Return [] usual_window.
Proof.
  rewrite (backspace_erases_last_chars 0 127 (py "look") 6 [enter] (-1)
             usual_window).
  - reflexivity.
  - by left.
  - repeat constructor; vm_compute; discriminate.
  - split; simpl; lia.
  - constructor.
Defined.

(* ================================================================= *)
(** ** Browsing the command history *)

Lemma key_loop_up fuel keys history_index win entry :
  history_index < len (items (Cmdbox.history (Cmdbox.cmdbox win))) - 1 →
  deque_index (Cmdbox.history (Cmdbox.cmdbox win)) (history_index + 1) = Some entry →
  roomy (Cmdbox.cmdbox win) → flat entry →
  Cmdbox.key_loop fuel (curses.KEY_UP :: keys) history_index win
  = Cmdbox.key_loop fuel keys (history_index + 1) (editing win entry).
Proof.
  intros Hlt Hentry Hroom Hflat. apply Z.ltb_lt in Hlt.
  change (Cmdbox.key_loop fuel (curses.KEY_UP :: keys) history_index win)
    with (if history_index <? len (items (Cmdbox.history (Cmdbox.cmdbox win))) - 1
          then match deque_index (Cmdbox.history (Cmdbox.cmdbox win)) (history_index + 1) with
               | Some cs =>
                   Cmdbox.with_draw (editing win cs)
                     (λ win, Cmdbox.key_loop fuel keys (history_index + 1) win)
               | None => Raise IndexError win
               end
          else Cmdbox.key_loop fuel keys history_index win).
  rewrite Hlt, Hentry. by rewrite with_draw_roomy.
Qed.

Lemma key_loop_up_top fuel keys history_index win :
  len (items (Cmdbox.history (Cmdbox.cmdbox win))) - 1 <= history_index →
  Cmdbox.key_loop fuel (curses.KEY_UP :: keys) history_index win
  = Cmdbox.key_loop fuel keys history_index win.
Proof.
  intros Hge. apply Z.ltb_ge in Hge.
  change (Cmdbox.key_loop fuel (curses.KEY_UP :: keys) history_index win)
    with (if history_index <? len (items (Cmdbox.history (Cmdbox.cmdbox win))) - 1
          then match deque_index (Cmdbox.history (Cmdbox.cmdbox win)) (history_index + 1) with
               | Some cs =>
                   Cmdbox.with_draw (editing win cs)
                     (λ win, Cmdbox.key_loop fuel keys (history_index + 1) win)
               | None => Raise IndexError win
               end
          else Cmdbox.key_loop fuel keys history_index win).
  by rewrite Hge.
Qed.

Lemma key_loop_down fuel keys history_index win entry :
  0 < history_index →
  deque_index (Cmdbox.history (Cmdbox.cmdbox win)) (history_index - 1) = Some entry →
  roomy (Cmdbox.cmdbox win) → flat entry →
  Cmdbox.key_loop fuel (curses.KEY_DOWN :: keys) history_index win
  = Cmdbox.key_loop fuel keys (history_index - 1) (editing win entry).
Proof.
  intros Hlt Hentry Hroom Hflat. apply Z.ltb_lt in Hlt.
  change (Cmdbox.key_loop fuel (curses.KEY_DOWN :: keys) history_index win)
    with (if 0 <? history_index
          then match deque_index (Cmdbox.history (Cmdbox.cmdbox win)) (history_index - 1) with
               | Some cs =>
                   Cmdbox.with_draw (editing win cs)
                     (λ win, Cmdbox.key_loop fuel keys (history_index - 1) win)
               | None => Raise IndexError win
               end
          else Cmdbox.key_loop fuel keys history_index win).
  rewrite Hlt, Hentry. by rewrite with_draw_roomy.
Qed.

Lemma key_loop_down_bottom fuel keys history_index win :
  history_index <= 0 →
  Cmdbox.key_loop fuel (curses.KEY_DOWN :: keys) history_index win
  = Cmdbox.key_loop fuel keys history_index win.
Proof.
  intros Hge. apply Z.ltb_ge in Hge.
  change (Cmdbox.key_loop fuel (curses.KEY_DOWN :: keys) history_index win)
    with (if 0 <? history_index
          then match deque_index (Cmdbox.history (Cmdbox.cmdbox win)) (history_index - 1) with
               | Some cs =>
                   Cmdbox.with_draw (editing win cs)
                     (λ win, Cmdbox.key_loop fuel keys (history_index - 1) win)
               | None => Raise IndexError win
               end
          else Cmdbox.key_loop fuel keys history_index win).
  by rewrite Hge.
Qed.

Lemma deque_index_nat {A} (d : deque A) (i : Z) :
  0 <= i → deque_index d i = items d !! Z.to_nat i.
Proof.
  intros Hi. unfold deque_index. destruct (i <? 0) eqn:E; [|done].
  apply Z.ltb_lt in E. lia.
Qed.

(** From an entry of the history, [n] more presses of the up key recall
    the entry [n] places further back, or the oldest one. *)
Lemma key_loop_ups fuel n keys win : ∀ history_index entry,
  roomy (Cmdbox.cmdbox win) →
  Forall flat (items (Cmdbox.history (Cmdbox.cmdbox win))) →
  0 <= history_index →
  items (Cmdbox.history (Cmdbox.cmdbox win)) !! Z.to_nat history_index = Some entry →
  ∃ entry',
    items (Cmdbox.history (Cmdbox.cmdbox win))
      !! Z.to_nat (Z.min (history_index + Z.of_nat n)
                     (len (items (Cmdbox.history (Cmdbox.cmdbox win))) - 1))
    = Some entry'
    ∧ Cmdbox.key_loop fuel (presses n curses.KEY_UP ++ keys) history_index
        (editing win entry)
      = Cmdbox.key_loop fuel keys
          (Z.min (history_index + Z.of_nat n)
             (len (items (Cmdbox.history (Cmdbox.cmdbox win))) - 1))
          (editing win entry').
Proof.
  intros history_index entry Hroom Hhist. revert history_index entry.
  induction n as [|n IH]; intros history_index entry Hidx Hentry;
    pose proof (lookup_lt_Some _ _ _ Hentry) as Hlen.
  - exists entry. unfold len.
    replace (Z.min (history_index + Z.of_nat 0) _) with history_index by lia.
    done.
  - change (presses (S n) curses.KEY_UP ++ keys)
      with (curses.KEY_UP :: (presses n curses.KEY_UP ++ keys)).
    destruct (decide (history_index
                      < len (items (Cmdbox.history (Cmdbox.cmdbox win))) - 1))
      as [Hlt|Hge].
    + destruct (lookup_lt_is_Some_2 (items (Cmdbox.history (Cmdbox.cmdbox win)))
                  (Z.to_nat (history_index + 1))) as [e He];
        [unfold len in *; lia|].
      rewrite (key_loop_up _ _ _ _ e);
        [|done|by rewrite deque_index_nat by lia|done
         |by eapply (Forall_lookup_1 _ _ _ _ Hhist)].
      rewrite editing_editing.
      destruct (IH (history_index + 1) e ltac:(lia) He) as (e' & He' & Hrun).
      replace (Z.min (history_index + 1 + Z.of_nat n) _)
        with (Z.min (history_index + Z.of_nat (S n))
                (len (items (Cmdbox.history (Cmdbox.cmdbox win))) - 1))
        in He', Hrun by lia.
      by exists e'.
    + rewrite key_loop_up_top by (simpl; lia).
      destruct (IH history_index entry Hidx Hentry) as (e' & He' & Hrun).
      replace (Z.min (history_index + Z.of_nat n) _)
        with (Z.min (history_index + Z.of_nat (S n))
                (len (items (Cmdbox.history (Cmdbox.cmdbox win))) - 1))
        in He', Hrun by (unfold len in *; lia).
      by exists e'.
Qed.

(** From an entry of the history, [n] presses of the down key recall the
    entry [n] places nearer the front, or the most recent one. *)
Lemma key_loop_downs fuel n keys win : ∀ history_index entry,
  roomy (Cmdbox.cmdbox win) →
  Forall flat (items (Cmdbox.history (Cmdbox.cmdbox win))) →
  0 <= history_index →
  items (Cmdbox.history (Cmdbox.cmdbox win)) !! Z.to_nat history_index = Some entry →
  ∃ entry',
    items (Cmdbox.history (Cmdbox.cmdbox win))
      !! Z.to_nat (Z.max 0 (history_index - Z.of_nat n))
    = Some entry'
    ∧ Cmdbox.key_loop fuel (presses n curses.KEY_DOWN ++ keys) history_index
        (editing win entry)
      = Cmdbox.key_loop fuel keys (Z.max 0 (history_index - Z.of_nat n))
          (editing win entry').
Proof.
  intros history_index entry Hroom Hhist. revert history_index entry.
  induction n as [|n IH]; intros history_index entry Hidx Hentry;
    pose proof (lookup_lt_Some _ _ _ Hentry) as Hlen.
  - exists entry.
    replace (Z.max 0 (history_index - Z.of_nat 0)) with history_index by lia.
    done.
  - change (presses (S n) curses.KEY_DOWN ++ keys)
      with (curses.KEY_DOWN :: (presses n curses.KEY_DOWN ++ keys)).
    destruct (decide (0 < history_index)) as [Hlt|Hge].
    + destruct (lookup_lt_is_Some_2 (items (Cmdbox.history (Cmdbox.cmdbox win)))
                  (Z.to_nat (history_index - 1))) as [e He]; [lia|].
      rewrite (key_loop_down _ _ _ _ e);
        [|done|by rewrite deque_index_nat by lia|done
         |by eapply (Forall_lookup_1 _ _ _ _ Hhist)].
      rewrite editing_editing.
      destruct (IH (history_index - 1) e ltac:(lia) He) as (e' & He' & Hrun).
      replace (Z.max 0 (history_index - 1 - Z.of_nat n))
        with (Z.max 0 (history_index - Z.of_nat (S n))) in He', Hrun by lia.
      by exists e'.
    + rewrite key_loop_down_bottom by (simpl; lia).
      destruct (IH history_index entry Hidx Hentry) as (e' & He' & Hrun).
      replace (Z.max 0 (history_index - Z.of_nat n))
        with (Z.max 0 (history_index - Z.of_nat (S n))) in He', Hrun by lia.
      by exists e'.
Qed.

(** The up key stops at the oldest entry and the down key at the most
    recent one. *)
Lemma key_loop_browse fuel (ups downs : nat) keys win :
  (1 <= ups)%nat →
  items (Cmdbox.history (Cmdbox.cmdbox win)) ≠ [] →
  roomy (Cmdbox.cmdbox win) →
  Forall flat (items (Cmdbox.history (Cmdbox.cmdbox win))) →
  ∃ entry,
    items (Cmdbox.history (Cmdbox.cmdbox win))
      !! Z.to_nat (recalled_index
                     (len (items (Cmdbox.history (Cmdbox.cmdbox win)))) ups downs)
    = Some entry
    ∧ Cmdbox.key_loop fuel
        (presses ups curses.KEY_UP ++ presses downs curses.KEY_DOWN ++ keys) (-1) win
      = Cmdbox.key_loop fuel keys
          (recalled_index (len (items (Cmdbox.history (Cmdbox.cmdbox win)))) ups downs)
          (editing win entry).
Proof.
  intros Hups Hne Hroom Hhist. destruct ups as [|ups]; [lia|].
  assert (∃ front, items (Cmdbox.history (Cmdbox.cmdbox win)) !! 0%nat = Some front)
    as [front Hfront].
  { destruct (items (Cmdbox.history (Cmdbox.cmdbox win))); [done|eauto]. }
  pose proof (lookup_lt_Some _ _ _ Hfront) as Hlen.
  change (presses (S ups) curses.KEY_UP ++ presses downs curses.KEY_DOWN ++ keys)
    with (curses.KEY_UP
            :: (presses ups curses.KEY_UP ++ presses downs curses.KEY_DOWN ++ keys)).
  rewrite (key_loop_up _ _ _ _ front);
    [|unfold len; lia|by rewrite deque_index_nat|done
     |by eapply (Forall_lookup_1 _ _ _ _ Hhist)].
  destruct (key_loop_ups fuel ups (presses downs curses.KEY_DOWN ++ keys) win
              (-1 + 1) front Hroom Hhist ltac:(lia) Hfront)
    as (e1 & He1 & Hrun1).
  rewrite Hrun1.
  destruct (key_loop_downs fuel downs keys win
              (Z.min (-1 + 1 + Z.of_nat ups)
                 (len (items (Cmdbox.history (Cmdbox.cmdbox win))) - 1))
              e1 Hroom Hhist ltac:(unfold len; lia) He1)
    as (e2 & He2 & Hrun2).
  rewrite Hrun2. unfold recalled_index.
  replace (Z.max 0 (Z.min (Z.of_nat (S ups))
                      (len (items (Cmdbox.history (Cmdbox.cmdbox win))))
                    - 1 - Z.of_nat downs))
    with (Z.max 0 (Z.min (-1 + 1 + Z.of_nat ups)
                     (len (items (Cmdbox.history (Cmdbox.cmdbox win))) - 1)
                   - Z.of_nat downs)) by lia.
  by exists e2.
Qed.

(** X11. Browsing the command history never leaves it. In a command box
    with room whose history holds flat entries, from a fresh prompt,
    [ups] presses of the up key (at least one) followed by [downs] presses
    of the down key put in the edit buffer the entry at index
    max(0, min(ups, size) - 1 - downs) from the front, and raise nothing.
    The up key stops at the oldest entry and the down key at the most
    recent one: it does not bring the empty buffer back. *)
Theorem history_browsing_clamps fuel (ups downs : nat) keys win :
  (1 <= ups)%nat →
  items (Cmdbox.history (Cmdbox.cmdbox win)) ≠ [] →
  roomy (Cmdbox.cmdbox win) →
  Forall flat (items (Cmdbox.history (Cmdbox.cmdbox win))) →
  ∃ entry,
    items (Cmdbox.history (Cmdbox.cmdbox win))
      !! Z.to_nat (recalled_index
                     (len (items (Cmdbox.history (Cmdbox.cmdbox win)))) ups downs)
    = Some entry
    ∧ Cmdbox.key_loop fuel
        (presses ups curses.KEY_UP ++ presses downs curses.KEY_DOWN ++ keys) (-1) win
      = Cmdbox.key_loop fuel keys
          (recalled_index (len (items (Cmdbox.history (Cmdbox.cmdbox win)))) ups downs)
          (editing win entry).
Proof. apply key_loop_browse. Qed.

Lemma seasoned_history_flat :
  Forall flat (items (Cmdbox.history (Cmdbox.cmdbox seasoned_window))).
Proof. repeat constructor; by vm_compute. Qed.

Lemma history_browsing_clamps_witness :
  Cmdbox.key_loop 0
    (presses 5 curses.KEY_UP ++ presses 1 curses.KEY_DOWN ++ [enter]) (-1)
    seasoned_window
  = Return [] (editing seasoned_window (py "look")).
Proof.
  destruct (history_browsing_clamps 0 5 1 [enter] seasoned_window)
    as (entry & Hentry & ->).
  - lia.
  - discriminate.
  - split; simpl; lia.
  - apply seasoned_history_flat.
  - vm_compute in Hentry. injection Hentry as <-. reflexivity.
Defined.

(* ================================================================= *)
(** ** What the key loop leaves alone *)

Lemma same_setup_refl win : same_setup win win.
Proof. by repeat split. Qed.

Lemma same_setup_trans a b c : same_setup a b → same_setup b c → same_setup a c.
Proof.
  intros (?&?&?&?&?&?) (?&?&?&?&?&?). repeat split; congruence.
Qed.

Lemma same_setup_editing a win cs : same_setup a win → same_setup a (editing win cs).
Proof. intros H. eapply same_setup_trans; [exact H|]. by repeat split. Qed.

Lemma same_setup_msgbox a win m :
  same_setup a win → same_setup a (Cmdbox.set_msgbox win m).
Proof. intros H. eapply same_setup_trans; [exact H|]. by repeat split. Qed.

Lemma append_and_draw_same_setup fuel c sigil a win :
  same_setup a win →
  match Cmdbox.append_and_draw fuel c sigil win with
  | Return _ win' | Raise _ win' => same_setup a win'
  | _ => True
  end.
Proof.
  intros H. unfold Cmdbox.append_and_draw, Cmdbox.with_msgbox.
  destruct (Msgbox.append _ _ _ _) as [? m|? m| |];
    [|by apply same_setup_msgbox|done|done].
  unfold Msgbox.draw. simpl.
  destruct (Msgbox.draw_ops m); simpl;
    by apply same_setup_msgbox, same_setup_msgbox.
Qed.

Lemma key_loop_same_setup fuel keys : ∀ history_index a win,
  same_setup a win →
  match Cmdbox.key_loop fuel keys history_index win with
  | Return _ win' | Raise _ win' => same_setup a win'
  | _ => True
  end.
Proof.
  induction keys as [|key keys IH]; intros history_index a win H; [done|].
  cbn [Cmdbox.key_loop].
  assert (∀ history_index cs,
            match
              Cmdbox.with_draw (editing win cs)
                (λ win, Cmdbox.key_loop fuel keys history_index win)
            with
            | Return _ win' | Raise _ win' => same_setup a win'
            | _ => True
            end) as Hdraw.
  { intros idx cs. unfold Cmdbox.with_draw.
    destruct (Cmdbox.draw _);
      first [done|by apply IH, same_setup_editing|by apply same_setup_editing]. }
  destruct ((32 <=? key) && (key <=? 126)); [by apply Hdraw|].
  destruct ((key =? 127) || (key =? curses.KEY_BACKSPACE)).
  { destruct (negb _); [by apply Hdraw|by apply IH]. }
  destruct (key =? curses.KEY_UP).
  { destruct (_ <? _); [|by apply IH].
    destruct (deque_index _ _); [by apply Hdraw|done]. }
  destruct (key =? curses.KEY_DOWN).
  { destruct (_ <? _); [|by apply IH].
    destruct (deque_index _ _); [by apply Hdraw|done]. }
  destruct (key =? curses.KEY_PPAGE).
  { unfold Cmdbox.with_msgbox.
    destruct (Msgbox.page_up _);
      first [done|by apply IH, same_setup_msgbox|by apply same_setup_msgbox]. }
  destruct (key =? curses.KEY_NPAGE).
  { unfold Cmdbox.with_msgbox.
    destruct (Msgbox.page_down _);
      first [done|by apply IH, same_setup_msgbox|by apply same_setup_msgbox]. }
  destruct (key =? 13); [done|].
  destruct (key =? 4); [by apply IH|].
  destruct (Cmdbox.custom_commands (Cmdbox.cmdbox win) !! key) as [func|].
  { unfold Cmdbox.with_msgbox.
    destruct (func fuel _);
      first [done|by apply IH, same_setup_msgbox|by apply same_setup_msgbox]. }
  destruct (Cmdbox.debug_mode win); [|by apply IH].
  pose proof (append_and_draw_same_setup fuel
                (Str (Cmdbox.unhandled_key_message (Cmdbox.term win) key))
                sigil_error a win H) as Hd.
  destruct (Cmdbox.append_and_draw _ _ _ _); try done. by apply IH.
Qed.

(** A command box with a line and a column draws its empty edit buffer
    without raising. *)
Lemma with_draw_empty {B} (win : Cmdbox.window)
  (k : Cmdbox.window → outcome Cmdbox.window B) :
  1 <= Cmdbox.h (Cmdbox.cmdbox win) → 1 <= Cmdbox.w (Cmdbox.cmdbox win) →
  Cmdbox.chars (Cmdbox.cmdbox win) = [] →
  Cmdbox.with_draw win k = k win.
Proof.
  intros Hh Hw Hnil. unfold Cmdbox.with_draw.
  destruct (cmdbox_draw_returns_short (Cmdbox.cmdbox win)) as [ops ->];
    rewrite ?Hnil; [done|unfold len; simpl; lia|constructor|done].
Qed.

Lemma submit_frame fuel win :
  1 <= Cmdbox.h (Cmdbox.cmdbox win) → 1 <= Cmdbox.w (Cmdbox.cmdbox win) →
  match Cmdbox.submit fuel win with
  | Return command win' =>
      command = lstrip (Cmdbox.chars (Cmdbox.cmdbox win))
      ∧ Cmdbox.chars (Cmdbox.cmdbox win') = []
      ∧ Cmdbox.custom_commands (Cmdbox.cmdbox win')
        = Cmdbox.custom_commands (Cmdbox.cmdbox win)
      ∧ Cmdbox.history (Cmdbox.cmdbox win')
        = (if decide (command = []) then Cmdbox.history (Cmdbox.cmdbox win)
           else remembered (Cmdbox.chars (Cmdbox.cmdbox win))
                  (Cmdbox.history (Cmdbox.cmdbox win)))
  | Raise _ win' => same_setup win win'
  | _ => True
  end.
Proof.
  intros Hh Hw. unfold Cmdbox.submit.
  destruct (decide (lstrip (Cmdbox.chars (Cmdbox.cmdbox win)) = [])) as [He|Hne].
  { rewrite bool_decide_eq_true_2 by done.
    rewrite with_draw_empty by done.
    repeat split; try done; by rewrite decide_True. }
  rewrite bool_decide_eq_false_2 by done.
  unfold Cmdbox.with_msgbox.
  destruct (Msgbox.append _ _ _ _) as [? m|? m| |];
    [|by apply same_setup_msgbox, same_setup_refl|done|done].
  assert (∀ d,
            (if decide (lstrip (Cmdbox.chars (Cmdbox.cmdbox win)) = [])
             then Cmdbox.history (Cmdbox.cmdbox win) else d) = d) as Hdec.
  { intros d. by rewrite decide_False. }
  unfold remembered.
  destruct (items (Cmdbox.history (Cmdbox.cmdbox win))) as [|front rest] eqn:E;
    cbn [Cmdbox.cmdbox Cmdbox.set_msgbox].
  { rewrite with_draw_empty by done.
    repeat split; try done; rewrite Hdec; by rewrite decide_False. }
  destruct (decide (Cmdbox.chars (Cmdbox.cmdbox win) = front)) as [Hf|Hf].
  - rewrite bool_decide_eq_true_2 by done.
    rewrite with_draw_empty by done.
    repeat split; try done; rewrite Hdec;
      by rewrite decide_True by (simpl; congruence).
  - rewrite bool_decide_eq_false_2 by done.
    rewrite with_draw_empty by done.
    repeat split; try done; rewrite Hdec;
      by rewrite decide_False by (simpl; congruence).
Qed.

(** X12. The command history changes only when a command is submitted.
    In a command box with a line and a column or more, whatever keys are
    pressed at a prompt (editing, browsing, paging, registered and
    unhandled keys), a call of [get] that returns leaves the registered
    functions as they were and the edit buffer empty, and the command
    history as it was when the command is empty; otherwise the history is
    the old one with the submitted buffer remembered, so at most one entry
    is pushed. A call that raises leaves the history and the registered
    functions as they were. *)
Theorem get_remembers_only_the_command fuel prompt keys win :
  1 <= Cmdbox.h (Cmdbox.cmdbox win) → 1 <= Cmdbox.w (Cmdbox.cmdbox win) →
  match Cmdbox.get fuel prompt keys win with
  | Return (command, _) win' =>
      Cmdbox.chars (Cmdbox.cmdbox win') = []
      ∧ Cmdbox.custom_commands (Cmdbox.cmdbox win')
        = Cmdbox.custom_commands (Cmdbox.cmdbox win)
      ∧ ∃ buffer,
          command = lstrip buffer
          ∧ Cmdbox.history (Cmdbox.cmdbox win')
            = (if decide (command = []) then Cmdbox.history (Cmdbox.cmdbox win)
               else remembered buffer (Cmdbox.history (Cmdbox.cmdbox win)))
  | Raise _ win' =>
      Cmdbox.history (Cmdbox.cmdbox win') = Cmdbox.history (Cmdbox.cmdbox win)
      ∧ Cmdbox.custom_commands (Cmdbox.cmdbox win')
        = Cmdbox.custom_commands (Cmdbox.cmdbox win)
  | _ => True
  end.
Proof.
  intros Hh Hw. rewrite get_unfold.
  assert (match show_prompt fuel prompt win with
          | Return _ win' | Raise _ win' => same_setup win win'
          | _ => True
          end) as H1.
  { destruct prompt as [p|]; [|apply same_setup_refl].
    apply append_and_draw_same_setup, same_setup_refl. }
  destruct (show_prompt fuel prompt win) as [? win1|? win1| |];
    [|by destruct H1 as (?&?&_)|done|done].
  pose proof (key_loop_same_setup fuel keys (-1) win (editing win1 [])
                (same_setup_editing _ _ _ H1)) as H2.
  destruct (Cmdbox.key_loop _ _ _ _) as [rest win2|? win2| |];
    [|by destruct H2 as (?&?&_)|done|done].
  destruct H2 as (Hhist & Hc & Hh2 & Hw2 & _).
  pose proof (submit_frame fuel win2 ltac:(lia) ltac:(lia)) as H3.
  destruct (Cmdbox.submit fuel win2) as [command win3|? win3| |]; [| |done|done].
  - destruct H3 as (-> & Hchars & Hcustom & Hhist3).
    split; [done|]. split; [congruence|].
    exists (Cmdbox.chars (Cmdbox.cmdbox win2)). split; [done|].
    by rewrite Hhist3, Hhist.
  - destruct H3 as (?&?&_). split; congruence.
Qed.

Lemma get_remembers_only_the_command_witness :
  match
    Cmdbox.get 10 None (typed (py "look") ++ [curses.KEY_UP; enter]) seasoned_window
  with
  | Return (command, _) win' =>
      Cmdbox.chars (Cmdbox.cmdbox win') = []
      ∧ Cmdbox.custom_commands (Cmdbox.cmdbox win')
        = Cmdbox.custom_commands (Cmdbox.cmdbox seasoned_window)
      ∧ ∃ buffer,
          command = lstrip buffer
          ∧ Cmdbox.history (Cmdbox.cmdbox win')
            = (if decide (command = [])
               then Cmdbox.history (Cmdbox.cmdbox seasoned_window)
               else remembered buffer (Cmdbox.history (Cmdbox.cmdbox seasoned_window)))
  | Raise _ win' =>
      Cmdbox.history (Cmdbox.cmdbox win')
      = Cmdbox.history (Cmdbox.cmdbox seasoned_window)
      ∧ Cmdbox.custom_commands (Cmdbox.cmdbox win')
        = Cmdbox.custom_commands (Cmdbox.cmdbox seasoned_window)
  | _ => True
  end.
Proof.
  apply (get_remembers_only_the_command 10 None
           (typed (py "look") ++ [curses.KEY_UP; enter]) seasoned_window).
  - simpl. lia.
  - simpl. lia.
Defined.

(* ================================================================= *)
(** ** Submitting *)

(** X13. A blank line: in a command box with room, when only spaces are
    typed before enter (or nothing at all), [get] returns the empty
    string, and it changes neither the scrollback nor the command history;
    this holds for every message box, whatever its width. *)
Theorem blank_line_is_not_a_command fuel text keys win :
  Forall printable text → lstrip text = [] →
  roomy (Cmdbox.cmdbox win) →
  Cmdbox.get fuel None (typed text ++ enter :: keys) win
  = Return ([], keys) (editing win []).
Proof.
  intros Hp Hblank Hroom. rewrite get_typed by done. unfold Cmdbox.submit.
  rewrite editing_chars, Hblank. rewrite bool_decide_eq_true_2 by done.
  rewrite with_draw_roomy; [done|done|constructor].
Qed.

Lemma blank_line_is_not_a_command_witness :
  Cmdbox.get 0 None (typed (py "   ") ++ enter :: []) usual_window
  = Return ([], []) (editing usual_window []).
Proof.
  apply (blank_line_is_not_a_command 0 (py "   ") [] usual_window).
  - repeat constructor; vm_compute; discriminate.
  - reflexivity.
  - split; simpl; lia.
Defined.

(** X14. Running a command again: in a command box with room whose
    history holds flat entries that are not blank, at a fresh prompt,
    browsing to an entry of the command history with the arrow keys and
    pressing enter returns that entry (stripped), echoes it, and remembers
    it as a typed command is remembered: the history is left as it is when
    the entry is the front one, and gets a copy of the entry on its front
    otherwise. *)
Theorem recalled_command_runs_again fuel (ups downs : nat) keys win :
  (1 <= ups)%nat →
  2 < Msgbox.w (Cmdbox.msgbox win) →
  (1 <= maxlen (Msgbox.history (Cmdbox.msgbox win)))%nat →
  roomy (Cmdbox.cmdbox win) →
  (∀ entry, entry ∈ items (Cmdbox.history (Cmdbox.cmdbox win)) →
     flat entry ∧ lstrip entry ≠ []
     ∧ (enough_fuel [Tuple (lstrip entry) curses.A_BOLD] <= fuel)%nat) →
  items (Cmdbox.history (Cmdbox.cmdbox win)) ≠ [] →
  ∃ entry win',
    items (Cmdbox.history (Cmdbox.cmdbox win))
      !! Z.to_nat (recalled_index
                     (len (items (Cmdbox.history (Cmdbox.cmdbox win)))) ups downs)
    = Some entry
    ∧ Cmdbox.get fuel None
        (presses ups curses.KEY_UP ++ presses downs curses.KEY_DOWN ++ enter :: keys)
        win
      = Return (lstrip entry, keys) win'
    ∧ Cmdbox.history (Cmdbox.cmdbox win')
      = remembered entry (Cmdbox.history (Cmdbox.cmdbox win))
    ∧ (recalled_index (len (items (Cmdbox.history (Cmdbox.cmdbox win)))) ups downs = 0 →
       Cmdbox.history (Cmdbox.cmdbox win') = Cmdbox.history (Cmdbox.cmdbox win)).
Proof.
  intros Hups Hw Hroom Hcmdbox Hentries Hne.
  destruct (key_loop_browse fuel ups downs (enter :: keys) (editing win []) Hups Hne)
    as (entry & Hentry & Hrun); [done| |].
  { apply Forall_forall. intros entry Hin. by apply Hentries. }
  cbn [editing Cmdbox.cmdbox Cmdbox.set_cmdbox Cmdbox.history Cmdbox.set_chars]
    in Hentry.
  destruct (Hentries entry (list_elem_of_lookup_2 _ _ _ Hentry))
    as (Hflat & Hcmd & Hfuel).
  destruct (append_command_returns fuel (lstrip entry) (Cmdbox.msgbox win)
              Hw Hroom Hfuel) as (m' & Happ & _).
  exists entry. eexists. split; [exact Hentry|].
  unfold Cmdbox.get. fold (editing win []). rewrite Hrun, key_loop_enter.
  rewrite (submit_spec fuel _ m') by done.
  split; [reflexivity|]. split; [reflexivity|].
  intros Hzero. cbn [Cmdbox.cmdbox Cmdbox.history].
  unfold remembered. cbn [editing Cmdbox.cmdbox Cmdbox.set_cmdbox Cmdbox.history
                           Cmdbox.set_chars Cmdbox.chars].
  rewrite decide_True; [done|].
  rewrite Hzero in Hentry. by rewrite head_lookup.
Qed.

Lemma recalled_command_runs_again_witness :
  ∃ entry win',
    items (Cmdbox.history (Cmdbox.cmdbox seasoned_window))
      !! Z.to_nat (recalled_index
                     (len (items (Cmdbox.history (Cmdbox.cmdbox seasoned_window)))) 2 0)
    = Some entry
    ∧ Cmdbox.get 20 None
        (presses 2 curses.KEY_UP ++ presses 0 curses.KEY_DOWN ++ enter :: [])
        seasoned_window
      = Return (lstrip entry, []) win'
    ∧ Cmdbox.history (Cmdbox.cmdbox win')
      = remembered entry (Cmdbox.history (Cmdbox.cmdbox seasoned_window))
    ∧ (recalled_index
         (len (items (Cmdbox.history (Cmdbox.cmdbox seasoned_window)))) 2 0 = 0 →
       Cmdbox.history (Cmdbox.cmdbox win')
       = Cmdbox.history (Cmdbox.cmdbox seasoned_window)).
Proof.
  apply (recalled_command_runs_again 20 2 0 [] seasoned_window).
  - lia.
  - simpl. lia.
  - simpl. lia.
  - split; simpl; lia.
  - intros entry Hin. simpl in Hin.
    repeat (apply elem_of_cons in Hin as [->|Hin];
            [split; [repeat constructor; by vm_compute
                    |split; [vm_compute; discriminate|vm_compute; lia]]|]).
    by apply elem_of_nil in Hin.
  - discriminate.
Defined.

(* ================================================================= *)
(** ** Keys that are not built in *)

Lemma key_loop_not_built_in fuel key keys history_index win :
  built_in key = false →
  Cmdbox.key_loop fuel (key :: keys) history_index win
  = match Cmdbox.custom_commands (Cmdbox.cmdbox win) !! key with
    | Some func =>
        Cmdbox.with_msgbox win (func fuel (Cmdbox.msgbox win)) (λ _ win,
          Cmdbox.key_loop fuel keys history_index win)
    | None =>
        if Cmdbox.debug_mode win then
          match
            Cmdbox.append_and_draw fuel
              (Str (Cmdbox.unhandled_key_message (Cmdbox.term win) key))
              sigil_error win
          with
          | Return _ win => Cmdbox.key_loop fuel keys history_index win
          | Raise e win => Raise e win
          | OutOfFuel => OutOfFuel
          | Blocked => Blocked
          end
        else Cmdbox.key_loop fuel keys history_index win
    end.
Proof.
  unfold built_in. intros H.
  repeat (apply orb_false_elim in H as [H ?]).
  cbn [Cmdbox.key_loop].
  assert ((key =? 127) || (key =? curses.KEY_BACKSPACE) = false) as Hb
    by (apply orb_false_intro; done).
  by repeat match goal with E : _ = false |- _ => rewrite E; clear E end.
Qed.

(** X15. Outside the debug mode, Ctrl+D and the keys that are neither
    built in nor registered do nothing: any number of them, anywhere in
    the input, leaves the loop in the state it was in. *)
Theorem unhandled_keys_are_ignored fuel ks keys history_index win :
  Cmdbox.debug_mode win = false →
  Forall (ignored win) ks →
  Cmdbox.key_loop fuel (ks ++ keys) history_index win
  = Cmdbox.key_loop fuel keys history_index win.
Proof.
  intros Hdebug Hks. induction Hks as [|key ks Hkey _ IH]; [done|].
  rewrite <- IH. destruct Hkey as [->|[Hb Hnone]]; [done|].
  change ((key :: ks) ++ keys) with (key :: (ks ++ keys)).
  rewrite key_loop_not_built_in by done. by rewrite Hnone, Hdebug.
Qed.

Lemma unhandled_keys_are_ignored_witness :
  Cmdbox.key_loop 0 ([4; 18; 410] ++ [103; enter]) (-1) usual_window
  = Cmdbox.key_loop 0 [103; enter] (-1) usual_window.
Proof.
  apply (unhandled_keys_are_ignored 0 [4; 18; 410] [103; enter] (-1) usual_window).
  - reflexivity.
  - repeat constructor; first [by left | right; split; reflexivity].
Defined.



(* ================================================================= *)
(** ** The size of the scrollback *)

Lemma run_call_grows fuel c self self' :
  (length (items (Msgbox.history self)) <= maxlen (Msgbox.history self))%nat →
  after (run_call fuel c self) = Some self' →
  Msgbox.h self' = Msgbox.h self ∧ Msgbox.w self' = Msgbox.w self
  ∧ Msgbox.page_size self' = Msgbox.page_size self
  ∧ maxlen (Msgbox.history self') = maxlen (Msgbox.history self)
  ∧ (length (items (Msgbox.history self))
     <= length (items (Msgbox.history self'))
     <= maxlen (Msgbox.history self))%nat.
Proof.
  intros Hsize Hafter. destruct c as [| |chunks sigil]; simpl in Hafter.
  - rewrite page_up_moves_one_page in Hafter. injection Hafter as <-.
    case_decide; simpl; repeat split; lia.
  - rewrite page_down_moves_one_page in Hafter. injection Hafter as <-.
    case_decide; simpl; repeat split; lia.
  - pose proof (append_grows fuel chunks sigil self Hsize) as Hg.
    assert (grows self self') as [(Hh&Hw&Hp&_&Hm) Hl].
    { destruct (Msgbox.append fuel chunks sigil self); simpl in Hafter;
        simplify_eq; done. }
    repeat split; try done; lia.
Qed.

(** X17. The scrollback is bounded: a message box made by [__init__] with
    height [h] keeps, through every sequence of [page_up], [page_down] and
    [append] calls (calls that raise included), its dimensions, its page
    size [h // 3] and a ring of at most [10 * h] lines; and no call makes
    the ring shorter. *)
Theorem scrollback_bounded (h w : Z) (box self : Msgbox.t) :
  Msgbox.init h w = inr box →
  reachable box self →
  Msgbox.h self = h ∧ Msgbox.w self = w ∧ Msgbox.page_size self = h / 3
  ∧ maxlen (Msgbox.history self) = Z.to_nat (h * 10)
  ∧ (length (items (Msgbox.history self)) <= Z.to_nat (h * 10))%nat
  ∧ ∀ fuel c self',
      after (run_call fuel c self) = Some self' →
      (length (items (Msgbox.history self))
       <= length (items (Msgbox.history self'))
       <= Z.to_nat (h * 10))%nat.
Proof.
  intros Hinit Hreach.
  assert (Msgbox.h self = h ∧ Msgbox.w self = w ∧ Msgbox.page_size self = h / 3
          ∧ maxlen (Msgbox.history self) = Z.to_nat (h * 10)
          ∧ (length (items (Msgbox.history self)) <= Z.to_nat (h * 10))%nat)
    as (Hh & Hw & Hp & Hm & Hl).
  { induction Hreach as [|fuel c self self' _ IH Hafter].
    - unfold Msgbox.init in Hinit.
      destruct ((h <? 0) || (w + 1 <? 0)); [done|].
      injection Hinit as <-. simpl. repeat split; lia.
    - destruct IH as (Hh & Hw & Hp & Hm & Hl).
      destruct (run_call_grows fuel c self self' ltac:(lia) Hafter)
        as (Hh' & Hw' & Hp' & Hm' & Hl').
      repeat split; try congruence; lia. }
  do 5 (split; [done|]). intros fuel c self' Hafter.
  destruct (run_call_grows fuel c self self' ltac:(lia) Hafter)
    as (_ & _ & _ & _ & Hl'). lia.
Qed.

Lemma scrollback_bounded_witness :
  Msgbox.h (Msgbox.Make 1 10 0 0 (Deque long_word_lines 10)) = 1
  ∧ Msgbox.w (Msgbox.Make 1 10 0 0 (Deque long_word_lines 10)) = 10
  ∧ Msgbox.page_size (Msgbox.Make 1 10 0 0 (Deque long_word_lines 10)) = 1 / 3
  ∧ maxlen (Msgbox.history (Msgbox.Make 1 10 0 0 (Deque long_word_lines 10)))
    = Z.to_nat (1 * 10)
  ∧ (length (items (Msgbox.history
                      (Msgbox.Make 1 10 0 0 (Deque long_word_lines 10))))
     <= Z.to_nat (1 * 10))%nat
  ∧ ∀ fuel c self',
      after (run_call fuel c (Msgbox.Make 1 10 0 0 (Deque long_word_lines 10)))
      = Some self' →
      (length (items (Msgbox.history
                        (Msgbox.Make 1 10 0 0 (Deque long_word_lines 10))))
       <= length (items (Msgbox.history self'))
       <= Z.to_nat (1 * 10))%nat.
Proof.
  apply (scrollback_bounded 1 10 (Msgbox.Make 1 10 0 0 (Deque [] 10))
           (Msgbox.Make 1 10 0 0 (Deque long_word_lines 10))).
  - reflexivity.
  - apply (reachable_call _ 9 (call_append [Str long_word] [sigil_plain])
             (Msgbox.Make 1 10 0 0 (Deque [] 10))); [|reflexivity].
    apply reachable_start.
Defined.

(* ================================================================= *)
(** ** The text that [append] lays out *)

Lemma without_space_app (s t : list N) :
  without_space (s ++ t) = without_space s ++ without_space t.
Proof.
  induction s as [|c s IH]; simpl; [done|].
  destruct (isspace c); [done|]. by rewrite IH.
Qed.

Lemma without_space_lstrip (s : list N) : without_space (lstrip s) = without_space s.
Proof.
  induction s as [|c s IH]; simpl; [done|].
  destruct (isspace c) eqn:E; [done|]. simpl. by rewrite E.
Qed.

Lemma slice_to_from {A} (s : list A) (n : Z) : slice_to s n ++ slice_from s n = s.
Proof. apply take_drop. Qed.

Lemma fragments_cons (l : list (list N * Z)) ls :
  fragments (l :: ls) = fragments ls ++ [concat (fst <$> tail l)].
Proof. unfold fragments. by rewrite reverse_cons, fmap_app. Qed.

Lemma history0_append_text c self self' :
  headed self →
  Msgbox.history0_append c self = Some self' →
  laid_text self' = laid_text self ++ c.1
  ∧ headed self'
  ∧ length (items (Msgbox.history self')) = length (items (Msgbox.history self))
  ∧ maxlen (Msgbox.history self') = maxlen (Msgbox.history self).
Proof.
  unfold headed, laid_text, Msgbox.history0_append. intros Hh.
  destruct (items (Msgbox.history self)) as [|l rest] eqn:E; [done|].
  intros [= <-]. simpl. apply Forall_cons in Hh as [Hl Hrest].
  rewrite !fragments_cons, !concat_app. simpl. rewrite !app_nil_r.
  split; [|split; [|done]].
  - destruct l as [|p l]; [done|]. simpl.
    by rewrite fmap_app, concat_app, app_assoc; simpl; rewrite app_nil_r.
  - apply Forall_cons. split; [|done]. by destruct l.
Qed.

Lemma history_appendleft_text p self :
  headed self →
  (length (items (Msgbox.history self)) < maxlen (Msgbox.history self))%nat →
  laid_text (Msgbox.history_appendleft [p] self) = laid_text self
  ∧ headed (Msgbox.history_appendleft [p] self)
  ∧ length (items (Msgbox.history (Msgbox.history_appendleft [p] self)))
    = S (length (items (Msgbox.history self)))
  ∧ maxlen (Msgbox.history (Msgbox.history_appendleft [p] self))
    = maxlen (Msgbox.history self).
Proof.
  unfold headed, laid_text. intros Hh Hroom. simpl.
  rewrite take_ge by (simpl; lia).
  rewrite fragments_cons, concat_app. simpl. rewrite app_nil_r.
  repeat split; try done. by apply Forall_cons.
Qed.

Lemma new_line_text c self self1 :
  headed self →
  (length (items (Msgbox.history self)) < maxlen (Msgbox.history self))%nat →
  Msgbox.history0_append c self = Some self1 →
  laid_text (Msgbox.history_appendleft [(py "  ", curses.A_NORMAL)] self1)
  = laid_text self ++ c.1
  ∧ headed (Msgbox.history_appendleft [(py "  ", curses.A_NORMAL)] self1)
  ∧ length (items (Msgbox.history
                     (Msgbox.history_appendleft [(py "  ", curses.A_NORMAL)] self1)))
    = S (length (items (Msgbox.history self)))
  ∧ maxlen (Msgbox.history
              (Msgbox.history_appendleft [(py "  ", curses.A_NORMAL)] self1))
    = maxlen (Msgbox.history self).
Proof.
  intros Hh Hroom Happ.
  destruct (history0_append_text c self self1 Hh Happ) as (Ht & Hh1 & Hl1 & Hm1).
  destruct (history_appendleft_text (py "  ", curses.A_NORMAL) self1 Hh1 ltac:(lia))
    as (Ht2 & Hh2 & Hl2 & Hm2).
  repeat split; try done; congruence.
Qed.

(** One pass of the wrap loop moves a part of the phrase to the ring, and
    drops nothing but whitespace. *)
Lemma wrap_body_text style phrase line_position self :
  headed self →
  (length (items (Msgbox.history self)) < maxlen (Msgbox.history self))%nat →
  match Msgbox.wrap_body style phrase line_position self with
  | Msgbox.Break _ self' =>
      without_space (laid_text self') = without_space (laid_text self ++ phrase)
      ∧ headed self'
      ∧ length (items (Msgbox.history self')) = length (items (Msgbox.history self))
      ∧ maxlen (Msgbox.history self') = maxlen (Msgbox.history self)
  | Msgbox.Continue phrase' self' =>
      without_space (laid_text self' ++ phrase')
      = without_space (laid_text self ++ phrase)
      ∧ headed self'
      ∧ length (items (Msgbox.history self')) = S (length (items (Msgbox.history self)))
      ∧ maxlen (Msgbox.history self') = maxlen (Msgbox.history self)
  | Msgbox.Fail _ _ => True
  end.
Proof.
  intros Hh Hroom. unfold Msgbox.wrap_body.
  set (p := if line_position =? 2 then lstrip phrase else phrase).
  assert (without_space p = without_space phrase) as Hp.
  { unfold p. destruct (line_position =? 2); [apply without_space_lstrip|done]. }
  assert (∀ t, without_space (t ++ p) = without_space (t ++ phrase)) as Hp'.
  { intros t. by rewrite !without_space_app, Hp. }
  clearbody p.
  destruct (len p <=? Msgbox.w self - line_position).
  { destruct (Msgbox.history0_append (p, style) self) as [self1|] eqn:Happ; [|done].
    destruct (history0_append_text _ _ _ Hh Happ) as (Ht & Hh1 & Hl1 & Hm1).
    simpl in Ht. rewrite Ht. by rewrite Hp'. }
  destruct (0 <? rfind space (slice_to p (Msgbox.w self - line_position))).
  { destruct (Msgbox.history0_append _ self) as [self1|] eqn:Happ; [|done].
    destruct (new_line_text _ _ _ Hh Hroom Happ) as (Ht & Hh2 & Hl2 & Hm2).
    simpl in Ht. rewrite Ht, <- app_assoc, slice_to_from. by rewrite Hp'. }
  destruct (line_position =? 2).
  { destruct (Msgbox.history0_append _ self) as [self1|] eqn:Happ; [|done].
    destruct (new_line_text _ _ _ Hh Hroom Happ) as (Ht & Hh2 & Hl2 & Hm2).
    simpl in Ht. rewrite Ht, <- app_assoc, slice_to_from. by rewrite Hp'. }
  destruct (history_appendleft_text (py "  ", curses.A_NORMAL) self Hh Hroom)
    as (Ht & Hh2 & Hl2 & Hm2).
  rewrite Ht. by rewrite Hp'.
Qed.

Lemma wrap_loop_text fuel style : ∀ phrase line_position self,
  headed self →
  (length (items (Msgbox.history self)) + fuel <= maxlen (Msgbox.history self))%nat →
  match Msgbox.wrap_loop fuel style phrase line_position self with
  | Return _ self' =>
      without_space (laid_text self') = without_space (laid_text self ++ phrase)
      ∧ headed self'
      ∧ (length (items (Msgbox.history self'))
         <= length (items (Msgbox.history self)) + fuel)%nat
      ∧ maxlen (Msgbox.history self') = maxlen (Msgbox.history self)
  | _ => True
  end.
Proof.
  induction fuel as [|fuel IH]; intros phrase line_position self Hh Hroom; simpl;
    [done|].
  pose proof (wrap_body_text style phrase line_position self Hh ltac:(lia)) as Hb.
  destruct (Msgbox.wrap_body style phrase line_position self)
    as [lp' self'|phrase' self'|]; [| |done].
  - destruct Hb as (Ht & Hh' & Hl' & Hm'). repeat split; try done; lia.
  - destruct Hb as (Ht & Hh' & Hl' & Hm').
    specialize (IH phrase' 2 self' Hh' ltac:(lia)).
    destruct (Msgbox.wrap_loop fuel style phrase' 2 self') as [lp'' self''| | |];
      try done.
    destruct IH as (Ht2 & Hh2 & Hl2 & Hm2).
    repeat split; try done; [congruence|lia|congruence].
Qed.

Lemma append_chunks_text fuel : ∀ chunks line_position self,
  headed self →
  (length (items (Msgbox.history self)) + fuel * length chunks
   <= maxlen (Msgbox.history self))%nat →
  match Msgbox.append_chunks fuel chunks line_position self with
  | Return _ self' =>
      without_space (laid_text self')
      = without_space (laid_text self ++ concat (chunk_text <$> chunks))
  | _ => True
  end.
Proof.
  induction chunks as [|c chunks IH]; intros line_position self Hh Hroom; simpl.
  { by rewrite app_nil_r. }
  assert (∀ phrase style,
    chunk_text c = phrase →
    match
      match Msgbox.wrap_loop fuel style phrase line_position self with
      | Return line_position self => Msgbox.append_chunks fuel chunks line_position self
      | Raise e self => Raise e self
      | OutOfFuel => OutOfFuel
      | Blocked => Blocked
      end
    with
    | Return _ self' =>
        without_space (laid_text self')
        = without_space (laid_text self ++ chunk_text c ++ concat (chunk_text <$> chunks))
    | _ => True
    end) as Hgo.
  { intros phrase style <-.
    pose proof (wrap_loop_text fuel style (chunk_text c) line_position self Hh
                  ltac:(simpl in Hroom; lia)) as Hl.
    destruct (Msgbox.wrap_loop fuel style (chunk_text c) line_position self)
      as [lp' self'| | |]; try done.
    destruct Hl as (Ht & Hh' & Hl' & Hm').
    specialize (IH lp' self' Hh' ltac:(simpl in Hroom; lia)).
    destruct (Msgbox.append_chunks fuel chunks lp' self'); try done.
    cbv beta iota in IH |- *.
    rewrite IH, !without_space_app, Ht, !without_space_app.
    by rewrite <- !app_assoc. }
  destruct c as [phrase|phrase style|name]; [by apply Hgo|by apply Hgo|done].
Qed.

(** X18. Wrapping loses no visible character: when [append] returns, the
    texts of the lines it has laid out, read from the oldest line to the
    most recent one without their sigil and indent chunks, hold the
    characters of the chunks in their order, less some whitespace: the
    two texts are the same once the whitespace characters are taken out. *)
Theorem append_keeps_visible_text (fuel : nat) (width : Z) (chunks : list chunk)
  (sigil : list N) (laid : Msgbox.t) :
  layout fuel width chunks sigil = Return tt laid →
  without_space (laid_text laid)
  = without_space (concat (chunk_text <$> chunks)).
Proof.
  unfold layout, Msgbox.append. intros Hlaid.
  set (start := Msgbox.history_appendleft _ _) in Hlaid.
  assert (items (Msgbox.history start) = [[(sigil ++ py " ", curses.A_NORMAL)]])
    as Hitems.
  { subst start. simpl. by rewrite take_nil. }
  assert (headed start) as Hh.
  { unfold headed. rewrite Hitems. by repeat constructor. }
  assert (length (items (Msgbox.history start)) + fuel * length chunks
          <= maxlen (Msgbox.history start))%nat as Hroom.
  { rewrite Hitems. simpl. lia. }
  pose proof (append_chunks_text fuel chunks 2 start Hh Hroom) as Ht.
  rewrite Hlaid in Ht. rewrite Ht. unfold laid_text. by rewrite Hitems.
Qed.

Lemma append_keeps_visible_text_witness :
  ∃ laid,
    layout 3 12 [Str (py "You see a "); Tuple (py "goblin") curses.A_BOLD; Str (py ".")]
      [sigil_plain]
    = Return tt laid
    ∧ without_space (laid_text laid)
      = without_space
          (concat (chunk_text
                     <$> [Str (py "You see a "); Tuple (py "goblin") curses.A_BOLD;
                          Str (py ".")])).
Proof.
  eexists. split; [reflexivity|].
  apply (append_keeps_visible_text 3 12
           [Str (py "You see a "); Tuple (py "goblin") curses.A_BOLD; Str (py ".")]
           [sigil_plain]).
  reflexivity.
Defined.

(* ================================================================= *)
(** ** Where [draw] puts the lines *)

Lemma moves_app ops ops' : moves (ops ++ ops') = moves ops ++ moves ops'.
Proof. apply omap_app. Qed.

Lemma render_moves line_style l : moves (render line_style l) = [].
Proof. induction l as [|c l IH]; [done|]. exact IH. Qed.

Lemma render_no_addstr_at line_style l y x text :
  curses.addstr_at y x text ∉ render line_style l.
Proof.
  induction l as [|c l IH]; [apply not_elem_of_nil|].
  apply not_elem_of_cons. by split.
Qed.

Lemma draw_rows_moves self compensate_paging rows :
  ∀ stale line_style box ops box',
  Msgbox.draw_rows self compensate_paging rows stale line_style box
  = inr (ops, box') →
  moves ops = (λ i, (Msgbox.h self - 1 - compensate_paging - i, 0)) <$> rows.
Proof.
  induction rows as [|i rows IH]; intros stale line_style box ops box';
    cbn [Msgbox.draw_rows].
  { by intros [= <- <-]. }
  destruct (curses.wmove _ 0 box) as [e|box1]; [done|].
  destruct (deque_index _ _) as [l|]; [|done].
  destruct (Msgbox.draw_line _ _ l stale box1) as [e|[[ops1 st1] box2]] eqn:Hline;
    [done|].
  destruct (Msgbox.draw_rows self compensate_paging rows st1 _ box2)
    as [e|[ops2 box3]] eqn:Hrows; [done|].
  intros [= <- <-].
  apply draw_line_inr in Hline as (-> & _).
  change (moves (curses.move (Msgbox.h self - 1 - compensate_paging - i) 0
                   :: render (if stale then curses.A_DIM else line_style) l
                      ++ ops2))
    with ((Msgbox.h self - 1 - compensate_paging - i, 0)
            :: moves (render (if stale then curses.A_DIM else line_style) l
                      ++ ops2)).
  rewrite moves_app, render_moves. simpl. f_equal. by eapply IH.
Qed.

Lemma draw_rows_no_addstr_at self compensate_paging rows y x text :
  ∀ stale line_style box ops box',
  Msgbox.draw_rows self compensate_paging rows stale line_style box
  = inr (ops, box') →
  curses.addstr_at y x text ∉ ops.
Proof.
  induction rows as [|i rows IH]; intros stale line_style box ops box';
    cbn [Msgbox.draw_rows].
  { intros [= <- <-]. apply not_elem_of_nil. }
  destruct (curses.wmove _ 0 box) as [e|box1]; [done|].
  destruct (deque_index _ _) as [l|]; [|done].
  destruct (Msgbox.draw_line _ _ l stale box1) as [e|[[ops1 st1] box2]] eqn:Hline;
    [done|].
  destruct (Msgbox.draw_rows self compensate_paging rows st1 _ box2)
    as [e|[ops2 box3]] eqn:Hrows; [done|].
  intros [= <- <-].
  apply draw_line_inr in Hline as (-> & _).
  apply not_elem_of_cons. split; [done|].
  apply not_elem_of_app. split; [apply render_no_addstr_at|by eapply IH].
Qed.

(** X19. [draw] keeps inside the box: when it returns, it has moved the
    cursor once for each line it prints, to column 0 of the rows from the
    bottom one upwards; the rows lie between 0 and [h - 1], and while the
    paging indicator is shown they lie above the bottom row, which holds
    the indicator; the indicator is written only while the box is paged. *)
Theorem draw_fills_from_the_bottom (self : Msgbox.t) (ops : list curses.op) :
  Msgbox.draw self = Return ops self →
  moves ops
  = (λ i, (Msgbox.h self - 1
           - (if Msgbox.history_index self =? 0 then 0 else 1) - i, 0))
      <$> seqZ 0 (lines_to_print self)
  ∧ (∀ y x, (y, x) ∈ moves ops →
       x = 0
       ∧ 0 <= y <= Msgbox.h self - 1
                    - (if Msgbox.history_index self =? 0 then 0 else 1))
  ∧ (∀ y x text, curses.addstr_at y x text ∈ ops →
       Msgbox.history_index self ≠ 0
       ∧ y = Msgbox.h self - 1 ∧ x = Msgbox.w self / 2 ∧ text = [ellipsis]).
Proof.
  unfold Msgbox.draw, Msgbox.draw_ops, lines_to_print. intros Hdraw.
  set (c := if Msgbox.history_index self =? 0 then 0 else 1).
  assert ((if negb (Msgbox.history_index self =? 0) then 1 else 0) = c) as Hc.
  { unfold c. by destruct (Msgbox.history_index self =? 0). }
  rewrite Hc in Hdraw.
  destruct (if negb (Msgbox.history_index self =? 0) then _ else _)
    as [e|box1]; [done|].
  destruct (Msgbox.draw_rows self c _ false curses.A_NORMAL box1)
    as [e|[rows box2]] eqn:Hrows; [done|].
  injection Hdraw as Hops.
  pose proof (draw_rows_moves _ _ _ _ _ _ _ _ Hrows) as Hm.
  assert (moves ops = moves rows) as Hmo.
  { rewrite <- Hops. unfold moves. simpl. rewrite !omap_app.
    destruct (negb _); simpl; by rewrite app_nil_r. }
  rewrite Hmo.
  split; [done|]. split.
  - intros y x Hin. rewrite Hm in Hin.
    apply list_elem_of_fmap in Hin as (i & [= -> ->] & Hi).
    apply elem_of_seqZ in Hi. split; [done|]. lia.
  - intros y x text Hin. rewrite <- Hops in Hin.
    do 2 (apply elem_of_cons in Hin as [Hin|Hin]; [done|]).
    apply elem_of_app in Hin as [Hin|Hin].
    { destruct (Msgbox.history_index self =? 0) eqn:Hidx; simpl in Hin.
      - by apply elem_of_nil in Hin.
      - apply list_elem_of_singleton in Hin. injection Hin as -> -> ->.
        apply Z.eqb_neq in Hidx. done. }
    apply elem_of_app in Hin as [Hin|Hin].
    { exfalso. by eapply draw_rows_no_addstr_at. }
    apply list_elem_of_singleton in Hin. done.
Qed.

Lemma draw_fills_from_the_bottom_witness :
  ∃ ops,
    Msgbox.draw (Msgbox.Make 4 10 1 1 (Deque long_word_lines 40))
    = Return ops (Msgbox.Make 4 10 1 1 (Deque long_word_lines 40))
    ∧ moves ops = [(2, 0); (1, 0); (0, 0)].
Proof.
  eexists. split; [vm_compute; reflexivity|].
  apply (draw_fills_from_the_bottom (Msgbox.Make 4 10 1 1 (Deque long_word_lines 40))).
  vm_compute. reflexivity.
Defined.

(* ================================================================= *)
(** ** [Window.say] of a blank message *)

(** A [str] that fits on the sigil line is laid out on that line. *)
Lemma append_fitting_str fuel phrase sigil (m : Msgbox.t) :
  len (lstrip phrase) <= Msgbox.w m - 2 →
  (1 <= maxlen (Msgbox.history m))%nat →
  (1 <= fuel)%nat →
  Msgbox.append fuel [Str phrase] sigil m
  = Return tt
      (pushed [[(sigil ++ py " ", curses.A_NORMAL); (lstrip phrase, curses.A_NORMAL)]] m).
Proof.
  intros Hfit Hroom Hfuel. destruct fuel as [|fuel]; [lia|].
  apply Z.leb_le in Hfit. destruct m as [h w ps idx [older n]]. simpl in *.
  destruct n as [|n]; [lia|].
  unfold Msgbox.append, pushed. simpl.
  unfold Msgbox.wrap_body. simpl. rewrite Hfit. reflexivity.
Qed.

Lemma pushed_front l (m : Msgbox.t) :
  (1 <= maxlen (Msgbox.history m))%nat →
  items (Msgbox.history (pushed [l] m)) !! 0%nat = Some l.
Proof.
  intros Hroom. unfold pushed. simpl.
  by destruct (maxlen (Msgbox.history m)); [lia|].
Qed.

(** X20. [say] of a blank message raises: on a message box that is not
    paged, at least 1 high and 2 wide, with room in its ring, [say] of a
    string that is empty or all whitespace pushes a line whose text chunk
    is empty; the redraw writes the sigil of that line on the bottom row
    and raises [IndexError] at the empty chunk, whatever the older lines
    hold; the line stays on the ring. *)
Theorem say_blank_raises (fuel : nat) (phrase : list N) (win : Cmdbox.window) :
  lstrip phrase = [] →
  2 <= Msgbox.w (Cmdbox.msgbox win) →
  1 <= Msgbox.h (Cmdbox.msgbox win) →
  Msgbox.history_index (Cmdbox.msgbox win) = 0 →
  (1 <= maxlen (Msgbox.history (Cmdbox.msgbox win)))%nat →
  (1 <= fuel)%nat →
  Window.say fuel (Str phrase) win
  = Raise IndexError
      (Cmdbox.set_msgbox win
         (pushed [[([sigil_plain; space], curses.A_NORMAL); ([], curses.A_NORMAL)]]
            (Cmdbox.msgbox win))).
Proof.
  intros Hblank Hw Hh Hidx Hroom Hfuel.
  unfold Window.say, Cmdbox.append_and_draw.
  rewrite append_fitting_str; [|rewrite Hblank; unfold len; simpl; lia|done|done].
  rewrite Hblank. cbn [Cmdbox.with_msgbox Cmdbox.msgbox Cmdbox.set_msgbox].
  set (m' := pushed _ _).
  assert (Msgbox.draw m' = Raise IndexError m') as ->; [|done].
  pose proof (pushed_front [([sigil_plain] ++ py " ", curses.A_NORMAL);
                            ([], curses.A_NORMAL)]
                (Cmdbox.msgbox win) Hroom) as Hfront.
  fold m' in Hfront.
  assert (Msgbox.history_index m' = 0) as Hidx' by (subst m'; done).
  assert (Msgbox.h m' = Msgbox.h (Cmdbox.msgbox win)) as Hh' by (subst m'; done).
  assert (Msgbox.w m' = Msgbox.w (Cmdbox.msgbox win)) as Hw' by (subst m'; done).
  unfold Msgbox.draw, Msgbox.draw_ops. rewrite Hidx'.
  change (negb (0 =? 0)) with false. cbv iota zeta.
  apply lookup_lt_Some in Hfront as Hlen.
  assert (0 < Z.min (Msgbox.h m' - 0) (len (items (Msgbox.history m')) - 0)) as Hn.
  { unfold len. lia. }
  rewrite seqZ_cons by done.
  cbn [Msgbox.draw_rows]. rewrite Hidx'.
  rewrite wmove_inside;
    [|unfold Msgbox.box; simpl; lia|unfold Msgbox.box; simpl; lia].
  unfold deque_index. change (0 + 0 <? 0) with false. cbv iota.
  change (Z.to_nat (0 + 0)) with 0%nat. rewrite Hfront.
  cbn [Msgbox.draw_line]. change (0 =? 0) with true. cbv iota.
  rewrite waddstr_flat; [done| |by vm_compute| |].
  - apply Forall_cons. split; [by vm_compute|].
    apply Forall_cons. split; [by vm_compute|constructor].
  - simpl. lia.
  - unfold len, Msgbox.box. simpl. lia.
Qed.

Lemma say_blank_raises_witness :
  Window.say 1 (Str (py "  ")) usual_window
  = Raise IndexError
      (Cmdbox.set_msgbox usual_window
         (pushed [[([sigil_plain; space], curses.A_NORMAL); ([], curses.A_NORMAL)]]
            (Cmdbox.msgbox usual_window))).
Proof.
  apply (say_blank_raises 1 (py "  ") usual_window).
  - reflexivity.
  - simpl. lia.
  - simpl. lia.
  - reflexivity.
  - simpl. lia.
  - lia.
Defined.

(* ================================================================= *)
(** ** Drawing the command box *)

(** X21. [Cmdbox.draw] in a box at least 1 high and 3 wide, on an edit
    buffer of one-column characters, returns, having written fewer
    characters than the box is wide: the whole buffer, after erasing the
    box, while the buffer is shorter than the width; otherwise an ellipsis
    followed by the last [w - 2] characters of the buffer, without
    erasing. *)
Theorem cmdbox_draw_shows_the_tail (self : Cmdbox.t) :
  roomy self →
  flat (Cmdbox.chars self) →
  (len (Cmdbox.chars self) < Cmdbox.w self →
   Cmdbox.draw self
   = Return [curses.erase; curses.addstr_at 0 0 (Cmdbox.chars self)] self)
  ∧ (Cmdbox.w self <= len (Cmdbox.chars self) →
     ∃ hidden shown,
       Cmdbox.chars self = hidden ++ shown
       ∧ len shown = Cmdbox.w self - 2
       ∧ Cmdbox.draw self = Return [curses.addstr_at 0 0 (ellipsis :: shown)] self)
  ∧ (∀ ops y x text,
       Cmdbox.draw self = Return ops self →
       curses.addstr_at y x text ∈ ops →
       y = 0 ∧ x = 0 ∧ len text < Cmdbox.w self).
Proof.
  intros [Hh Hw] Hflat.
  assert (len (Cmdbox.chars self) < Cmdbox.w self →
          Cmdbox.draw self
          = Return [curses.erase; curses.addstr_at 0 0 (Cmdbox.chars self)] self)
    as Hshort.
  { intros Hlen. unfold Cmdbox.draw. apply Z.ltb_lt in Hlen as Hb. rewrite Hb.
    by rewrite mvwaddstr_flat by (done || simpl; lia). }
  assert (Cmdbox.w self <= len (Cmdbox.chars self) →
          ∃ hidden shown,
            Cmdbox.chars self = hidden ++ shown
            ∧ len shown = Cmdbox.w self - 2
            ∧ Cmdbox.draw self
              = Return [curses.addstr_at 0 0 (ellipsis :: shown)] self)
    as Hlong.
  { intros Hlen. unfold Cmdbox.draw.
    destruct (len (Cmdbox.chars self) <? Cmdbox.w self) eqn:E;
      [apply Z.ltb_lt in E; lia|].
    exists (slice_to (Cmdbox.chars self) (- (Cmdbox.w self - 2))),
           (slice_from (Cmdbox.chars self) (- (Cmdbox.w self - 2))).
    assert (len (slice_from (Cmdbox.chars self) (- (Cmdbox.w self - 2)))
            = Cmdbox.w self - 2) as Hshown.
    { unfold slice_from, len in *.
      destruct (- (Cmdbox.w self - 2) <? 0) eqn:E2; [|apply Z.ltb_ge in E2; lia].
      rewrite length_drop. lia. }
    split; [by rewrite slice_to_from|]. split; [done|].
    rewrite mvwaddstr_flat; [done| |simpl; lia|lia|].
    - apply Forall_cons. split; [by vm_compute|].
      unfold slice_from. destruct (_ <? 0); by apply flat_drop.
    - unfold len in *. simpl. simpl in Hshown. lia. }
  split; [done|]. split; [done|].
  intros ops y x text Hdraw Hin.
  destruct (decide (len (Cmdbox.chars self) < Cmdbox.w self)) as [Hlen|Hlen].
  - rewrite (Hshort Hlen) in Hdraw. injection Hdraw as <-.
    apply elem_of_cons in Hin as [Hin|Hin]; [done|].
    apply list_elem_of_singleton in Hin. by injection Hin as -> -> ->.
  - destruct (Hlong ltac:(lia)) as (hidden & shown & _ & Hshown & Hops).
    rewrite Hops in Hdraw. injection Hdraw as <-.
    apply list_elem_of_singleton in Hin.
    injection Hin as -> -> ->. unfold len in *. simpl. lia.
Qed.

Lemma cmdbox_draw_shows_the_tail_witness :
  ∃ hidden shown,
    Cmdbox.chars (Cmdbox.Make 1 6 (py "take lamp") ∅ (Deque [] 10)) = hidden ++ shown
    ∧ len shown = Cmdbox.w (Cmdbox.Make 1 6 (py "take lamp") ∅ (Deque [] 10)) - 2
    ∧ Cmdbox.draw (Cmdbox.Make 1 6 (py "take lamp") ∅ (Deque [] 10))
      = Return [curses.addstr_at 0 0 (ellipsis :: shown)]
          (Cmdbox.Make 1 6 (py "take lamp") ∅ (Deque [] 10)).
Proof.
  apply (proj1 (proj2 (cmdbox_draw_shows_the_tail
                         (Cmdbox.Make 1 6 (py "take lamp") ∅ (Deque [] 10))
                         ltac:(split; simpl; lia)
                         ltac:(apply printable_flat; repeat constructor;
                               vm_compute; done)))).
  vm_compute. discriminate.
Defined.
